(** * Wasserstein: the EMD solver and the pairwise orchestrator of [EMD.hh]

    A shallow embedding of [src/wasserstein/EMD.hh]:
    - [_EMD]: the single-pair solver ([compute], [flow], the constructor);
    - [PairwiseEMD]: batch storage and dispatch ([init], [compute], [emds],
      [emd], [index_symmetric], [record_failure]).

    Conventions.
    - [Value], the numeric template parameter, is a type with the operators
      the code applies to it ([ValueOps]); nothing is assumed of them unless
      a lemma asks for [ExactValue] (exact arithmetic, as in [Qc]).  The
      code's own [double] is IEEE binary64 ([binary64_ops]).
    - [index_type] is a signed integer, modelled by [Z]; [/] and [%] are
      [Z.quot] and [Z.rem].
    - [std::vector] is a list; [v.resize(n)] is [resize n vzero v].
    - The transport solver and the ground-distance provider are external
      collaborators: they are parameters of the development.
    - The batch loop is the code as built without OpenMP (the pragmas are
      then comments and [thread] is [0]); timing and progress printing are
      not modelled. *)

From stdpp Require Import base numbers list strings pretty.
From Stdlib Require Import ZArith QArith Qcanon Lia PrimFloat.

Open Scope Z_scope.

(** ** The numeric template parameter *)

Class ValueOps (V : Type) := {
  vzero : V;
  vone : V;
  vadd : V → V → V;
  vsub : V → V → V;
  vopp : V → V;
  vmul : V → V → V;
  vdiv : V → V → V;
  vltb : V → V → bool;   (* operator<  *)
  veqb : V → V → bool    (* operator== *)
}.

(** [std::max(a, b)] is [(a < b) ? b : a]. *)
Definition vmax `{ValueOps V} (a b : V) : V := if vltb a b then b else a.

(** [|x|], as [std::abs]. *)
Definition vabs `{ValueOps V} (x : V) : V := if vltb x vzero then vopp x else x.

(** What exact arithmetic adds to the operators: the facts on differences
    and order that weight balancing relies on. *)
Class ExactValue (V : Type) `{ValueOps V} : Prop := {
  vsub_eq_zero : ∀ a b : V, a ≠ b → veqb (vsub b a) vzero = false;
  vsub_pos : ∀ a b : V, vltb vzero (vsub b a) = vltb a b;
  vsub_neg : ∀ a b : V, vltb (vsub b a) vzero = vltb b a;
  vltb_total : ∀ a b : V, a ≠ b → vltb a b = false → vltb b a = true;
  vltb_asym : ∀ a b : V, vltb a b = true → vltb b a = false;
  vadd_vsub : ∀ a b : V, vadd a (vsub b a) = b;
  vadd_vopp_vsub : ∀ a b : V, vadd b (vopp (vsub b a)) = a;
  vdiv_zero : ∀ s : V, vdiv vzero s = vzero;
  vdiv_vadd : ∀ a b s : V, vdiv (vadd a b) s = vadd (vdiv a s) (vdiv b s)
}.

(** ** Enumerations *)

Inductive ExtraParticle := Neither | Zero | One.

Inductive EMDStatus :=
  Success | Empty | SupplyMismatch | Unbounded | MaxIterReached | Infeasible.

(** [int(status)], with the values the comment above [compute] lists. *)
Definition status_code (s : EMDStatus) : Z :=
  match s with
  | Success => 0 | Empty => 1 | SupplyMismatch => 2
  | Unbounded => 3 | MaxIterReached => 4 | Infeasible => 5
  end.

Definition is_success (s : EMDStatus) : bool :=
  match s with Success => true | _ => false end.

Inductive EMDPairsStorage := Full | FullSymmetric | FlattenedSymmetric | External.

Global Instance EMDPairsStorage_eq_dec : EqDecision EMDPairsStorage.
Proof. solve_decision. Defined.

Global Instance EMDStatus_eq_dec : EqDecision EMDStatus.
Proof. solve_decision. Defined.

Global Instance ExtraParticle_eq_dec : EqDecision ExtraParticle.
Proof. solve_decision. Defined.

(** Exceptions, by the class thrown; [StatusError] is what
    [check_emd_status] raises for a status other than [Success]. *)
Inductive exn :=
  | OutOfRange (msg : string)
  | LogicError (msg : string)
  | RuntimeError (msg : string)
  | InvalidArgument (msg : string)
  | StatusError (st : EMDStatus).

(** ** Vectors *)

(** [std::copy(src.begin(), src.end(), dst.begin() + pos)]: the destination
    with [src] written from [pos] on, and the position after the last
    element written (the iterator [std::copy] returns). *)
Definition std_copy {A} (src dst : list A) (pos : nat) : list A * nat :=
  (take pos dst ++ src ++ drop (pos + length src) dst, (pos + length src)%nat).

(** [v[i] = x] for an index of type [index_type]. An index outside the
    vector is undefined behaviour in the source; the model leaves the vector
    as it is. *)
Definition vec_set {A} (v : list A) (i : Z) (x : A) : list A :=
  if decide (0 <= i) then <[Z.to_nat i := x]> v else v.

(** [v[i]] for an index of type [index_type]; the default value stands for
    the undefined read outside the vector. *)
Definition vec_get {A} `{Inhabited A} (v : list A) (i : Z) : A :=
  if decide (0 <= i) then v !!! Z.to_nat i else inhabitant.

Section EMD.

Context {V : Type} `{VO : ValueOps V}.
Context {Particle : Type}.

Global Instance V_inhabited : Inhabited V := populate vzero.

(** ** Events *)

(** The event class is declared in [internal/Event.hh]; the code reads its
    [weights()], [particles()], [total_weight()] and [event_weight()]. *)
Record Event := {
  weights : list V;
  particles : list Particle;
  total_weight : V;
  event_weight : V
}.

(** The sum of an event's weights, which section 3 of the spec gives as the
    value of [total_weight()]. *)
Definition weights_sum (ev : Event) : V := foldl vadd vzero (weights ev).

(** ** The transport solver's buffers *)

Record NetworkSimplex := {
  ns_weights : list V;
  ns_dists : list V;
  ns_flows : list V;
  ns_total_cost : V;
  ns_n_iter_max : Z;
  ns_epsilon_large_factor : V;
  ns_epsilon_small_factor : V
}.

Definition ns_with_weights (ns : NetworkSimplex) (w : list V) : NetworkSimplex :=
  {| ns_weights := w; ns_dists := ns_dists ns; ns_flows := ns_flows ns;
     ns_total_cost := ns_total_cost ns; ns_n_iter_max := ns_n_iter_max ns;
     ns_epsilon_large_factor := ns_epsilon_large_factor ns;
     ns_epsilon_small_factor := ns_epsilon_small_factor ns |}.

Definition ns_with_dists (ns : NetworkSimplex) (d : list V) : NetworkSimplex :=
  {| ns_weights := ns_weights ns; ns_dists := d; ns_flows := ns_flows ns;
     ns_total_cost := ns_total_cost ns; ns_n_iter_max := ns_n_iter_max ns;
     ns_epsilon_large_factor := ns_epsilon_large_factor ns;
     ns_epsilon_small_factor := ns_epsilon_small_factor ns |}.

(** The external collaborators: [network_simplex_.compute(n0, n1)], which
    reads and updates the solver's buffers and returns a status, and
    [pairwise_distance_.fill_distances(ps0, ps1, dists, extra)], which
    fills the ground distances given [R] and [beta]. *)
Variable ns_compute : NetworkSimplex → Z → Z → NetworkSimplex * EMDStatus.
Variable fill_distances :
  V * V → list Particle → list Particle → list V → ExtraParticle → list V.

(** ** The single-pair solver [_EMD] *)

Record EMD := {
  norm_ : bool;
  do_timing_ : bool;
  external_dists_ : bool;
  n0_ : Z;
  n1_ : Z;
  extra_ : ExtraParticle;
  weightdiff_ : V;
  scale_ : V;
  emd_ : V;
  status_ : EMDStatus;
  pairwise_distance_ : V * V;          (* R and beta *)
  network_simplex_ : NetworkSimplex
}.

Definition set_external_dists (e : EMD) (b : bool) : EMD :=
  {| norm_ := norm_ e; do_timing_ := do_timing_ e; external_dists_ := b;
     n0_ := n0_ e; n1_ := n1_ e; extra_ := extra_ e;
     weightdiff_ := weightdiff_ e; scale_ := scale_ e; emd_ := emd_ e;
     status_ := status_ e; pairwise_distance_ := pairwise_distance_ e;
     network_simplex_ := network_simplex_ e |}.

Definition set_scale (e : EMD) (s : V) : EMD :=
  {| norm_ := norm_ e; do_timing_ := do_timing_ e;
     external_dists_ := external_dists_ e;
     n0_ := n0_ e; n1_ := n1_ e; extra_ := extra_ e;
     weightdiff_ := weightdiff_ e; scale_ := s; emd_ := emd_ e;
     status_ := status_ e; pairwise_distance_ := pairwise_distance_ e;
     network_simplex_ := network_simplex_ e |}.

Definition set_network_simplex (e : EMD) (ns : NetworkSimplex) : EMD :=
  {| norm_ := norm_ e; do_timing_ := do_timing_ e;
     external_dists_ := external_dists_ e;
     n0_ := n0_ e; n1_ := n1_ e; extra_ := extra_ e;
     weightdiff_ := weightdiff_ e; scale_ := scale_ e; emd_ := emd_ e;
     status_ := status_ e; pairwise_distance_ := pairwise_distance_ e;
     network_simplex_ := ns |}.

(** Modelled from the spec: the base class [EMDBase] is declared outside
    this file; its constructor stores [norm], [do_timing] and
    [external_dists] (section 4.1, Configuration), and the fields that
    [compute] assigns before any read start at neutral values. *)
Definition EMDBase_ctor (norm do_timing external_dists : bool)
    (pd : V * V) (ns : NetworkSimplex) : EMD :=
  {| norm_ := norm; do_timing_ := do_timing; external_dists_ := external_dists;
     n0_ := 0; n1_ := 0; extra_ := Neither;
     weightdiff_ := vzero; scale_ := vzero; emd_ := vzero;
     status_ := Empty; pairwise_distance_ := pd; network_simplex_ := ns |}.

(** The constructor. [is_default_distance] is the value of
    [std::is_same<PairwiseDistance, DefaultPairwiseDistance<Value>>::value],
    fixed by the template arguments. *)
Definition EMD_ctor (is_default_distance : bool)
    (R beta : V) (norm do_timing external_dists : bool)
    (n_iter_max : Z) (epsilon_large_factor epsilon_small_factor : V) : EMD :=
  let ns := {| ns_weights := []; ns_dists := []; ns_flows := [];
               ns_total_cost := vzero; ns_n_iter_max := n_iter_max;
               ns_epsilon_large_factor := epsilon_large_factor;
               ns_epsilon_small_factor := epsilon_small_factor |} in
  let e := EMDBase_ctor norm do_timing external_dists (R, beta) ns in
  (* setup units correctly (only relevant here if norm = true) *)
  let e := set_scale e vone in
  (* automatically set external dists in the default case *)
  set_external_dists e is_default_distance.

(** *** [compute], block by block *)

(** Lines 228-259: particle counts, weight difference, and the combined
    weight buffer with its fictitious particle. *)
Definition add_fictitious (e : EMD) (ev0 ev1 : Event) : EMD :=
  let ws0 := weights ev0 in
  let ws1 := weights ev1 in
  let n0 := Z.of_nat (length ws0) in
  let n1 := Z.of_nat (length ws1) in
  let wd := vsub (total_weight ev1) (total_weight ev0) in
  let old := ns_weights (network_simplex_ e) in
  let '(extra, n0, n1, buf) :=
    if norm_ e || external_dists_ e || veqb wd vzero then
      (* for norm or already equal or custom distance, don't add particle *)
      let w := resize (Z.to_nat (n0 + n1 + 1)) vzero old in
      let '(w, it) := std_copy ws0 w 0 in
      let '(w, _) := std_copy ws1 w it in
      (Neither, n0, n1, w)
    else if vltb vzero wd then
      (* add extra particle to event0 as it has less total weight *)
      let n0 := n0 + 1 in
      let w := resize (Z.to_nat (n0 + n1 + 1)) vzero old in
      let '(w, it) := std_copy ws0 w 0 in
      let w := <[it := wd]> w in
      let '(w, _) := std_copy ws1 w (S it) in
      (Zero, n0, n1, w)
    else
      (* add extra particle to event1 as it has less total weight *)
      let n1 := n1 + 1 in
      let w := resize (Z.to_nat (n0 + n1 + 1)) vzero old in
      let '(w, it) := std_copy ws0 w 0 in
      let '(w, it) := std_copy ws1 w it in
      (One, n0, n1, <[it := vopp wd]> w) in
  {| norm_ := norm_ e; do_timing_ := do_timing_ e;
     external_dists_ := external_dists_ e;
     n0_ := n0; n1_ := n1; extra_ := extra;
     weightdiff_ := wd; scale_ := scale_ e; emd_ := emd_ e;
     status_ := status_ e; pairwise_distance_ := pairwise_distance_ e;
     network_simplex_ := ns_with_weights (network_simplex_ e) buf |}.

(** Lines 261-265: if not norm, scale each weight by the max total. *)
Definition scale_weights (e : EMD) (ev0 ev1 : Event) : EMD :=
  if norm_ e then e
  else
    let s := vmax (total_weight ev0) (total_weight ev1) in
    let e := set_scale e s in
    set_network_simplex e
      (ns_with_weights (network_simplex_ e)
         ((λ w, vdiv w s) <$> ns_weights (network_simplex_ e))).

(** Lines 267-269: ground distances, unless externally provided. *)
Definition store_dists (e : EMD) (ev0 ev1 : Event) : EMD :=
  if external_dists_ e then e
  else
    set_network_simplex e
      (ns_with_dists (network_simplex_ e)
         (fill_distances (pairwise_distance_ e) (particles ev0) (particles ev1)
            (ns_dists (network_simplex_ e)) (extra_ e))).

(** Lines 271-277: run the solver, store status and cost, undo the scale. *)
Definition run_solver (e : EMD) : EMD :=
  let '(ns, st) := ns_compute (network_simplex_ e) (n0_ e) (n1_ e) in
  let cost := ns_total_cost ns in
  {| norm_ := norm_ e; do_timing_ := do_timing_ e;
     external_dists_ := external_dists_ e;
     n0_ := n0_ e; n1_ := n1_ e; extra_ := extra_ e;
     weightdiff_ := weightdiff_ e; scale_ := scale_ e;
     emd_ := if is_success st && negb (norm_ e)
             then vmul cost (scale_ e) else cost;
     status_ := st; pairwise_distance_ := pairwise_distance_ e;
     network_simplex_ := ns |}.

(** The state handed to the solver: everything [compute] does before
    [network_simplex_.compute]. *)
Definition prepare (e : EMD) (ev0 ev1 : Event) : EMD :=
  store_dists (scale_weights (add_fictitious e ev0 ev1) ev0 ev1) ev0 ev1.

Definition compute (e : EMD) (ev0 ev1 : Event) : EMD * EMDStatus :=
  let e := run_solver (prepare e ev0 ev1) in
  (e, status_ e).

(** *** Flows *)

(** ["raw" access to EMD flow], [flow(std::size_t ind)]. The solver's flow
    buffer holds at least [n0*n1] entries (section 6). *)
Definition flow_raw (e : EMD) (ind : Z) : V :=
  vmul (vec_get (ns_flows (network_simplex_ e)) ind) (scale_ e).

(** [flow(index_type i, index_type j)]. *)
Definition flow (e : EMD) (i j : Z) : exn + V :=
  (* allow for negative indices *)
  let i := if decide (i < 0) then i + n0_ e else i in
  let j := if decide (j < 0) then j + n1_ e else j in
  (* check for improper indexing *)
  if decide (i >= n0_ e ∨ j >= n1_ e ∨ i < 0 ∨ j < 0)
  then inl (OutOfRange "EMD::flow - Indices out of range")
  else inr (flow_raw e (i * n1_ e + j)).

(** [dists()]: the first [n0*n1] ground distances. The source copies the
    range [begin, begin + n0*n1), which is undefined when the solver's
    buffer is shorter; [take] then gives what there is. *)
Definition dists (e : EMD) : list V :=
  take (Z.to_nat (n0_ e * n1_ e)) (ns_dists (network_simplex_ e)).

(** [flows()]: the first [n0*n1] flows, each times [scale]. *)
Definition flows (e : EMD) : list V :=
  (λ f, vmul f (scale_ e))
    <$> take (Z.to_nat (n0_ e * n1_ e)) (ns_flows (network_simplex_ e)).

(** ** The pairwise orchestrator [PairwiseEMD] *)

(** The external handler, seen through its only operation
    [handler_->operator()(emd, weight)]: the calls it has received, oldest first. *)
Definition Handler : Type := list (V * V).

Record PairwiseEMD := {
  num_threads_ : Z;
  emd_objs_ : list EMD;
  print_every_ : Z;
  handler_ : option Handler;            (* [None] is [nullptr] *)
  store_sym_emds_flattened_ : bool;
  throw_on_error_ : bool;
  request_mode_ : bool;
  events_ : list Event;
  emds_ : list V;
  full_emds_ : list V;
  error_messages_ : list string;
  nevA_ : Z;
  nevB_ : Z;
  num_emds_ : Z;
  emd_counter_ : Z;
  emd_storage_ : EMDPairsStorage;
  two_event_sets_ : bool
}.

Definition set_emd_objs (s : PairwiseEMD) (objs : list EMD) : PairwiseEMD :=
  {| num_threads_ := num_threads_ s; emd_objs_ := objs;
     print_every_ := print_every_ s; handler_ := handler_ s;
     store_sym_emds_flattened_ := store_sym_emds_flattened_ s;
     throw_on_error_ := throw_on_error_ s; request_mode_ := request_mode_ s;
     events_ := events_ s; emds_ := emds_ s; full_emds_ := full_emds_ s;
     error_messages_ := error_messages_ s; nevA_ := nevA_ s;
     nevB_ := nevB_ s; num_emds_ := num_emds_ s;
     emd_counter_ := emd_counter_ s; emd_storage_ := emd_storage_ s;
     two_event_sets_ := two_event_sets_ s |}.

Definition set_handler (s : PairwiseEMD) (h : option Handler) : PairwiseEMD :=
  {| num_threads_ := num_threads_ s; emd_objs_ := emd_objs_ s;
     print_every_ := print_every_ s; handler_ := h;
     store_sym_emds_flattened_ := store_sym_emds_flattened_ s;
     throw_on_error_ := throw_on_error_ s; request_mode_ := request_mode_ s;
     events_ := events_ s; emds_ := emds_ s; full_emds_ := full_emds_ s;
     error_messages_ := error_messages_ s; nevA_ := nevA_ s;
     nevB_ := nevB_ s; num_emds_ := num_emds_ s;
     emd_counter_ := emd_counter_ s; emd_storage_ := emd_storage_ s;
     two_event_sets_ := two_event_sets_ s |}.

Definition set_request_mode (s : PairwiseEMD) (mode : bool) : PairwiseEMD :=
  {| num_threads_ := num_threads_ s; emd_objs_ := emd_objs_ s;
     print_every_ := print_every_ s; handler_ := handler_ s;
     store_sym_emds_flattened_ := store_sym_emds_flattened_ s;
     throw_on_error_ := throw_on_error_ s; request_mode_ := mode;
     events_ := events_ s; emds_ := emds_ s; full_emds_ := full_emds_ s;
     error_messages_ := error_messages_ s; nevA_ := nevA_ s;
     nevB_ := nevB_ s; num_emds_ := num_emds_ s;
     emd_counter_ := emd_counter_ s; emd_storage_ := emd_storage_ s;
     two_event_sets_ := two_event_sets_ s |}.

Definition set_events (s : PairwiseEMD) (evs : list Event) : PairwiseEMD :=
  {| num_threads_ := num_threads_ s; emd_objs_ := emd_objs_ s;
     print_every_ := print_every_ s; handler_ := handler_ s;
     store_sym_emds_flattened_ := store_sym_emds_flattened_ s;
     throw_on_error_ := throw_on_error_ s; request_mode_ := request_mode_ s;
     events_ := evs; emds_ := emds_ s; full_emds_ := full_emds_ s;
     error_messages_ := error_messages_ s; nevA_ := nevA_ s;
     nevB_ := nevB_ s; num_emds_ := num_emds_ s;
     emd_counter_ := emd_counter_ s; emd_storage_ := emd_storage_ s;
     two_event_sets_ := two_event_sets_ s |}.

Definition set_emds (s : PairwiseEMD) (v : list V) : PairwiseEMD :=
  {| num_threads_ := num_threads_ s; emd_objs_ := emd_objs_ s;
     print_every_ := print_every_ s; handler_ := handler_ s;
     store_sym_emds_flattened_ := store_sym_emds_flattened_ s;
     throw_on_error_ := throw_on_error_ s; request_mode_ := request_mode_ s;
     events_ := events_ s; emds_ := v; full_emds_ := full_emds_ s;
     error_messages_ := error_messages_ s; nevA_ := nevA_ s;
     nevB_ := nevB_ s; num_emds_ := num_emds_ s;
     emd_counter_ := emd_counter_ s; emd_storage_ := emd_storage_ s;
     two_event_sets_ := two_event_sets_ s |}.

Definition set_full_emds (s : PairwiseEMD) (v : list V) : PairwiseEMD :=
  {| num_threads_ := num_threads_ s; emd_objs_ := emd_objs_ s;
     print_every_ := print_every_ s; handler_ := handler_ s;
     store_sym_emds_flattened_ := store_sym_emds_flattened_ s;
     throw_on_error_ := throw_on_error_ s; request_mode_ := request_mode_ s;
     events_ := events_ s; emds_ := emds_ s; full_emds_ := v;
     error_messages_ := error_messages_ s; nevA_ := nevA_ s;
     nevB_ := nevB_ s; num_emds_ := num_emds_ s;
     emd_counter_ := emd_counter_ s; emd_storage_ := emd_storage_ s;
     two_event_sets_ := two_event_sets_ s |}.

Definition set_error_messages (s : PairwiseEMD) (msgs : list string) : PairwiseEMD :=
  {| num_threads_ := num_threads_ s; emd_objs_ := emd_objs_ s;
     print_every_ := print_every_ s; handler_ := handler_ s;
     store_sym_emds_flattened_ := store_sym_emds_flattened_ s;
     throw_on_error_ := throw_on_error_ s; request_mode_ := request_mode_ s;
     events_ := events_ s; emds_ := emds_ s; full_emds_ := full_emds_ s;
     error_messages_ := msgs; nevA_ := nevA_ s; nevB_ := nevB_ s;
     num_emds_ := num_emds_ s; emd_counter_ := emd_counter_ s;
     emd_storage_ := emd_storage_ s; two_event_sets_ := two_event_sets_ s |}.

Definition set_emd_counter (s : PairwiseEMD) (c : Z) : PairwiseEMD :=
  {| num_threads_ := num_threads_ s; emd_objs_ := emd_objs_ s;
     print_every_ := print_every_ s; handler_ := handler_ s;
     store_sym_emds_flattened_ := store_sym_emds_flattened_ s;
     throw_on_error_ := throw_on_error_ s; request_mode_ := request_mode_ s;
     events_ := events_ s; emds_ := emds_ s; full_emds_ := full_emds_ s;
     error_messages_ := error_messages_ s; nevA_ := nevA_ s;
     nevB_ := nevB_ s; num_emds_ := num_emds_ s; emd_counter_ := c;
     emd_storage_ := emd_storage_ s; two_event_sets_ := two_event_sets_ s |}.

Global Instance Event_inhabited : Inhabited Event :=
  populate {| weights := []; particles := []; total_weight := vzero;
              event_weight := vzero |}.

Global Instance EMD_inhabited : Inhabited EMD :=
  populate (EMDBase_ctor false false false (vone, vone)
    {| ns_weights := []; ns_dists := []; ns_flows := [];
       ns_total_cost := vzero; ns_n_iter_max := 0;
       ns_epsilon_large_factor := vzero; ns_epsilon_small_factor := vzero |}).

Definition have_external_emd_handler (s : PairwiseEMD) : bool :=
  match handler_ s with Some _ => true | None => false end.

Definition errored (s : PairwiseEMD) : bool :=
  match error_messages_ s with [] => false | _ => true end.

(** Modelled from the spec: [network_simplex_.free()] is declared in
    [internal/NetworkSimplex.hh]; section 6 has it release the solver's
    internal buffers. This is [_EMD::clear] (the preprocessor list is not
    modelled). *)
Definition EMD_clear (e : EMD) : EMD :=
  set_network_simplex e
    {| ns_weights := []; ns_dists := []; ns_flows := [];
       ns_total_cost := ns_total_cost (network_simplex_ e);
       ns_n_iter_max := ns_n_iter_max (network_simplex_ e);
       ns_epsilon_large_factor := ns_epsilon_large_factor (network_simplex_ e);
       ns_epsilon_small_factor := ns_epsilon_small_factor (network_simplex_ e) |}.

(** Modelled from the spec: [check_emd_status] is declared outside this
    file; it raises for every status other than [Success] (section 4.1). *)
Definition check_emd_status (st : EMDStatus) : option exn :=
  if is_success st then None else Some (StatusError st).

(** [clear(free_memory)]. *)
Definition clear (s : PairwiseEMD) (free_memory : bool) : PairwiseEMD :=
  {| num_threads_ := num_threads_ s;
     emd_objs_ := if free_memory then EMD_clear <$> emd_objs_ s else emd_objs_ s;
     print_every_ := print_every_ s;
     handler_ := if free_memory then None else handler_ s;
     store_sym_emds_flattened_ := store_sym_emds_flattened_ s;
     throw_on_error_ := throw_on_error_ s;
     request_mode_ := request_mode_ s;
     events_ := []; emds_ := []; full_emds_ := []; error_messages_ := [];
     nevA_ := 0; nevB_ := 0; num_emds_ := 0; emd_counter_ := 0;
     emd_storage_ := External;
     two_event_sets_ := two_event_sets_ s |}.

(** [init(index_type nev)]: init self pairs. *)
Definition init (s : PairwiseEMD) (nev : Z) : PairwiseEMD :=
  let s := if request_mode_ s then s else clear s false in
  let num := (nev * (nev - 1)) ÷ 2 in
  let resized := negb (have_external_emd_handler s) && negb (request_mode_ s) in
  let storage :=
    if resized
    then (if store_sym_emds_flattened_ s then FlattenedSymmetric else FullSymmetric)
    else emd_storage_ s in
  {| num_threads_ := num_threads_ s; emd_objs_ := emd_objs_ s;
     print_every_ := print_every_ s; handler_ := handler_ s;
     store_sym_emds_flattened_ := store_sym_emds_flattened_ s;
     throw_on_error_ := throw_on_error_ s; request_mode_ := request_mode_ s;
     events_ := events_ s;
     emds_ := if resized
              then resize (Z.to_nat (if decide (storage = FullSymmetric)
                                     then nev * nev else num)) vzero (emds_ s)
              else emds_ s;
     full_emds_ := full_emds_ s; error_messages_ := error_messages_ s;
     nevA_ := nev; nevB_ := nev; num_emds_ := num;
     emd_counter_ := emd_counter_ s; emd_storage_ := storage;
     two_event_sets_ := false |}.

(** [init(index_type nevA, index_type nevB)]: init pairs. *)
Definition init_two (s : PairwiseEMD) (nevA nevB : Z) : PairwiseEMD :=
  let s := if request_mode_ s then s else clear s false in
  let num := nevA * nevB in
  let resized := negb (have_external_emd_handler s) && negb (request_mode_ s) in
  {| num_threads_ := num_threads_ s; emd_objs_ := emd_objs_ s;
     print_every_ := print_every_ s; handler_ := handler_ s;
     store_sym_emds_flattened_ := store_sym_emds_flattened_ s;
     throw_on_error_ := throw_on_error_ s; request_mode_ := request_mode_ s;
     events_ := events_ s;
     emds_ := if resized then resize (Z.to_nat num) vzero (emds_ s) else emds_ s;
     full_emds_ := full_emds_ s; error_messages_ := error_messages_ s;
     nevA_ := nevA; nevB_ := nevB; num_emds_ := num;
     emd_counter_ := emd_counter_ s;
     emd_storage_ := if resized then Full else emd_storage_ s;
     two_event_sets_ := true |}.

(** [index_symmetric(i, j)]: the offset of the unordered pair in the
    flattened upper triangle. *)
Definition index_symmetric (s : PairwiseEMD) (i j : Z) : Z :=
  (* treat i as the row and j as the column *)
  if decide (j > i) then
    num_emds_ s - ((nevA_ s - i) * (nevA_ s - i - 1)) ÷ 2 + j - i - 1
  (* treat i as the column and j as the row *)
  else if decide (i > j) then
    num_emds_ s - ((nevA_ s - j) * (nevA_ s - j - 1)) ÷ 2 + i - j - 1
  else -1.

(** The message [record_failure] formats. *)
Definition failure_message (status : EMDStatus) (i j : Z) : string :=
  "PairwiseEMD::compute - Issue with EMD between events ("
  +:+ pretty i +:+ ", " +:+ pretty j +:+ "), error code "
  +:+ pretty (status_code status).

Definition record_failure (s : PairwiseEMD) (status : EMDStatus) (i j : Z)
    : PairwiseEMD :=
  set_error_messages s (error_messages_ s ++ [failure_message status i j]).

(** [handler_->operator()(emd, weight)]. With no handler the call dereferences a
    null pointer; the model leaves the state as it is. *)
Definition call_handler (s : PairwiseEMD) (emd weight : V) : PairwiseEMD :=
  match handler_ s with
  | Some h => set_handler s (Some (h ++ [(emd, weight)]))
  | None => s
  end.

(** Lines 803 and 821-824: the pair [(i, j)] of the flat index [k]. *)
Definition pair_indices (s : PairwiseEMD) (k : Z) : Z * Z :=
  let i := k ÷ nevB_ s in
  let j := Z.rem k (nevB_ s) in
  if two_event_sets_ s then (i, j)
  else
    (* this properly sets indexing for symmetric case *)
    let i := i + 1 in
    if decide (j >= i) then (nevA_ s - i, nevA_ s - j - 1) else (i, j).

(** [set_external_emd_handler(handler)]. *)
Definition set_external_emd_handler (s : PairwiseEMD) (h : Handler)
    : PairwiseEMD :=
  set_handler s (Some h).

(** The two events of the flat index [k], as the loop body binds them. *)
Definition pair_events (s : PairwiseEMD) (k : Z) : Event * Event :=
  let '(i, j) := pair_indices s k in
  (vec_get (events_ s) i,
   vec_get (events_ s) (if two_event_sets_ s then nevA_ s + j else j)).

(** What [emd_obj.compute(eventA, eventB)] gives for the flat index [k]:
    the solver object after the call, and the status. *)
Definition pair_result (s : PairwiseEMD) (k : Z) : EMD * EMDStatus :=
  compute (vec_get (emd_objs_ s) 0) (pair_events s k).1 (pair_events s k).2.

(** Lines 803-845: the body of the loop over [k], for [thread = 0]. *)
Definition dispatch (s : PairwiseEMD) (k : Z) : PairwiseEMD :=
  let '(i, j) := pair_indices s k in
  let '(eventA, eventB) := pair_events s k in
  (* run and check for failure *)
  let '(emd_obj, status) := pair_result s k in
  let s := set_emd_objs s (vec_set (emd_objs_ s) 0 emd_obj) in
  let s := if is_success status then s else record_failure s status i j in
  let weight := vmul (event_weight eventA) (event_weight eventB) in
  if two_event_sets_ s then
    if have_external_emd_handler s
    then call_handler s (emd_ emd_obj) weight
    else set_emds s (vec_set (emds_ s) k (emd_ emd_obj))
  else
    (* store emd value *)
    match emd_storage_ s with
    | FlattenedSymmetric =>
        set_emds s (vec_set (emds_ s) (index_symmetric s i j) (emd_ emd_obj))
    | External => call_handler s (emd_ emd_obj) weight
    | FullSymmetric =>
        set_emds s
          (vec_set (vec_set (emds_ s) (j * nevB_ s + i) (emd_ emd_obj))
             (i * nevB_ s + j) (emd_ emd_obj))
    | Full => s                      (* "Should never get here" *)
    end.

(** Lines 767-772: the chunk size. *)
Definition chunk_size (s : PairwiseEMD) : Z :=
  if decide (print_every_ s < 0) then
    let q := num_emds_ s ÷ Z.abs (print_every_ s) in
    if decide (q = 0 ∨ Z.rem (num_emds_ s) (Z.abs (print_every_ s)) ≠ 0)
    then q + 1 else q
  else print_every_ s.

(** The guard of the [while] loop. *)
Definition keep_dispatching (s : PairwiseEMD) : bool :=
  bool_decide (emd_counter_ s < num_emds_ s)
  && negb (throw_on_error_ s && errored s).

(** One chunk: the body of the [while] loop, from [begin]. *)
Definition run_chunk (print_every begin : Z) (s : PairwiseEMD) : PairwiseEMD :=
  let c := emd_counter_ s + print_every in
  let c := if decide (c > num_emds_ s) then num_emds_ s else c in
  let s := set_emd_counter s c in
  foldl dispatch s (seqZ begin (c - begin)).

(** Lines 783-852: the [while] loop; [fuel] bounds the number of chunks. *)
Fixpoint compute_loop (fuel : nat) (print_every begin : Z) (s : PairwiseEMD)
    : option PairwiseEMD :=
  if keep_dispatching s then
    match fuel with
    | O => None
    | S fuel =>
        let s := run_chunk print_every begin s in
        compute_loop fuel print_every (emd_counter_ s) s
    end
  else Some s.

(** [compute()]: the state it leaves and the exception it throws, if any;
    [None] only if [fuel] chunks did not finish the loop. *)
Definition PairwiseEMD_compute_fuel (fuel : nat) (s : PairwiseEMD)
    : option (PairwiseEMD * option exn) :=
  (* check that we're not in request mode *)
  if request_mode_ s then
    Some (s, Some (RuntimeError "cannot compute pairwise EMDs in request mode"))
  else
    match compute_loop fuel (chunk_size s) 0 s with
    | None => None
    | Some s =>
        Some (s, if throw_on_error_ s
                 then match error_messages_ s with
                      | m :: _ => Some (RuntimeError m)
                      | [] => None
                      end
                 else None)
    end.

(** Every chunk moves [emd_counter_] forward, so one unit of fuel for each
    pair still to do is enough. *)
Definition PairwiseEMD_compute (s : PairwiseEMD)
    : option (PairwiseEMD * option exn) :=
  PairwiseEMD_compute_fuel (Z.to_nat (num_emds_ s - emd_counter_ s)) s.

(** [compute(const EventVector & events)]. *)
Definition compute_self (s : PairwiseEMD) (events : list Event)
    : option (PairwiseEMD * option exn) :=
  let s := init s (Z.of_nat (length events)) in
  let s := set_events s events in
  PairwiseEMD_compute s.

(** [compute(const EventVector & eventsA, const EventVector & eventsB)]. *)
Definition compute_cross (s : PairwiseEMD) (eventsA eventsB : list Event)
    : option (PairwiseEMD * option exn) :=
  let s := init_two s (Z.of_nat (length eventsA)) (Z.of_nat (length eventsB)) in
  let s := set_events s (events_ s ++ eventsA ++ eventsB) in
  PairwiseEMD_compute s.

(** [emds(flattened)], lines 648-650: zeros on the diagonal. *)
Definition zero_diagonal (s : PairwiseEMD) (full : list V) : list V :=
  foldl (λ f i, vec_set f (i * i) vzero) full (seqZ 0 (nevA_ s)).

(** [emds(flattened)], line 655: the two entries of the pair [(i, j)]. *)
Definition fill_entry (s : PairwiseEMD) (full : list V) (i j : Z) : list V :=
  let x := vec_get (emds_ s) (index_symmetric s i j) in
  vec_set (vec_set full (j * nevB_ s + i) x) (i * nevB_ s + j) x.

(** [emds(flattened)], lines 652-655: fill out the matrix. *)
Definition fill_matrix (s : PairwiseEMD) (full : list V) : list V :=
  foldl (λ f i,
    foldl (λ f j, fill_entry s f i j) f (seqZ (i + 1) (nevB_ s - (i + 1))))
    full (seqZ 0 (nevA_ s)).

(** [emds(flattened)]: the state it leaves, and the vector it returns or
    the exception it throws. *)
Definition emds (s : PairwiseEMD) (flattened : bool)
    : PairwiseEMD * (exn + list V) :=
  (* check for having no emds stored *)
  if decide (emd_storage_ s = External) then
    (s, inl (LogicError "No EMDs stored"))
  else if bool_decide (emd_storage_ s = FlattenedSymmetric) && negb flattened then
    let full := resize (Z.to_nat (nevA_ s * nevB_ s)) vzero (full_emds_ s) in
    let full := zero_diagonal s full in
    let full := fill_matrix s full in
    (set_full_emds s full, inr full)
  else (s, inr (emds_ s)).

(** [emd(i, j, thread)]: the state it leaves, and the value it returns or
    the exception it throws. *)
Definition emd (s : PairwiseEMD) (i j thread : Z) : PairwiseEMD * (exn + V) :=
  (* allow for negative indices *)
  let i := if decide (i < 0) then i + nevA_ s else i in
  let j := if decide (j < 0) then j + nevB_ s else j in
  (* check for improper indexing *)
  if decide (i >= nevA_ s ∨ j >= nevB_ s ∨ i < 0 ∨ j < 0) then
    (s, inl (OutOfRange ("PairwiseEMD::emd - Accessing emd value at ("
                         +:+ pretty i +:+ ", " +:+ pretty j
                         +:+ ") exceeds allowed range")))
  (* calculate EMD if in request mode *)
  else if request_mode_ s then
    if decide (thread >= num_threads_ s) then
      (s, inl (OutOfRange "invalid thread index"))
    else
      let eventA := vec_get (events_ s) i in
      let eventB :=
        vec_get (events_ s) (if two_event_sets_ s then nevA_ s + j else j) in
      let '(emd_obj, status) :=
        compute (vec_get (emd_objs_ s) thread) eventA eventB in
      let s := set_emd_objs s (vec_set (emd_objs_ s) thread emd_obj) in
      match check_emd_status status with
      | Some e => (s, inl e)
      | None =>
          let s :=
            if have_external_emd_handler s
            then call_handler s (emd_ emd_obj)
                   (vmul (event_weight eventA) (event_weight eventB))
            else s in
          (s, inr (emd_ emd_obj))
      end
  (* check for External handling, in which case we don't have any emds stored *)
  else if decide (emd_storage_ s = External) then
    (s, inl (LogicError
       "EMD requested but external handler provided, so no EMDs stored"))
  (* index into emd vector *)
  else if decide (emd_storage_ s = FlattenedSymmetric) then
    (s, inr (if decide (i = j) then vzero
             else vec_get (emds_ s) (index_symmetric s i j)))
  else (s, inr (vec_get (emds_ s) (i * nevB_ s + j))).

(** [setup], called by the constructors. *)
Definition setup (s : PairwiseEMD) (print_every : Z)
    (store_sym_emds_flattened throw_on_error : bool) : PairwiseEMD :=
  clear
    {| num_threads_ := num_threads_ s;
       (* turn off timing in EMD objects *)
       emd_objs_ :=
         (λ e, {| norm_ := norm_ e; do_timing_ := false;
                  external_dists_ := external_dists_ e;
                  n0_ := n0_ e; n1_ := n1_ e; extra_ := extra_ e;
                  weightdiff_ := weightdiff_ e; scale_ := scale_ e;
                  emd_ := emd_ e; status_ := status_ e;
                  pairwise_distance_ := pairwise_distance_ e;
                  network_simplex_ := network_simplex_ e |}) <$> emd_objs_ s;
       (* print_every of 0 is equivalent to -1 *)
       print_every_ := if decide (print_every = 0) then -1 else print_every;
       handler_ := None;
       store_sym_emds_flattened_ := store_sym_emds_flattened;
       throw_on_error_ := throw_on_error;
       (* turn off request mode by default *)
       request_mode_ := false;
       events_ := events_ s; emds_ := emds_ s; full_emds_ := full_emds_ s;
       error_messages_ := error_messages_ s;
       nevA_ := nevA_ s; nevB_ := nevB_ s; num_emds_ := num_emds_ s;
       emd_counter_ := emd_counter_ s; emd_storage_ := emd_storage_ s;
       two_event_sets_ := two_event_sets_ s |}
    false.

(** [determine_num_threads] without OpenMP. *)
Definition determine_num_threads (num_threads : Z) : Z := 1.

(** The members before [setup] runs: the [EMD] objects are in place, the
    vectors are empty, and the scalar members, which [setup] and [clear]
    assign, hold nothing yet; [two_event_sets_] is assigned by [init] only
    and starts as the caller's storage has it. *)
Definition PairwiseEMD_members (two_event_sets0 : bool) (emd0 : EMD) (n : Z)
    : PairwiseEMD :=
  {| num_threads_ := n; emd_objs_ := replicate (Z.to_nat n) emd0;
     print_every_ := 0; handler_ := None;
     store_sym_emds_flattened_ := false; throw_on_error_ := false;
     request_mode_ := false; events_ := []; emds_ := [];
     full_emds_ := []; error_messages_ := [];
     nevA_ := 0; nevB_ := 0; num_emds_ := 0; emd_counter_ := 0;
     emd_storage_ := External; two_event_sets_ := two_event_sets0 |}.

(** The constructor with the same arguments as [EMD]'s. *)
Definition PairwiseEMD_ctor (is_default_distance two_event_sets0 : bool)
    (R beta : V) (norm : bool) (num_threads print_every : Z)
    (store_sym_emds_flattened throw_on_error : bool)
    (n_iter_max : Z) (epsilon_large_factor epsilon_small_factor : V)
    : PairwiseEMD :=
  let n := determine_num_threads num_threads in
  setup
    (PairwiseEMD_members two_event_sets0
       (EMD_ctor is_default_distance R beta norm false false
          n_iter_max epsilon_large_factor epsilon_small_factor) n)
    print_every store_sym_emds_flattened throw_on_error.

(** The constructor from an existing [EMD] instance. *)
Definition PairwiseEMD_ctor_from (two_event_sets0 : bool) (emd0 : EMD)
    (num_threads print_every : Z)
    (store_sym_emds_flattened throw_on_error : bool) : exn + PairwiseEMD :=
  let n := determine_num_threads num_threads in
  if external_dists_ emd0 then
    inl (InvalidArgument "Cannot use PairwiseEMD with external distances")
  else
    inr (setup (PairwiseEMD_members two_event_sets0 emd0 n)
           print_every store_sym_emds_flattened throw_on_error).

(** [external_emd_handler()]. *)
Definition external_emd_handler (s : PairwiseEMD) : exn + Handler :=
  match handler_ s with
  | Some h => inr h
  | None => inl (LogicError "no external emd handler set")
  end.

(** *** Proto events and preprocessing

    What lies outside this file: the two [Event] constructors (from a proto
    event alone, and with an event weight), [Event::ensure_weights],
    [Event::normalize_weights], and the preprocessor objects, each seen as
    the function its call operator applies to an event.
    [PairwiseEMD::preprocess] registers a preprocessor on every solver
    object, so one list stands for the [preprocessors_] of them all. *)
Context {ProtoEvent : Type}.
Variable make_event : ProtoEvent → option V → Event.
Variable ensure_weights : Event → Event.
Variable normalize_weights : Event → Event.
Variable preprocessors : list (Event → Event).

(** [_EMD::preprocess(event)]: applies preprocessors to an event. *)
Definition EMD_preprocess (e : EMD) (event : Event) : Event :=
  (* run preprocessing *)
  let event := foldl (λ ev preproc, preproc ev) event preprocessors in
  (* ensure that we have weights *)
  let event := ensure_weights event in
  (* perform normalization *)
  if norm_ e then normalize_weights event else event.

(** [_EMD::operator()(pev0, pev1)]: the solver object it leaves, and the
    distance it returns or the exception [check_emd_status] throws. *)
Definition EMD_call (e : EMD) (pev0 pev1 : ProtoEvent) : EMD * (exn + V) :=
  let ev0 := make_event pev0 None in
  let ev1 := make_event pev1 None in
  let '(e, status) := compute e (EMD_preprocess e ev0) (EMD_preprocess e ev1) in
  match check_emd_status status with
  | Some err => (e, inl err)
  | None => (e, inr (emd_ e))
  end.

(** [preprocess_back_event()]: preprocesses the last event added, with the
    first solver object. On an empty event store [back()] is undefined; the
    model leaves the store as it is. *)
Definition preprocess_back_event (s : PairwiseEMD) : PairwiseEMD :=
  match reverse (events_ s) with
  | [] => s
  | ev :: front =>
      set_events s
        (reverse front ++ [EMD_preprocess (vec_get (emd_objs_ s) 0) ev])
  end.

(** [events_.emplace_back(...)] followed by [preprocess_back_event()]. *)
Definition store_event (s : PairwiseEMD) (pev : ProtoEvent)
    (weight : option V) : PairwiseEMD :=
  preprocess_back_event (set_events s (events_ s ++ [make_event pev weight])).

(** [store_proto_events(proto_events, event_weights)]. *)
Definition store_proto_events (s : PairwiseEMD)
    (proto_events : list ProtoEvent) (event_weights : list V)
    : exn + PairwiseEMD :=
  if decide (length proto_events ≠ length event_weights) then
    if decide (length event_weights = 0%nat) then
      inr (foldl (λ s pev, store_event s pev None) s proto_events)
    else
      inl (InvalidArgument
             "length of event_weights does not match proto_events")
  else
    inr (foldl (λ s pw, store_event s pw.1 (Some pw.2)) s
           (zip proto_events event_weights)).

(** [operator()(proto_events, event_weights)]: all pairs of one set of
    proto events, including preprocessing. *)
Definition call_self (s : PairwiseEMD) (proto_events : list ProtoEvent)
    (event_weights : list V) : option (PairwiseEMD * option exn) :=
  let s := init s (Z.of_nat (length proto_events)) in
  match store_proto_events s proto_events event_weights with
  | inl err => Some (s, Some err)
  | inr s => PairwiseEMD_compute s
  end.

(** [operator()(proto_eventsA, proto_eventsB, event_weightsA,
    event_weightsB)]: pairs between two sets of proto events. *)
Definition call_cross (s : PairwiseEMD)
    (proto_eventsA proto_eventsB : list ProtoEvent)
    (event_weightsA event_weightsB : list V)
    : option (PairwiseEMD * option exn) :=
  let s := init_two s (Z.of_nat (length proto_eventsA))
             (Z.of_nat (length proto_eventsB)) in
  match store_proto_events s proto_eventsA event_weightsA with
  | inl err => Some (s, Some err)
  | inr s =>
      match store_proto_events s proto_eventsB event_weightsB with
      | inl err => Some (s, Some err)
      | inr s => PairwiseEMD_compute s
      end
  end.

(** ** Notions used by the statements *)

(** The storage mode [init] selects. *)
Definition storage_selected (s : PairwiseEMD) : Prop :=
  emd_storage_ s
  = if have_external_emd_handler s then External
    else if two_event_sets_ s then Full
    else if store_sym_emds_flattened_ s then FlattenedSymmetric
    else FullSymmetric.

(** The state once the pairs [0 .. n-1] have been dispatched, in order,
    with [emd_counter_] at [n]. *)
Definition dispatched (s : PairwiseEMD) (n : Z) : PairwiseEMD :=
  set_emd_counter (foldl dispatch s (seqZ 0 n)) n.

(** In a batch that starts from [s]: the distance the solver object holds
    after the pair of flat index [k], the product of the two event weights,
    and the failure message the pair adds to the log, if any. *)
Definition pair_value (s : PairwiseEMD) (k : Z) : V :=
  emd_ (pair_result (dispatched s k) k).1.

Definition pair_weight (s : PairwiseEMD) (k : Z) : V :=
  vmul (event_weight (pair_events s k).1) (event_weight (pair_events s k).2).

Definition pair_failure (s : PairwiseEMD) (k : Z) : list string :=
  let status := (pair_result (dispatched s k) k).2 in
  if is_success status then []
  else [failure_message status (pair_indices s k).1 (pair_indices s k).2].

(** The events [store_proto_events] builds when it does not throw: one for
    each proto event, with its event weight when weights are given, each
    preprocessed with the solver object [e]. *)
Definition preprocessed_events (e : EMD) (proto_events : list ProtoEvent)
    (event_weights : list V) : list Event :=
  match event_weights with
  | [] => (λ pev, EMD_preprocess e (make_event pev None)) <$> proto_events
  | _ =>
      (λ pw, EMD_preprocess e (make_event pw.1 (Some pw.2)))
        <$> zip proto_events event_weights
  end.

End EMD.

(** ** A concrete instance: exact rationals and small collaborators

    [Qc] is an exact [Value]. The stand-in collaborators below make the
    model runnable on concrete events: points on a line with the distance
    [|x - y|], and a transport "solver" that follows the north-west corner
    rule (the only feasible plan, hence the optimum, when one side has a
    single point). *)

Global Instance Qc_ops : ValueOps Qc := {|
  vzero := 0%Qc; vone := 1%Qc;
  vadd := Qcplus; vsub := Qcminus; vopp := Qcopp;
  vmul := Qcmult; vdiv := Qcdiv;
  vltb := λ a b, bool_decide (a < b)%Qc;
  veqb := λ a b, bool_decide (a = b)
|}.

Definition line_distance (x y : Qc) : Qc :=
  if bool_decide (x < y)%Qc then (y - x)%Qc else (x - y)%Qc.

(** Row-major [n0 × n1] distances; the fictitious particle is at distance
    zero from every particle of the other event. *)
Definition line_fill_distances (Rbeta : Qc * Qc) (ps0 ps1 : list Qc)
    (dists : list Qc) (extra : ExtraParticle) : list Qc :=
  let row x :=
    (line_distance x <$> ps1)
    ++ (match extra with One => [0%Qc] | _ => [] end) in
  (ps0 ≫= row)
  ++ (match extra with Zero => replicate (length ps1) 0%Qc | _ => [] end).

Fixpoint nw_corner (fuel : nat) (sup dem : list Qc) (i j n1 : nat)
    (dists : list Qc) (cost : Qc) : Qc :=
  match fuel with
  | O => cost
  | S fuel =>
      match sup, dem with
      | a :: sup', b :: dem' =>
          let d := dists !!! (i * n1 + j)%nat in
          if bool_decide (a < b)%Qc then
            nw_corner fuel sup' ((b - a)%Qc :: dem') (S i) j n1 dists
              (cost + a * d)%Qc
          else if bool_decide (b < a)%Qc then
            nw_corner fuel ((a - b)%Qc :: sup') dem' i (S j) n1 dists
              (cost + b * d)%Qc
          else
            nw_corner fuel sup' dem' (S i) (S j) n1 dists (cost + a * d)%Qc
      | _, _ => cost
      end
  end.

Definition line_ns_compute (ns : @NetworkSimplex Qc) (n0 n1 : Z)
    : @NetworkSimplex Qc * EMDStatus :=
  let sup := take (Z.to_nat n0) (ns_weights ns) in
  let dem := take (Z.to_nat n1) (drop (Z.to_nat n0) (ns_weights ns)) in
  if decide (n0 <= 0 ∨ n1 <= 0) then (ns, Empty)
  else if decide (foldl Qcplus 0%Qc sup = foldl Qcplus 0%Qc dem) then
    ({| ns_weights := ns_weights ns; ns_dists := ns_dists ns;
        ns_flows := ns_flows ns;
        ns_total_cost :=
          nw_corner (Z.to_nat (n0 + n1)) sup dem 0 0 (Z.to_nat n1)
            (ns_dists ns) 0%Qc;
        ns_n_iter_max := ns_n_iter_max ns;
        ns_epsilon_large_factor := ns_epsilon_large_factor ns;
        ns_epsilon_small_factor := ns_epsilon_small_factor ns |}, Success)
  else (ns, SupplyMismatch).

Definition q (n : Z) : Qc := Q2Qc (inject_Z n).

(** An [_EMD<Qc, ...>] with a custom (non-default) distance. *)
Definition line_emd (norm : bool) : @EMD Qc :=
  EMD_ctor false 1%Qc 1%Qc norm false false 100000 (q 10000) 1%Qc.

Definition line_event (ws ps : list Qc) : @Event Qc Qc :=
  {| weights := ws; particles := ps; total_weight := foldl Qcplus 0%Qc ws;
     event_weight := 1%Qc |}.

(** A [PairwiseEMD] over these, with the constructor's other defaults. *)
Definition line_pairwise (norm : bool) (print_every : Z)
    (store_sym_emds_flattened throw_on_error : bool) : @PairwiseEMD Qc Qc :=
  PairwiseEMD_ctor false false 1%Qc 1%Qc norm (-1) print_every
    store_sym_emds_flattened throw_on_error 100000 (q 10000) 1%Qc.

(** The values of a vector of rationals, as fractions. *)
Definition fractions (v : list Qc) : list Q := Qcanon.this <$> v.

(** An event with one particle: its weight and its position. *)
Definition point_event (w p : Z) : @Event Qc Qc := line_event [q w] [q p].

(** A solver state with [n0 = 3], [n1 = 4] and twelve flows. *)
Definition flow_example : @EMD Qc :=
  {| norm_ := false; do_timing_ := false; external_dists_ := false;
     n0_ := 3; n1_ := 4; extra_ := Neither;
     weightdiff_ := 0%Qc; scale_ := q 2; emd_ := 0%Qc; status_ := Success;
     pairwise_distance_ := (1%Qc, 1%Qc);
     network_simplex_ :=
       {| ns_weights := []; ns_dists := [];
          ns_flows := q <$> seqZ 0 12;
          ns_total_cost := 0%Qc; ns_n_iter_max := 100000;
          ns_epsilon_large_factor := q 10000;
          ns_epsilon_small_factor := 1%Qc |} |}.

(** A batch of four events, then, in request mode, [compute(events)] with
    three events (which runs [init(3)] and throws), [emds()],
    [compute(events)] with four events again, and [emds()]: the first dense
    view, the state before the second [emds()], and the second dense
    view. *)
Definition stale_view_trace
    : option ((exn + list Qc) * @PairwiseEMD Qc Qc * (exn + list Qc)) :=
  let events4 := [point_event 1 0; point_event 1 1; point_event 1 3;
                  point_event 1 7] in
  let events3 := [point_event 1 0; point_event 1 1; point_event 1 3] in
  let run := compute_self line_ns_compute line_fill_distances in
  match run (line_pairwise false (-10) true false) events4 with
  | Some (s1, None) =>
      let s2 := set_request_mode s1 true in
      match run s2 events3 with
      | Some (s3, Some _) =>
          let '(s4, view3) := emds s3 false in
          match run s4 events4 with
          | Some (s5, Some _) => Some (view3, s5, (emds s5 false).2)
          | _ => None
          end
      | _ => None
      end
  | _ => None
  end.

(** Three events with unequal totals, in a batch with [norm] set: the
    pairs that do not balance fail with [SupplyMismatch]. *)
Definition unnormalised_batch (with_handler : bool) : @PairwiseEMD Qc Qc :=
  let s0 := line_pairwise true (-10) true false in
  let s0 := if with_handler then set_external_emd_handler s0 [] else s0 in
  set_events (init s0 3) [point_event 1 0; point_event 1 5; point_event 2 7].

(** The same kind of batch with raise-on-error and chunks of two pairs. *)
Definition raising_batch : @PairwiseEMD Qc Qc :=
  set_events (init (line_pairwise true 2 true true) 3)
    [point_event 2 0; point_event 1 5; point_event 1 7].

(** Proto events on the line: the list of the particles' weights and
    positions.  The event built from one has these weights and positions,
    their sum as total weight, and the given event weight or 1;
    normalising divides the weights by the total. *)
Definition line_make_event (pev : list (Qc * Qc)) (w : option Qc)
    : @Event Qc Qc :=
  {| weights := fst <$> pev; particles := snd <$> pev;
     total_weight := foldl Qcplus 0%Qc (fst <$> pev);
     event_weight := default 1%Qc w |}.

Definition line_normalize_weights (ev : @Event Qc Qc) : @Event Qc Qc :=
  {| weights := (λ w, (w / total_weight ev)%Qc) <$> weights ev;
     particles := particles ev; total_weight := 1%Qc;
     event_weight := event_weight ev |}.

(** Three events of one particle each, and the state [init] and the storing
    of these events leave for a batch that stores its results. *)
Definition three_points : list (@Event Qc Qc) :=
  [point_event 1 0; point_event 1 1; point_event 1 3].

Definition stored_batch (flattened : bool) : @PairwiseEMD Qc Qc :=
  set_events (init (line_pairwise false (-10) flattened false) 3) three_points.

(** Two sets of two events each, for a batch between sets. *)
Definition cross_batch : @PairwiseEMD Qc Qc :=
  set_events (init_two (line_pairwise false (-10) true false) 2 2)
    ([point_event 1 0; point_event 1 1] ++ [point_event 1 3; point_event 1 7]).

(** ** [double] as a [Value]

    [EMD] is [_EMD<double, ...>] (line 374); [double] is IEEE binary64, the
    kernel's [float], with its own operators. *)
Global Instance binary64_ops : ValueOps float := {|
  vzero := 0%float; vone := 1%float;
  vadd := PrimFloat.add; vsub := PrimFloat.sub; vopp := PrimFloat.opp;
  vmul := PrimFloat.mul; vdiv := PrimFloat.div;
  vltb := PrimFloat.ltb; veqb := PrimFloat.eqb
|}.

(** An [_EMD<double, ...>] with a custom distance, and an event of [double]
    weights whose total is their sum; its particles play no part. *)
Definition binary64_emd : @EMD float :=
  EMD_ctor false 1%float 1%float false false false 100000
    10000%float 1%float.

Definition binary64_event (ws : list float) : @Event float unit :=
  {| weights := ws; particles := (λ _, ()) <$> ws;
     total_weight := foldl PrimFloat.add 0%float ws;
     event_weight := 1%float |}.

(** The events [A = [0.2]] and [B = [0.9]]: the doubles nearest to 0.2 and
    0.9, as a C++ literal gives them. *)
Definition event_02 : @Event float unit :=
  binary64_event [0x1.999999999999ap-3%float].
Definition event_09 : @Event float unit :=
  binary64_event [0x1.ccccccccccccdp-1%float].

(** * Theorems *)

(** ** Exact rationals are an exact [Value] *)

Global Instance Qc_exact : ExactValue Qc.
Proof.
  split; simpl.
  - intros a b Hab. apply bool_decide_eq_false. intros Hz.
    apply Hab. rewrite <- (Qcplus_0_r a), <- Hz. ring.
  - intros a b. apply bool_decide_ext. by rewrite (Qclt_minus_iff a b).
  - intros a b. apply bool_decide_ext. rewrite (Qclt_minus_iff b a).
    rewrite (Qcplus_lt_mono_r (b - a) 0 (a - b)).
    replace (b - a + (a - b))%Qc with 0%Qc by ring.
    by replace (0 + (a - b))%Qc with (a + - b)%Qc by ring.
  - intros a b Hab Hlt. apply bool_decide_eq_false in Hlt.
    apply bool_decide_eq_true. apply Qcnot_lt_le in Hlt.
    destruct (Qcle_lt_or_eq _ _ Hlt); congruence.
  - intros a b Hlt. apply bool_decide_eq_true in Hlt.
    apply bool_decide_eq_false. by apply Qcle_not_lt, Qclt_le_weak.
  - intros a b. ring.
  - intros a b. ring.
  - intros s. unfold Qcdiv. ring.
  - intros a b s. unfold Qcdiv. ring.
Qed.

Section EMD_facts.

Context {V : Type} `{VO : ValueOps V} {Particle : Type}.
Variable ns_compute : @NetworkSimplex V → Z → Z → @NetworkSimplex V * EMDStatus.
Variable fill_distances :
  V * V → list Particle → list Particle → list V → ExtraParticle → list V.

Implicit Types (e : @EMD V) (ev : @Event V Particle).

Lemma drop_all_but_one {A} (l : list A) (n : nat) :
  length l = S n → ∃ x, drop n l = [x].
Proof.
  intros Hl. destruct (drop n l) as [|x [|y t]] eqn:E.
  - apply (f_equal length) in E. rewrite length_drop in E. simpl in E. lia.
  - by exists x.
  - apply (f_equal length) in E. rewrite length_drop in E. simpl in E. lia.
Qed.

Lemma std_copy_front {A} (src dst : list A) :
  std_copy src dst 0 = (src ++ drop (length src) dst, length src).
Proof. reflexivity. Qed.

Lemma std_copy_after {A} (pre src rest : list A) (pos : nat) :
  pos = length pre →
  std_copy src (pre ++ rest) pos
  = (pre ++ src ++ drop (length src) rest, (length pre + length src)%nat).
Proof.
  intros ->. unfold std_copy. rewrite take_app_length. f_equal.
  by rewrite drop_app_add.
Qed.

Lemma insert_after {A} (pre rest : list A) (x : A) (pos : nat) :
  pos = length pre →
  <[pos := x]> (pre ++ rest) = pre ++ <[0%nat := x]> rest.
Proof. intros ->. rewrite insert_app_r_alt by lia. by rewrite Nat.sub_diag. Qed.

(** The combined buffer when no particle is added. *)
Lemma add_fictitious_neither e ev0 ev1 :
  norm_ e || external_dists_ e
    || veqb (vsub (total_weight ev1) (total_weight ev0)) vzero = true →
  let p := add_fictitious e ev0 ev1 in
  extra_ p = Neither
  ∧ n0_ p = Z.of_nat (length (weights ev0))
  ∧ n1_ p = Z.of_nat (length (weights ev1))
  ∧ ∃ slot, ns_weights (network_simplex_ p)
            = weights ev0 ++ weights ev1 ++ [slot].
Proof.
  intros Hc. unfold add_fictitious. rewrite Hc.
  set (w := resize _ _ _).
  assert (Hw : length w = S (length (weights ev0) + length (weights ev1))).
  { unfold w. rewrite length_resize. lia. }
  rewrite std_copy_front.
  rewrite (std_copy_after (weights ev0) (weights ev1)) by done.
  cbn. repeat split; try done.
  rewrite drop_drop.
  destruct (drop_all_but_one w _ Hw) as [x ->]. by exists x.
Qed.

(** The combined buffer when the particle goes to the first event. *)
Lemma add_fictitious_zero e ev0 ev1 :
  norm_ e || external_dists_ e
    || veqb (vsub (total_weight ev1) (total_weight ev0)) vzero = false →
  vltb vzero (vsub (total_weight ev1) (total_weight ev0)) = true →
  let p := add_fictitious e ev0 ev1 in
  extra_ p = Zero
  ∧ n0_ p = Z.of_nat (length (weights ev0)) + 1
  ∧ n1_ p = Z.of_nat (length (weights ev1))
  ∧ ∃ slot, ns_weights (network_simplex_ p)
            = weights ev0 ++ [vsub (total_weight ev1) (total_weight ev0)]
              ++ weights ev1 ++ [slot].
Proof.
  intros Hc Hlt. unfold add_fictitious. rewrite Hc, Hlt.
  set (w := resize _ _ _).
  assert (Hw : length w = S (S (length (weights ev0) + length (weights ev1)))).
  { unfold w. rewrite length_resize. lia. }
  rewrite std_copy_front.
  rewrite (insert_after (weights ev0)) by done.
  destruct (drop (length (weights ev0)) w) as [|y rest] eqn:Hd.
  { apply (f_equal length) in Hd. rewrite length_drop in Hd. simpl in Hd. lia. }
  cbn [list_insert insert].
  replace (weights ev0 ++ vsub (total_weight ev1) (total_weight ev0) :: rest)
    with ((weights ev0 ++ [vsub (total_weight ev1) (total_weight ev0)]) ++ rest)
    by (by rewrite <- app_assoc).
  rewrite (std_copy_after _ (weights ev1)) by (rewrite length_app; simpl; lia).
  cbn. repeat split; try done.
  assert (Hr : length rest = S (length (weights ev1))).
  { apply (f_equal length) in Hd. rewrite length_drop in Hd. simpl in Hd. lia. }
  destruct (drop_all_but_one rest _ Hr) as [x ->]. exists x.
  by rewrite <- app_assoc.
Qed.

(** The combined buffer when the particle goes to the second event. *)
Lemma add_fictitious_one e ev0 ev1 :
  norm_ e || external_dists_ e
    || veqb (vsub (total_weight ev1) (total_weight ev0)) vzero = false →
  vltb vzero (vsub (total_weight ev1) (total_weight ev0)) = false →
  let p := add_fictitious e ev0 ev1 in
  extra_ p = One
  ∧ n0_ p = Z.of_nat (length (weights ev0))
  ∧ n1_ p = Z.of_nat (length (weights ev1)) + 1
  ∧ ∃ slot, ns_weights (network_simplex_ p)
            = weights ev0 ++ weights ev1
              ++ [vopp (vsub (total_weight ev1) (total_weight ev0))] ++ [slot].
Proof.
  intros Hc Hlt. unfold add_fictitious. rewrite Hc, Hlt.
  set (w := resize _ _ _).
  assert (Hw : length w = S (S (length (weights ev0) + length (weights ev1)))).
  { unfold w. rewrite length_resize. lia. }
  rewrite std_copy_front.
  rewrite (std_copy_after (weights ev0) (weights ev1)) by done.
  cbn. repeat split; try done.
  rewrite drop_drop.
  destruct (drop (length (weights ev0) + length (weights ev1)) w)
    as [|y [|x [|z t]]] eqn:Hd;
    try (apply (f_equal length) in Hd; rewrite length_drop in Hd; simpl in Hd; lia).
  exists x. rewrite app_assoc.
  rewrite insert_after by (by rewrite length_app).
  by rewrite <- app_assoc.
Qed.

Lemma foldl_vadd_snoc (l : list V) (x : V) :
  foldl vadd vzero (l ++ [x]) = vadd (foldl vadd vzero l) x.
Proof. by rewrite foldl_app. Qed.

Lemma foldl_vadd_scaled `{!ExactValue V} (s : V) (l : list V) :
  foldl vadd vzero ((λ w, vdiv w s) <$> l) = vdiv (foldl vadd vzero l) s.
Proof.
  induction l as [|x l IH] using rev_ind.
  - simpl. by rewrite vdiv_zero.
  - rewrite fmap_app. change ((λ w, vdiv w s) <$> [x]) with [vdiv x s].
    by rewrite !foldl_vadd_snoc, IH, vdiv_vadd.
Qed.

(** What [add_fictitious] leaves untouched. *)
Lemma add_fictitious_keeps e ev0 ev1 :
  let p := add_fictitious e ev0 ev1 in
  norm_ p = norm_ e ∧ external_dists_ p = external_dists_ e
  ∧ scale_ p = scale_ e ∧ pairwise_distance_ p = pairwise_distance_ e
  ∧ ns_dists (network_simplex_ p) = ns_dists (network_simplex_ e).
Proof.
  unfold add_fictitious.
  destruct (_ || _); [|destruct (vltb _ _)]; done.
Qed.

(** What the later blocks of [compute] leave untouched. *)
Lemma compute_keeps_counts e ev0 ev1 :
  let p := add_fictitious e ev0 ev1 in
  let r := (compute ns_compute fill_distances e ev0 ev1).1 in
  n0_ r = n0_ p ∧ n1_ r = n1_ p ∧ extra_ r = extra_ p
  ∧ weightdiff_ r = weightdiff_ p ∧ norm_ r = norm_ e.
Proof.
  unfold compute, prepare, run_solver, store_dists, scale_weights.
  cbn -[add_fictitious].
  assert (Hn : norm_ (add_fictitious e ev0 ev1) = norm_ e)
    by apply add_fictitious_keeps.
  assert (Hx : external_dists_ (add_fictitious e ev0 ev1) = external_dists_ e)
    by apply add_fictitious_keeps.
  rewrite Hn. destruct (norm_ e) eqn:En; cbn -[add_fictitious];
    rewrite ?Hx; destruct (external_dists_ e); cbn -[add_fictitious];
    destruct (ns_compute _ _ _); cbn -[add_fictitious]; by rewrite ?En.
Qed.

Lemma prepare_weights e ev0 ev1 :
  ns_weights (network_simplex_ (prepare fill_distances e ev0 ev1))
  = ns_weights (network_simplex_
      (scale_weights (add_fictitious e ev0 ev1) ev0 ev1)).
Proof.
  unfold prepare, store_dists.
  by destruct (external_dists_ _).
Qed.

Lemma prepare_counts e ev0 ev1 :
  let p := add_fictitious e ev0 ev1 in
  let q := prepare fill_distances e ev0 ev1 in
  n0_ q = n0_ p ∧ n1_ q = n1_ p ∧ scale_ q = scale_ (scale_weights p ev0 ev1)
  ∧ norm_ q = norm_ e.
Proof.
  unfold prepare, store_dists, scale_weights. cbn -[add_fictitious].
  assert (Hn : norm_ (add_fictitious e ev0 ev1) = norm_ e)
    by apply add_fictitious_keeps.
  rewrite Hn.
  destruct (norm_ e) eqn:En; cbn -[add_fictitious];
    destruct (external_dists_ _); cbn -[add_fictitious]; by rewrite ?En.
Qed.

(** C1 (amended). With [norm] false and computed distances, whenever the
    difference [Δ = total(B) - total(A)], taken in the [Value] type, is not
    zero by the code's test, [compute] adds exactly one fictitious
    particle: when [Δ > 0], [Δ] is put after A's weights and [n0] grows by
    one; otherwise [-Δ], which is [|Δ|] when [Δ < 0], is put after B's
    weights and [n1] grows by one.  With the totals the sums of the
    weights, the padded supplies then sum to [total(A) + Δ] against
    [total(B)] in the first case, and to [total(A)] against
    [total(B) + (-Δ)] in the second, the sums taken in the [Value] type:
    the two sides balance exactly when that sum is exact.  Nothing is
    assumed of the arithmetic, so this holds of [double] and [float]. *)
Theorem compute_pads_lighter_side e ev0 ev1 :
  norm_ e = false → external_dists_ e = false →
  let Δ := vsub (total_weight ev1) (total_weight ev0) in
  veqb Δ vzero = false →
  let ws0 := weights ev0 in
  let ws1 := weights ev1 in
  let p := add_fictitious e ev0 ev1 in
  let w := ns_weights (network_simplex_ p) in
  let r := (compute ns_compute fill_distances e ev0 ev1).1 in
  let supply := foldl vadd vzero (take (Z.to_nat (n0_ p)) w) in
  let demand :=
    foldl vadd vzero (take (Z.to_nat (n1_ p)) (drop (Z.to_nat (n0_ p)) w)) in
  (n0_ r = n0_ p ∧ n1_ r = n1_ p ∧ extra_ r = extra_ p)
  ∧ n0_ p + n1_ p = Z.of_nat (length ws0) + Z.of_nat (length ws1) + 1
  ∧ (vltb vzero Δ = true →
       extra_ p = Zero
       ∧ n0_ p = Z.of_nat (length ws0) + 1 ∧ n1_ p = Z.of_nat (length ws1)
       ∧ (∃ slot, w = ws0 ++ [Δ] ++ ws1 ++ [slot])
       ∧ (total_weight ev0 = weights_sum ev0 →
          total_weight ev1 = weights_sum ev1 →
          supply = vadd (total_weight ev0) Δ ∧ demand = total_weight ev1))
  ∧ (vltb vzero Δ = false →
       extra_ p = One
       ∧ n0_ p = Z.of_nat (length ws0) ∧ n1_ p = Z.of_nat (length ws1) + 1
       ∧ (∃ slot, w = ws0 ++ ws1 ++ [vopp Δ] ++ [slot])
       ∧ (vltb Δ vzero = true → vopp Δ = vabs Δ)
       ∧ (total_weight ev0 = weights_sum ev0 →
          total_weight ev1 = weights_sum ev1 →
          supply = total_weight ev0
          ∧ demand = vadd (total_weight ev1) (vopp Δ))).
Proof.
  intros Hnorm Hext Δ Hne ws0 ws1 p w r supply demand.
  assert (Hc : norm_ e || external_dists_ e || veqb Δ vzero = false)
    by (by rewrite Hnorm, Hext, Hne).
  destruct (compute_keeps_counts e ev0 ev1)
    as (Hr0 & Hr1 & Hrx & _ & _).
  fold p r in Hr0, Hr1, Hrx.
  split; [done|].
  destruct (vltb vzero Δ) eqn:Hpos.
  - (* the particle goes to the first event *)
    destruct (add_fictitious_zero e ev0 ev1 Hc Hpos)
      as (Hx & H0 & H1 & slot & Hw).
    fold p Δ ws0 ws1 in Hx, H0, H1, Hw. fold w in Hw.
    split; [lia|]. split; [|done]. intros _.
    split; [done|]. split; [done|]. split; [done|].
    split; [by exists slot|]. intros Hsum0 Hsum1.
    unfold weights_sum in Hsum0, Hsum1. fold ws0 in Hsum0. fold ws1 in Hsum1.
    unfold supply, demand. rewrite H0, H1, Hw.
    replace (Z.to_nat (Z.of_nat (length ws0) + 1)) with (length (ws0 ++ [Δ]))
      by (rewrite length_app; simpl; lia).
    rewrite Nat2Z.id, !app_assoc, <- (app_assoc (ws0 ++ [Δ])).
    rewrite take_app_length, drop_app_length, take_app_length.
    by rewrite foldl_vadd_snoc, <- Hsum0, <- Hsum1.
  - (* the particle goes to the second event *)
    destruct (add_fictitious_one e ev0 ev1 Hc Hpos)
      as (Hx & H0 & H1 & slot & Hw).
    fold p Δ ws0 ws1 in Hx, H0, H1, Hw. fold w in Hw.
    split; [lia|]. split; [done|]. intros _.
    split; [done|]. split; [done|]. split; [done|].
    split; [by exists slot|].
    split; [intros Hneg; unfold vabs; by rewrite Hneg|].
    intros Hsum0 Hsum1.
    unfold weights_sum in Hsum0, Hsum1. fold ws0 in Hsum0. fold ws1 in Hsum1.
    unfold supply, demand. rewrite H0, H1, Hw.
    replace (Z.to_nat (Z.of_nat (length ws1) + 1))
      with (length (ws1 ++ [vopp Δ])) by (rewrite length_app; simpl; lia).
    rewrite Nat2Z.id, take_app_length, drop_app_length.
    rewrite (app_assoc ws1), take_app_length.
    by rewrite foldl_vadd_snoc, <- Hsum0, <- Hsum1.
Qed.


(** In exact arithmetic the padding balances the two sides.  With
    [norm] false and computed distances, two events of unequal total
    weight get their fictitious particle on the lighter side, and then
    supplies and demands have the same total, in the padded buffer and in
    the scaled buffer the solver receives.  The events are as section 3
    has them: their total weight is the sum of their weights. *)
Lemma padding_balances_in_exact_arithmetic `{!ExactValue V} e ev0 ev1 :
  norm_ e = false → external_dists_ e = false →
  total_weight ev0 = weights_sum ev0 → total_weight ev1 = weights_sum ev1 →
  total_weight ev0 ≠ total_weight ev1 →
  let Δ := vsub (total_weight ev1) (total_weight ev0) in
  let ws0 := weights ev0 in
  let ws1 := weights ev1 in
  let p := add_fictitious e ev0 ev1 in
  let w := ns_weights (network_simplex_ p) in
  let r := (compute ns_compute fill_distances e ev0 ev1).1 in
  let w' := ns_weights (network_simplex_ (prepare fill_distances e ev0 ev1)) in
  let supply (n0 n1 : Z) (buf : list V) :=
    foldl vadd vzero (take (Z.to_nat n0) buf) in
  let demand (n0 n1 : Z) (buf : list V) :=
    foldl vadd vzero (take (Z.to_nat n1) (drop (Z.to_nat n0) buf)) in
  (n0_ r = n0_ p ∧ n1_ r = n1_ p ∧ extra_ r = extra_ p)
  ∧ n0_ p + n1_ p = Z.of_nat (length ws0) + Z.of_nat (length ws1) + 1
  ∧ (vltb vzero Δ = true →
       vltb (total_weight ev0) (total_weight ev1) = true
       ∧ extra_ p = Zero
       ∧ n0_ p = Z.of_nat (length ws0) + 1 ∧ n1_ p = Z.of_nat (length ws1)
       ∧ ∃ slot, w = ws0 ++ [Δ] ++ ws1 ++ [slot])
  ∧ (vltb Δ vzero = true →
       vltb (total_weight ev1) (total_weight ev0) = true
       ∧ extra_ p = One
       ∧ n0_ p = Z.of_nat (length ws0) ∧ n1_ p = Z.of_nat (length ws1) + 1
       ∧ ∃ slot, w = ws0 ++ ws1 ++ [vabs Δ] ++ [slot])
  ∧ (vltb vzero Δ = true ∨ vltb Δ vzero = true)
  ∧ supply (n0_ p) (n1_ p) w = demand (n0_ p) (n1_ p) w
  ∧ supply (n0_ r) (n1_ r) w' = demand (n0_ r) (n1_ r) w'.
Proof.
  intros Hnorm Hext Hsum0 Hsum1 Hne Δ ws0 ws1 p w r w' supply demand.
  unfold weights_sum in Hsum0, Hsum1. fold ws0 in Hsum0. fold ws1 in Hsum1.
  assert (Hc : norm_ e || external_dists_ e || veqb Δ vzero = false).
  { rewrite Hnorm, Hext. simpl. by apply vsub_eq_zero. }
  destruct (compute_keeps_counts e ev0 ev1) as (Hr0 & Hr1 & Hrx & _ & _).
  fold p r in Hr0, Hr1, Hrx.
  assert (Hw' : w' = (λ x, vdiv x (vmax (total_weight ev0) (total_weight ev1)))
                       <$> w).
  { unfold w'. rewrite prepare_weights. unfold scale_weights.
    assert (Hn : norm_ (add_fictitious e ev0 ev1) = norm_ e)
    by apply add_fictitious_keeps.
    by rewrite Hn, Hnorm. }
  assert (Hscaled : supply (n0_ p) (n1_ p) w = demand (n0_ p) (n1_ p) w →
                    supply (n0_ r) (n1_ r) w' = demand (n0_ r) (n1_ r) w').
  { unfold supply, demand. rewrite Hr0, Hr1, Hw'. intros Heq.
    rewrite <- fmap_drop, <- !fmap_take, !foldl_vadd_scaled. by rewrite Heq. }
  destruct (vltb vzero Δ) eqn:Hpos.
  - (* the first event is lighter *)
    destruct (add_fictitious_zero e ev0 ev1 Hc Hpos) as (Hx & H0 & H1 & slot & Hw).
    fold p Δ ws0 ws1 in Hx, H0, H1, Hw. fold w in Hw.
    assert (Hlt : vltb (total_weight ev0) (total_weight ev1) = true).
    { by rewrite <- vsub_pos. }
    assert (Hneg : vltb Δ vzero = false).
    { unfold Δ. rewrite vsub_neg. by apply vltb_asym. }
    assert (Hsd : supply (n0_ p) (n1_ p) w = demand (n0_ p) (n1_ p) w).
    { unfold supply, demand. rewrite H0, H1, Hw.
      replace (Z.to_nat (Z.of_nat (length ws0) + 1)) with (length (ws0 ++ [Δ]))
        by (rewrite length_app; simpl; lia).
      rewrite Nat2Z.id, !app_assoc, <- (app_assoc (ws0 ++ [Δ])).
      rewrite take_app_length, drop_app_length, take_app_length.
      rewrite foldl_vadd_snoc, <- Hsum0, <- Hsum1. apply vadd_vsub. }
    split; [done|]. split; [lia|].
    split; [intros _; repeat split; try done; by exists slot|].
    split; [intros Hn; congruence|].
    split; [by left|]. split; [done|by apply Hscaled].
  - (* the second event is lighter *)
    destruct (add_fictitious_one e ev0 ev1 Hc Hpos) as (Hx & H0 & H1 & slot & Hw).
    fold p Δ ws0 ws1 in Hx, H0, H1, Hw. fold w in Hw.
    assert (Hlt : vltb (total_weight ev1) (total_weight ev0) = true).
    { apply vltb_total; [done|]. by rewrite <- vsub_pos. }
    assert (Hneg : vltb Δ vzero = true).
    { unfold Δ. by rewrite vsub_neg. }
    assert (Habs : vabs Δ = vopp Δ) by (unfold vabs; by rewrite Hneg).
    assert (Hsd : supply (n0_ p) (n1_ p) w = demand (n0_ p) (n1_ p) w).
    { unfold supply, demand. rewrite H0, H1, Hw.
      replace (Z.to_nat (Z.of_nat (length ws1) + 1))
        with (length (ws1 ++ [vopp Δ])) by (rewrite length_app; simpl; lia).
      rewrite Nat2Z.id, take_app_length, drop_app_length.
      rewrite (app_assoc ws1), take_app_length.
      rewrite foldl_vadd_snoc, <- Hsum0, <- Hsum1. symmetry.
      apply vadd_vopp_vsub. }
    split; [done|]. split; [lia|].
    split; [intros Hn; congruence|].
    split; [intros _; repeat split; try done; exists slot; by rewrite Habs|].
    split; [by right|]. split; [done|by apply Hscaled].
Qed.

(** C2. [compute] hands the solver the combined buffer with every weight
    divided by [scale = max(total(A), total(B))] when [norm] is false, and
    stores the solver's cost times that scale exactly when the status is
    [Success]; when [norm] is true the buffer, the scale and the cost are
    left as they are. *)
Theorem compute_scales_and_unscales e ev0 ev1 :
  let scale := vmax (total_weight ev0) (total_weight ev1) in
  let buf := ns_weights (network_simplex_ (add_fictitious e ev0 ev1)) in
  let p := prepare fill_distances e ev0 ev1 in
  let solved := ns_compute (network_simplex_ p) (n0_ p) (n1_ p) in
  let cost := ns_total_cost solved.1 in
  let r := compute ns_compute fill_distances e ev0 ev1 in
  r.2 = solved.2 ∧ status_ r.1 = solved.2
  ∧ if norm_ e then
      ns_weights (network_simplex_ p) = buf
      ∧ scale_ r.1 = scale_ e
      ∧ emd_ r.1 = cost
    else
      ns_weights (network_simplex_ p) = (λ w, vdiv w scale) <$> buf
      ∧ scale_ r.1 = scale
      ∧ emd_ r.1 = if is_success solved.2 then vmul cost scale else cost.
Proof.
  intros scale buf p solved cost r.
  destruct (prepare_counts e ev0 ev1) as (_ & _ & Hs & Hn).
  fold p in Hs, Hn.
  assert (Hw := prepare_weights e ev0 ev1). fold p in Hw.
  assert (Hna : norm_ (add_fictitious e ev0 ev1) = norm_ e)
    by apply add_fictitious_keeps.
  assert (Hsa : scale_ (add_fictitious e ev0 ev1) = scale_ e)
    by apply add_fictitious_keeps.
  unfold scale_weights in Hs, Hw. rewrite Hna in Hs, Hw.
  unfold r, compute, run_solver. fold p. fold solved.
  destruct solved as [ns st] eqn:Es. unfold cost. cbn.
  rewrite Hn. destruct (norm_ e); cbn in *.
  - rewrite Hs, Hsa, andb_false_r. by rewrite Hw.
  - rewrite Hs, andb_true_r. by rewrite Hw.
Qed.

(** C9. [flow(i, j)] adds the dimension to a negative index, once; it then
    throws [out_of_range] if an index is outside [[0, n0) × [0, n1)], and
    otherwise returns the raw flow at [i*n1 + j] times [scale].  With
    [n0 = 3] and [n1 = 4], [flow(-1, -1)] is [flow(2, 3)] and [flow(3, 0)]
    throws. *)
Theorem flow_wraps_and_checks e (i j : Z) :
  let i' := if decide (i < 0) then i + n0_ e else i in
  let j' := if decide (j < 0) then j + n1_ e else j in
  (0 <= i' < n0_ e ∧ 0 <= j' < n1_ e →
     flow e i j
     = inr (vmul (vec_get (ns_flows (network_simplex_ e)) (i' * n1_ e + j'))
              (scale_ e)))
  ∧ (¬ (0 <= i' < n0_ e ∧ 0 <= j' < n1_ e) →
     flow e i j = inl (OutOfRange "EMD::flow - Indices out of range"))
  ∧ (n0_ e = 3 → n1_ e = 4 →
     flow e (-1) (-1) = flow e 2 3
     ∧ flow e 2 3
       = inr (vmul (vec_get (ns_flows (network_simplex_ e)) 11) (scale_ e))
     ∧ flow e 3 0 = inl (OutOfRange "EMD::flow - Indices out of range")).
Proof.
  intros i' j'. split; [|split].
  - intros Hin. unfold flow. fold i' j'. by rewrite decide_False by lia.
  - intros Hout. unfold flow. fold i' j'. by rewrite decide_True by lia.
  - intros H0 H1. unfold flow. rewrite H0, H1. done.
Qed.

(** C10. Whatever [external_dists] the caller passes, the constructed
    object's flag is the type-level test "the distance is
    [DefaultPairwiseDistance]". *)
Theorem ctor_overwrites_external_dists (is_default_distance : bool)
    (R beta : V) (norm do_timing external_dists : bool)
    (n_iter_max : Z) (epsilon_large_factor epsilon_small_factor : V) :
  external_dists_
    (EMD_ctor is_default_distance R beta norm do_timing external_dists
       n_iter_max epsilon_large_factor epsilon_small_factor)
  = is_default_distance.
Proof. reflexivity. Qed.

End EMD_facts.

(** ** Index arithmetic *)

Lemma quot_rem_of_row (N q r : Z) :
  0 <= q → 0 <= r < N → (q * N + r) ÷ N = q ∧ Z.rem (q * N + r) N = r.
Proof.
  intros Hq Hr.
  rewrite Z.quot_div_nonneg, Z.rem_mod_nonneg by nia.
  split.
  - symmetry. apply (Z.div_unique _ _ q r); lia.
  - symmetry. apply (Z.mod_unique _ _ q r); lia.
Qed.

Lemma row_of_quot_rem (N k : Z) :
  0 < N → 0 <= k →
  k = (k ÷ N) * N + Z.rem k N ∧ 0 <= k ÷ N ∧ 0 <= Z.rem k N < N.
Proof.
  intros HN Hk.
  rewrite Z.quot_div_nonneg, Z.rem_mod_nonneg by lia.
  pose proof (Z.div_mod k N ltac:(lia)).
  pose proof (Z.mod_pos_bound k N HN).
  pose proof (Z.div_pos k N Hk HN). lia.
Qed.

(** [N(N-1)] is even, so halving it loses nothing. *)
Lemma twice_num_pairs (N : Z) : 0 <= N → 2 * ((N * (N - 1)) ÷ 2) = N * (N - 1).
Proof.
  intros HN.
  assert (0 <= N * (N - 1)) by nia.
  rewrite Z.quot_div_nonneg by lia.
  assert (Hev : (N * (N - 1)) mod 2 = 0).
  { rewrite Z.mul_mod by lia.
    destruct (Z.mod_pos_bound N 2 ltac:(lia)) as [? ?].
    assert (HN2 : N mod 2 = 0 ∨ N mod 2 = 1) by lia.
    replace (N - 1) with (N + (-1) * 1) by lia.
    destruct HN2 as [E|E].
    - rewrite E. by rewrite Z.mul_0_l.
    - replace ((N + -1 * 1) mod 2) with 0; [by rewrite Z.mul_0_r|].
      rewrite <- Zplus_mod_idemp_l, E. reflexivity. }
  pose proof (Z.div_mod (N * (N - 1)) 2 ltac:(lia)). lia.
Qed.

(** ** Vectors *)

Lemma vec_set_length {A} (v : list A) (i : Z) (x : A) :
  length (vec_set v i x) = length v.
Proof. unfold vec_set. case_decide; [apply length_insert|done]. Qed.

Lemma vec_get_set_eq {A} `{Inhabited A} (v : list A) (i : Z) (x : A) :
  0 <= i < Z.of_nat (length v) → vec_get (vec_set v i x) i = x.
Proof.
  intros Hi. unfold vec_get, vec_set. rewrite !decide_True by lia.
  apply list_lookup_total_insert_eq. lia.
Qed.

Lemma vec_get_set_ne {A} `{Inhabited A} (v : list A) (i j : Z) (x : A) :
  i ≠ j → 0 <= j → vec_get (vec_set v i x) j = vec_get v j.
Proof.
  intros Hne Hj. unfold vec_get, vec_set. rewrite !(decide_True _ _ Hj).
  case_decide; [|done]. apply list_lookup_total_insert_ne. lia.
Qed.

Lemma vec_get_replicate `{ValueOps V} (n : nat) (i : Z) :
  vec_get (replicate n (vzero : V)) i = vzero.
Proof.
  unfold vec_get. case_decide; [|reflexivity].
  destruct (decide (Z.to_nat i < n)%nat).
  - by apply lookup_total_replicate_2.
  - rewrite list_lookup_total_alt.
    by rewrite (proj1 (lookup_replicate_None n vzero (Z.to_nat i))) by lia.
Qed.

Lemma vec_get_set_same_value {A} `{Inhabited A} (v : list A) (i j : Z) (x : A) :
  vec_get v j = x → vec_get (vec_set v i x) j = x.
Proof.
  intros Hj. unfold vec_get, vec_set in *.
  case_decide; [|done]. case_decide; [|done].
  rewrite list_lookup_total_alt, list_lookup_insert.
  case_decide; [done|]. by rewrite <- list_lookup_total_alt.
Qed.

Lemma row_major_inj (N i j a b : Z) :
  0 <= j < N → 0 <= b < N → i * N + j = a * N + b → i = a ∧ j = b.
Proof. intros Hj Hb Heq. assert (i = a) by nia. subst. lia. Qed.

(** Folds: a property every step keeps, and a property one step
    establishes and every step keeps. *)
Lemma foldl_keeps {A B} (step : B → A → B) (inv : B → Prop) (l : list A) :
  Forall (λ x, ∀ f, inv f → inv (step f x)) l →
  ∀ f, inv f → inv (foldl step f l).
Proof.
  induction 1 as [|x l Hx _ IH]; intros f Hf; [done|].
  simpl. by apply IH, Hx.
Qed.

Lemma foldl_establishes {A B} (step : B → A → B) (pre good : B → Prop)
    (l : list A) (x0 : A) :
  Forall (λ x, ∀ f, pre f → pre (step f x) ∧ (good f → good (step f x))) l →
  (∀ f, pre f → good (step f x0)) →
  x0 ∈ l → ∀ f, pre f → good (foldl step f l).
Proof.
  intros Hall Hest. induction Hall as [|x l Hx Hall IH]; intros Hin f Hp.
  { by apply elem_of_nil in Hin. }
  simpl. apply elem_of_cons in Hin as [->|Hin].
  - apply (foldl_keeps step (λ f, pre f ∧ good f) l).
    + eapply Forall_impl; [exact Hall|]. intros y Hy g [Hg1 Hg2].
      destruct (Hy g Hg1) as [? Hk]. split; [done|by apply Hk].
    + split; [by apply Hx|by apply Hest].
  - apply IH; [done|]. by apply Hx.
Qed.

Section Pairwise_facts.

Context {V : Type} `{VO : ValueOps V} {Particle : Type}.
Variable ns_compute : @NetworkSimplex V → Z → Z → @NetworkSimplex V * EMDStatus.
Variable fill_distances :
  V * V → list Particle → list Particle → list V → ExtraParticle → list V.

Implicit Types (s : @PairwiseEMD V Particle) (k : Z).

Abbreviation dispatch := (dispatch ns_compute fill_distances).
Abbreviation pair_result := (pair_result ns_compute fill_distances).
Abbreviation compute_loop := (compute_loop ns_compute fill_distances).
Abbreviation run_chunk := (run_chunk ns_compute fill_distances).
Abbreviation PairwiseEMD_compute :=
  (PairwiseEMD_compute ns_compute fill_distances).
Abbreviation compute_self := (compute_self ns_compute fill_distances).
Abbreviation compute_cross := (compute_cross ns_compute fill_distances).
Abbreviation dispatched := (dispatched ns_compute fill_distances).

(** *** The symmetric enumeration *)

Lemma pair_indices_lower s k (N : Z) :
  two_event_sets_ s = false → nevA_ s = N → nevB_ s = N → 0 <= N →
  0 <= k < (N * (N - 1)) ÷ 2 →
  ∃ i j, pair_indices s k = (i, j) ∧ 0 <= j < i ∧ i < N.
Proof.
  intros Htwo HA HB HN Hk.
  pose proof (twice_num_pairs N HN) as HT.
  assert (0 < N) by nia.
  destruct (row_of_quot_rem N k) as (Hrow & Hq & Hr); [lia..|].
  unfold pair_indices. rewrite Htwo, HA, HB. case_decide.
  - eexists _, _. split; [done|]. lia.
  - eexists _, _. split; [done|]. nia.
Qed.

Lemma pair_indices_inj s (k1 k2 N : Z) :
  two_event_sets_ s = false → nevA_ s = N → nevB_ s = N → 0 <= N →
  0 <= k1 < (N * (N - 1)) ÷ 2 → 0 <= k2 < (N * (N - 1)) ÷ 2 →
  pair_indices s k1 = pair_indices s k2 → k1 = k2.
Proof.
  intros Htwo HA HB HN Hk1 Hk2. pose proof (twice_num_pairs N HN) as HT.
  assert (0 < N) by nia.
  destruct (row_of_quot_rem N k1) as (Hrow1 & Hq1 & Hr1); [lia..|].
  destruct (row_of_quot_rem N k2) as (Hrow2 & Hq2 & Hr2); [lia..|].
  unfold pair_indices. rewrite Htwo, HA, HB.
  repeat case_decide; intros [= Hi Hj]; nia.
Qed.

Lemma pair_indices_surj s (N a b : Z) :
  two_event_sets_ s = false → nevA_ s = N → nevB_ s = N →
  0 <= a < b → b < N →
  ∃ k, 0 <= k < (N * (N - 1)) ÷ 2 ∧ pair_indices s k = (b, a).
Proof.
  intros Htwo HA HB Hab HbN.
  pose proof (twice_num_pairs N ltac:(lia)) as HT.
  destruct (decide ((b - 1) * N + a < (N * (N - 1)) ÷ 2)) as [Hlow|Hhigh].
  - exists ((b - 1) * N + a). split; [nia|].
    destruct (quot_rem_of_row N (b - 1) a) as [Hq Hr]; [lia..|].
    unfold pair_indices. rewrite Htwo, HA, HB, Hq, Hr.
    case_decide; [lia|]. f_equal; lia.
  - exists ((N - b - 1) * N + (N - 1 - a)). split; [nia|].
    destruct (quot_rem_of_row N (N - b - 1) (N - 1 - a)) as [Hq Hr]; [lia..|].
    unfold pair_indices. rewrite Htwo, HA, HB, Hq, Hr.
    case_decide; [|lia]. f_equal; lia.
Qed.

(** C3. In self-pairs mode the enumeration of lines 803 and 821-824 sends
    the flat indices [0 <= k < N(N-1)/2] one-to-one onto the unordered
    pairs of distinct events: each [k] gives a pair of distinct in-range
    indices (the larger one first), and each unordered pair [{a, b}] with
    [a < b < N] comes from exactly one [k].  For [N = 5] the ten indices
    give the ten pairs, none twice. *)
Theorem triangular_enumeration_bijective s (N : Z) :
  two_event_sets_ s = false → nevA_ s = N → nevB_ s = N → 0 <= N →
  let T := (N * (N - 1)) ÷ 2 in
  (∀ k, 0 <= k < T →
     ∃ i j, pair_indices s k = (i, j) ∧ 0 <= j < i ∧ i < N)
  ∧ (∀ a b, 0 <= a < b → b < N →
     ∃ k, (0 <= k < T ∧ pair_indices s k = (b, a))
          ∧ ∀ k', 0 <= k' < T →
              pair_indices s k' = (b, a) ∨ pair_indices s k' = (a, b) →
              k' = k)
  ∧ (N = 5 →
     T = 10
     ∧ pair_indices s <$> seqZ 0 10
       = [(1, 0); (4, 3); (4, 2); (4, 1); (4, 0);
          (2, 0); (2, 1); (3, 2); (3, 1); (3, 0)]).
Proof.
  intros Htwo HA HB HN T. split; [|split].
  - intros k Hk. by apply pair_indices_lower.
  - intros a b Hab HbN.
    destruct (pair_indices_surj s N a b) as (k & Hk & Hp); [done..|].
    exists k. split; [done|]. intros k' Hk' [Hp'|Hp'].
    + apply (pair_indices_inj s k' k N); try done. congruence.
    + destruct (pair_indices_lower s k' N) as (i & j & Hij & ?); [done..|].
      rewrite Hij in Hp'. injection Hp' as -> ->. lia.
  - intros ->. split; [done|].
    unfold pair_indices. rewrite Htwo, HA, HB. reflexivity.
Qed.

(** *** One pair *)

Ltac dispatch_cases s st :=
  unfold call_handler, have_external_emd_handler, record_failure,
    set_emd_objs, set_emds, set_handler, set_error_messages, set_emd_counter;
  cbn;
  destruct (is_success st), (two_event_sets_ s) eqn:Etwo,
    (handler_ s) eqn:Ehandler, (emd_storage_ s) eqn:Estorage;
  cbn; rewrite ?Ehandler; cbn; try done.

(** What [dispatch] leaves untouched. *)
Lemma dispatch_frame s k :
  let s' := dispatch s k in
  nevA_ s' = nevA_ s ∧ nevB_ s' = nevB_ s ∧ num_emds_ s' = num_emds_ s
  ∧ emd_counter_ s' = emd_counter_ s ∧ emd_storage_ s' = emd_storage_ s
  ∧ two_event_sets_ s' = two_event_sets_ s ∧ events_ s' = events_ s
  ∧ throw_on_error_ s' = throw_on_error_ s
  ∧ request_mode_ s' = request_mode_ s ∧ print_every_ s' = print_every_ s
  ∧ store_sym_emds_flattened_ s' = store_sym_emds_flattened_ s
  ∧ full_emds_ s' = full_emds_ s ∧ num_threads_ s' = num_threads_ s
  ∧ have_external_emd_handler s' = have_external_emd_handler s.
Proof.
  unfold dispatch.
  destruct (pair_indices s k) as [i j], (pair_events s k) as [eA eB].
  destruct (pair_result s k) as [obj st].
  dispatch_cases s st.
Qed.

Lemma dispatch_set_emd_counter s k (c : Z) :
  dispatch (set_emd_counter s c) k = set_emd_counter (dispatch s k) c.
Proof.
  unfold dispatch, pair_result.
  change (pair_indices (set_emd_counter s c) k) with (pair_indices s k).
  change (pair_events (set_emd_counter s c) k) with (pair_events s k).
  change (emd_objs_ (set_emd_counter s c)) with (emd_objs_ s).
  destruct (pair_indices s k) as [i j], (pair_events s k) as [eA eB].
  cbn [fst snd].
  destruct (compute _ _ _ _ _) as [obj st].
  dispatch_cases s st.
Qed.

Lemma foldl_dispatch_set_emd_counter s (ks : list Z) (c : Z) :
  foldl dispatch (set_emd_counter s c) ks
  = set_emd_counter (foldl dispatch s ks) c.
Proof.
  revert s. induction ks as [|k ks IH]; intros s; [done|].
  simpl. by rewrite dispatch_set_emd_counter, IH.
Qed.

Lemma foldl_dispatch_frame s (ks : list Z) :
  let s' := foldl dispatch s ks in
  nevA_ s' = nevA_ s ∧ nevB_ s' = nevB_ s ∧ num_emds_ s' = num_emds_ s
  ∧ emd_counter_ s' = emd_counter_ s ∧ emd_storage_ s' = emd_storage_ s
  ∧ two_event_sets_ s' = two_event_sets_ s ∧ events_ s' = events_ s
  ∧ throw_on_error_ s' = throw_on_error_ s
  ∧ request_mode_ s' = request_mode_ s ∧ print_every_ s' = print_every_ s
  ∧ store_sym_emds_flattened_ s' = store_sym_emds_flattened_ s
  ∧ full_emds_ s' = full_emds_ s ∧ num_threads_ s' = num_threads_ s
  ∧ have_external_emd_handler s' = have_external_emd_handler s.
Proof.
  revert s. induction ks as [|k ks IH]; intros s; [done|].
  simpl. specialize (IH (dispatch s k)). simpl in IH.
  pose proof (dispatch_frame s k) as Hd. simpl in Hd.
  destruct IH as (?&?&?&?&?&?&?&?&?&?&?&?&?&?).
  destruct Hd as (?&?&?&?&?&?&?&?&?&?&?&?&?&?).
  repeat split; congruence.
Qed.

(** The effect of the loop body on the failure log, the handler and the
    result store. *)
Lemma dispatch_effect s k :
  let s' := dispatch s k in
  let i := (pair_indices s k).1 in
  let j := (pair_indices s k).2 in
  let emd_obj := (pair_result s k).1 in
  let status := (pair_result s k).2 in
  let weight :=
    vmul (event_weight (pair_events s k).1) (event_weight (pair_events s k).2) in
  error_messages_ s'
  = error_messages_ s
    ++ (if is_success status then [] else [failure_message status i j])
  ∧ emd_objs_ s' = vec_set (emd_objs_ s) 0 emd_obj
  ∧ if two_event_sets_ s then
      match handler_ s with
      | Some h =>
          handler_ s' = Some (h ++ [(emd_ emd_obj, weight)])
          ∧ emds_ s' = emds_ s
      | None =>
          handler_ s' = None ∧ emds_ s' = vec_set (emds_ s) k (emd_ emd_obj)
      end
    else
      match emd_storage_ s with
      | FlattenedSymmetric =>
          handler_ s' = handler_ s
          ∧ emds_ s' = vec_set (emds_ s) (index_symmetric s i j) (emd_ emd_obj)
      | External =>
          handler_ s' = (λ h, h ++ [(emd_ emd_obj, weight)]) <$> handler_ s
          ∧ emds_ s' = emds_ s
      | FullSymmetric =>
          handler_ s' = handler_ s
          ∧ emds_ s'
            = vec_set (vec_set (emds_ s) (j * nevB_ s + i) (emd_ emd_obj))
                (i * nevB_ s + j) (emd_ emd_obj)
      | Full => handler_ s' = handler_ s ∧ emds_ s' = emds_ s
      end.
Proof.
  unfold dispatch.
  destruct (pair_indices s k) as [i j], (pair_events s k) as [eA eB].
  destruct (pair_result s k) as [obj st]. cbn [fst snd].
  dispatch_cases s st; by rewrite ?app_nil_r.
Qed.

Lemma init_storage_selected s0 (nev : Z) (evs : list (@Event V Particle)) :
  request_mode_ s0 = false → storage_selected (set_events (init s0 nev) evs).
Proof.
  intros Hr. unfold storage_selected, init, have_external_emd_handler.
  rewrite Hr. cbn. rewrite Hr.
  by destruct (handler_ s0), (store_sym_emds_flattened_ s0).
Qed.

Lemma init_two_storage_selected s0 (nevA nevB : Z)
    (evs : list (@Event V Particle)) :
  request_mode_ s0 = false →
  storage_selected (set_events (init_two s0 nevA nevB) evs).
Proof.
  intros Hr. unfold storage_selected, init_two, have_external_emd_handler.
  rewrite Hr. cbn. rewrite Hr. by destruct (handler_ s0).
Qed.

Lemma foldl_dispatch_storage_selected s (ks : list Z) :
  storage_selected s → storage_selected (foldl dispatch s ks).
Proof.
  unfold storage_selected.
  destruct (foldl_dispatch_frame s ks) as (_&_&_&_&->&->&_&_&_&_&->&_&_&->).
  done.
Qed.

(** C6 (amended). During a batch every dispatched pair is handled the same
    way whatever its status: with an external handler the handler receives
    the solver's value and the product of the two event weights, and
    without one the value is written to the result store at the address of
    the storage mode.  A status other than [Success] only adds a failure
    record. *)
Theorem dispatch_handles_or_stores_every_pair s0 s1
    (evs : list (@Event V Particle)) (nevA nevB : Z) (ks : list Z) k :
  request_mode_ s0 = false →
  s1 = set_events (init s0 nevA) evs
  ∨ s1 = set_events (init_two s0 nevA nevB) evs →
  let s := foldl dispatch s1 ks in
  let s' := dispatch s k in
  let i := (pair_indices s k).1 in
  let j := (pair_indices s k).2 in
  let emd_obj := (pair_result s k).1 in
  let status := (pair_result s k).2 in
  let weight :=
    vmul (event_weight (pair_events s k).1) (event_weight (pair_events s k).2) in
  error_messages_ s'
  = error_messages_ s
    ++ (if is_success status then [] else [failure_message status i j])
  ∧ match handler_ s with
    | Some h =>
        emd_storage_ s = External
        ∧ handler_ s' = Some (h ++ [(emd_ emd_obj, weight)])
        ∧ emds_ s' = emds_ s
    | None =>
        handler_ s' = None
        ∧ match emd_storage_ s with
          | Full =>
              two_event_sets_ s = true
              ∧ emds_ s' = vec_set (emds_ s) k (emd_ emd_obj)
          | FlattenedSymmetric =>
              two_event_sets_ s = false
              ∧ emds_ s'
                = vec_set (emds_ s) (index_symmetric s i j) (emd_ emd_obj)
          | FullSymmetric =>
              two_event_sets_ s = false
              ∧ emds_ s'
                = vec_set (vec_set (emds_ s) (j * nevB_ s + i) (emd_ emd_obj))
                    (i * nevB_ s + j) (emd_ emd_obj)
          | External => False
          end
    end.
Proof.
  intros Hr Hs1 s s' i j emd_obj status weight.
  assert (Hsel : storage_selected s).
  { apply foldl_dispatch_storage_selected.
    destruct Hs1 as [->| ->];
      [by apply init_storage_selected|by apply init_two_storage_selected]. }
  destruct (dispatch_effect s k) as (Hmsg & _ & Hstore).
  fold s' i j emd_obj status weight in Hmsg, Hstore.
  split; [done|]. clear Hmsg.
  unfold storage_selected, have_external_emd_handler in Hsel.
  destruct (handler_ s) as [h|] eqn:Eh.
  - rewrite Hsel in Hstore |- *. split; [done|].
    destruct (two_event_sets_ s); [done|]. simpl in Hstore. done.
  - rewrite Hsel in Hstore |- *.
    destruct (two_event_sets_ s); [by destruct Hstore|].
    destruct (store_sym_emds_flattened_ s); destruct Hstore as [H1 H2];
      by rewrite ?H1.
Qed.

(** *** The loop over chunks *)

Lemma set_emd_counter_twice s (c c' : Z) :
  set_emd_counter (set_emd_counter s c) c' = set_emd_counter s c'.
Proof. done. Qed.

Lemma set_emd_counter_same s : set_emd_counter s (emd_counter_ s) = s.
Proof. by destruct s. Qed.

Lemma dispatched_zero s : emd_counter_ s = 0 → dispatched s 0 = s.
Proof.
  intros H. unfold dispatched. change (seqZ 0 0) with (@nil Z). simpl.
  rewrite <- H. apply set_emd_counter_same.
Qed.

Lemma run_chunk_dispatched s (pe b : Z) :
  0 <= b → b < num_emds_ s → 0 < pe →
  let c := if decide (b + pe > num_emds_ s) then num_emds_ s else b + pe in
  run_chunk pe b (dispatched s b) = dispatched s c.
Proof.
  intros Hb Hlt Hpe c. unfold run_chunk.
  destruct (foldl_dispatch_frame s (seqZ 0 b)) as (_&_&Hnum&_).
  change (emd_counter_ (dispatched s b)) with b.
  change (num_emds_ (dispatched s b))
    with (num_emds_ (foldl dispatch s (seqZ 0 b))).
  rewrite Hnum. fold c. unfold dispatched.
  assert (b <= c) by (unfold c; case_decide; lia).
  rewrite set_emd_counter_twice, !foldl_dispatch_set_emd_counter.
  rewrite <- foldl_app. do 2 f_equal.
  replace c with (b + (c - b)) at 2 by lia.
  rewrite seqZ_app by lia. by rewrite Z.add_0_l.
Qed.

Lemma keep_dispatching_dispatched s (c : Z) :
  keep_dispatching (dispatched s c)
  = bool_decide (c < num_emds_ s)
    && negb (throw_on_error_ s && errored (foldl dispatch s (seqZ 0 c))).
Proof.
  unfold keep_dispatching, dispatched.
  destruct (foldl_dispatch_frame s (seqZ 0 c)) as (_&_&Hnum&_&_&_&_&Ht&_).
  cbn. by rewrite Hnum, Ht.
Qed.

(** The loop stops at the first chunk boundary where its guard fails, and
    until then dispatches every pair. *)
Lemma compute_loop_chunks s (pe : Z) (fuel : nat) (b : Z) :
  0 < pe → 0 <= b → (Z.to_nat (num_emds_ s - b) <= fuel)%nat →
  ∃ c, b <= c <= Z.max b (num_emds_ s)
    ∧ compute_loop fuel pe b (dispatched s b) = Some (dispatched s c)
    ∧ keep_dispatching (dispatched s c) = false
    ∧ (c = num_emds_ s ∨ ∃ m, 0 <= m ∧ c = b + m * pe)
    ∧ ∀ m, 0 <= m → b + m * pe < c →
        keep_dispatching (dispatched s (b + m * pe)) = true.
Proof.
  intros Hpe. revert b.
  induction fuel as [|fuel IH]; intros b Hb Hfuel.
  - exists b. simpl.
    assert (Hk : keep_dispatching (dispatched s b) = false).
    { rewrite keep_dispatching_dispatched.
      rewrite bool_decide_eq_false_2 by lia. done. }
    rewrite Hk. split; [lia|]. split; [done|]. split; [done|].
    split; [right; exists 0; lia|]. intros m Hm Hlt. nia.
  - simpl. destruct (keep_dispatching (dispatched s b)) eqn:Hk.
    + assert (Hlt : b < num_emds_ s).
      { rewrite keep_dispatching_dispatched in Hk.
        apply andb_true_iff in Hk as [Hk _].
        by apply bool_decide_eq_true in Hk. }
      rewrite run_chunk_dispatched by lia.
      set (c1 := if decide (b + pe > num_emds_ s) then _ else _).
      assert (Hc1 : b < c1 ∧ c1 <= num_emds_ s)
        by (unfold c1; case_decide; lia).
      change (emd_counter_ (dispatched s c1)) with c1.
      destruct (IH c1) as (c & Hle & Hrun & Hstop & Hform & Hearly); [lia..|].
      exists c. split; [lia|]. split; [done|]. split; [done|].
      assert (Hcase : c1 = b + pe
                      ∨ (b + pe > num_emds_ s ∧ c = num_emds_ s)).
      { unfold c1 in *. case_decide; [right|by left]. split; [done|].
        destruct (decide (c = num_emds_ s)) as [|Hne]; [done|].
        specialize (Hearly 0 ltac:(lia) ltac:(lia)).
        rewrite Z.mul_0_l, Z.add_0_r, keep_dispatching_dispatched in Hearly.
        rewrite bool_decide_eq_false_2 in Hearly by lia. done. }
      split.
      * destruct Hform as [Hc|(m & Hm & Hc)]; [by left|].
        destruct Hcase as [E|[E1 E2]]; [|left; lia].
        right. exists (m + 1). lia.
      * intros m Hm Hmc.
        destruct (decide (m = 0)) as [->|Hm0].
        { by rewrite Z.mul_0_l, Z.add_0_r. }
        destruct Hcase as [Hc1'|[Hc1' Hcc]]; [|nia].
        replace (b + m * pe) with (c1 + (m - 1) * pe) by lia.
        apply Hearly; lia.
    + exists b. split; [lia|]. split; [done|]. split; [done|].
      split; [right; exists 0; lia|]. intros m Hm Hlt. nia.
Qed.

Lemma chunk_size_pos s :
  print_every_ s ≠ 0 → 0 <= num_emds_ s → 0 < chunk_size s.
Proof.
  intros Hpe Hnum. unfold chunk_size.
  case_decide; [|lia].
  pose proof (Z.quot_pos (num_emds_ s) (Z.abs (print_every_ s))
                ltac:(lia) ltac:(lia)).
  case_decide; lia.
Qed.

Lemma compute_loop_done s (pe b : Z) (fuel : nat) :
  keep_dispatching s = false → compute_loop fuel pe b s = Some s.
Proof. intros Hk. destruct fuel; simpl; by rewrite Hk. Qed.

(** The failure log after one more pair. *)
Lemma error_messages_dispatched_succ s (n : Z) :
  0 <= n →
  error_messages_ (dispatched s (n + 1))
  = error_messages_ (dispatched s n)
    ++ (if is_success (pair_result (dispatched s n) n).2 then []
        else [failure_message (pair_result (dispatched s n) n).2
                (pair_indices (dispatched s n) n).1
                (pair_indices (dispatched s n) n).2]).
Proof.
  intros Hn. unfold dispatched.
  rewrite seqZ_app by lia. rewrite Z.add_0_l, foldl_app.
  change (seqZ n 1) with [n]. cbn [foldl].
  change (error_messages_ (set_emd_counter ?x _)) with (error_messages_ x).
  by destruct (dispatch_effect (foldl dispatch s (seqZ 0 n)) n) as [-> _].
Qed.

(** The log only grows: what was recorded first stays first. *)
Lemma error_messages_dispatched_prefix s (n c : Z) :
  0 <= n <= c →
  error_messages_ (dispatched s n) `prefix_of` error_messages_ (dispatched s c).
Proof.
  intros [Hn Hc]. replace c with (n + Z.of_nat (Z.to_nat (c - n))) by lia.
  induction (Z.to_nat (c - n)) as [|d IH]; [by rewrite Z.add_0_r|].
  etrans; [exact IH|].
  replace (n + Z.of_nat (S d)) with (n + Z.of_nat d + 1) by lia.
  rewrite error_messages_dispatched_succ by lia. by apply prefix_app_r.
Qed.

(** What [init] leaves for a self-pairs batch. *)
Lemma init_self_ready s0 (nev : Z) (evs : list (@Event V Particle)) :
  request_mode_ s0 = false →
  let s := set_events (init s0 nev) evs in
  nevA_ s = nev ∧ nevB_ s = nev ∧ num_emds_ s = (nev * (nev - 1)) ÷ 2
  ∧ two_event_sets_ s = false ∧ emd_counter_ s = 0 ∧ error_messages_ s = []
  ∧ request_mode_ s = false ∧ print_every_ s = print_every_ s0
  ∧ handler_ s = handler_ s0 ∧ full_emds_ s = []
  ∧ throw_on_error_ s = throw_on_error_ s0
  ∧ emds_ s
    = (if have_external_emd_handler s0 then []
       else if store_sym_emds_flattened_ s0
            then replicate (Z.to_nat ((nev * (nev - 1)) ÷ 2)) vzero
            else replicate (Z.to_nat (nev * nev)) vzero).
Proof.
  intros Hr. unfold init. rewrite Hr. cbn. rewrite Hr.
  unfold have_external_emd_handler. cbn.
  repeat split; try done.
  destruct (handler_ s0); [done|]. cbn.
  destruct (store_sym_emds_flattened_ s0); cbn; by rewrite resize_nil.
Qed.

Lemma num_pairs_nonneg (N : Z) : 0 <= (N * (N - 1)) ÷ 2.
Proof. apply Z.quot_pos; nia. Qed.

(** What [init] leaves for a batch over two sets of events. *)
Lemma init_two_ready s0 (nevA nevB : Z) (evs : list (@Event V Particle)) :
  request_mode_ s0 = false →
  let s := set_events (init_two s0 nevA nevB) evs in
  nevA_ s = nevA ∧ nevB_ s = nevB ∧ num_emds_ s = nevA * nevB
  ∧ two_event_sets_ s = true ∧ emd_counter_ s = 0 ∧ error_messages_ s = []
  ∧ request_mode_ s = false ∧ print_every_ s = print_every_ s0
  ∧ handler_ s = handler_ s0 ∧ full_emds_ s = []
  ∧ throw_on_error_ s = throw_on_error_ s0.
Proof. intros Hr. unfold init_two. rewrite Hr. cbn. by rewrite Hr. Qed.

(** C7. With raise-on-error configured, a batch dispatches whole chunks:
    it ends on a chunk boundary [c] with exactly the pairs [0 .. c-1]
    dispatched, in order; it goes on to the next chunk unless a failure has
    been recorded by the boundary or no pair is left, so a failure recorded
    inside a chunk does not cut that chunk short.  It then raises if and
    only if a failure was recorded, with the first recorded message, which
    is the message of the first pair whose status was not [Success].
    Here [s] is the state [init] and the storing of the events leave, for
    one event set or for two. *)
Theorem batch_raises_earliest_failure_between_chunks s0 s
    (evs : list (@Event V Particle)) (nevA nevB : Z) :
  request_mode_ s0 = false → throw_on_error_ s0 = true →
  print_every_ s0 ≠ 0 →
  s = set_events (init s0 nevA) evs
  ∨ (0 <= nevA * nevB ∧ s = set_events (init_two s0 nevA nevB) evs) →
  ∃ c, 0 <= c
    ∧ PairwiseEMD_compute s
      = Some (dispatched s c,
              match error_messages_ (dispatched s c) with
              | m :: _ => Some (RuntimeError m)
              | [] => None
              end)
    (* the batch stops on a chunk boundary *)
    ∧ (c = num_emds_ s ∨ ∃ m, 0 <= m ∧ c = m * chunk_size s)
    (* it stops early only on a recorded failure *)
    ∧ (c < num_emds_ s → error_messages_ (dispatched s c) ≠ [])
    (* at no earlier boundary had a failure been recorded *)
    ∧ (∀ m, 0 <= m → m * chunk_size s < c →
         m * chunk_size s < num_emds_ s
         ∧ error_messages_ (dispatched s (m * chunk_size s)) = [])
    (* the message raised is that of the first failing pair *)
    ∧ (∀ kf, 0 <= kf < c →
         error_messages_ (dispatched s kf) = [] →
         is_success (pair_result (dispatched s kf) kf).2 = false →
         ∃ rest,
           error_messages_ (dispatched s c)
           = failure_message (pair_result (dispatched s kf) kf).2
               (pair_indices (dispatched s kf) kf).1
               (pair_indices (dispatched s kf) kf).2 :: rest).
Proof.
  intros Hreq0 Hthrow0 Hpe0 Hs.
  assert (Hready : request_mode_ s = false ∧ throw_on_error_ s = true
                   ∧ print_every_ s ≠ 0 ∧ 0 <= num_emds_ s
                   ∧ emd_counter_ s = 0 ∧ error_messages_ s = []).
  { destruct Hs as [->|[Hnn ->]].
    - destruct (init_self_ready s0 nevA evs Hreq0)
        as (_ & _ & Hn & _ & Hc & Hm & Hr & Hp & _ & _ & Ht & _).
      rewrite Hn, Hp, Ht. repeat split; try done. apply num_pairs_nonneg.
    - destruct (init_two_ready s0 nevA nevB evs Hreq0)
        as (_ & _ & Hn & _ & Hc & Hm & Hr & Hp & _ & _ & Ht).
      rewrite Hn, Hp, Ht. by repeat split. }
  destruct Hready as (Hreq & Hthrow & Hpe & Hnum0 & Hcnt & Hmsg). clear Hs.
  assert (Hfirst : ∀ c kf, 0 <= kf < c →
    error_messages_ (dispatched s kf) = [] →
    is_success (pair_result (dispatched s kf) kf).2 = false →
    ∃ rest,
      error_messages_ (dispatched s c)
      = failure_message (pair_result (dispatched s kf) kf).2
          (pair_indices (dispatched s kf) kf).1
          (pair_indices (dispatched s kf) kf).2 :: rest).
  { intros c kf Hkf Hnone Hfail.
    destruct (error_messages_dispatched_prefix s (kf + 1) c ltac:(lia))
      as [rest Hrest].
    exists rest. rewrite Hrest, error_messages_dispatched_succ by lia.
    by rewrite Hnone, Hfail. }
  unfold PairwiseEMD_compute, PairwiseEMD_compute_fuel.
  rewrite Hreq, Hcnt, Z.sub_0_r.
  destruct (decide (num_emds_ s <= 0)) as [Hnum|Hnum].
  - (* nothing to do *)
    exists 0. rewrite dispatched_zero by done.
    assert (Hk : keep_dispatching s = false).
    { unfold keep_dispatching. rewrite Hcnt.
      by rewrite bool_decide_eq_false_2 by lia. }
    rewrite compute_loop_done by done. rewrite Hthrow, Hmsg.
    split; [done|]. split; [done|].
    split; [right; exists 0; lia|]. split; [lia|].
    split; [|intros kf Hkf; lia].
    intros m Hm Hlt. pose proof (chunk_size_pos s Hpe Hnum0) as Hcs. nia.
  - pose proof (chunk_size_pos s Hpe ltac:(lia)) as Hcs.
    destruct (compute_loop_chunks s (chunk_size s)
                (Z.to_nat (num_emds_ s)) 0 Hcs ltac:(lia) ltac:(lia))
      as (c & Hc & Hrun & Hstop & Hform & Hearly).
    rewrite dispatched_zero in Hrun by done.
    exists c. split; [lia|]. rewrite Hrun.
    assert (Ht : throw_on_error_ (dispatched s c) = true).
    { unfold dispatched.
      destruct (foldl_dispatch_frame s (seqZ 0 c)) as (_&_&_&_&_&_&_&Ht&_).
      by rewrite <- Hthrow, <- Ht. }
    rewrite Ht. split; [done|].
    rewrite keep_dispatching_dispatched, Hthrow in Hstop.
    split; [|split; [|split]].
    + destruct Hform as [->|(m & Hm & ->)]; [by left|].
      right. exists m. lia.
    + intros Hlt Hnil. rewrite bool_decide_eq_true_2 in Hstop by done.
      unfold dispatched in Hnil.
      change (error_messages_ (set_emd_counter ?x _))
        with (error_messages_ x) in Hnil.
      unfold errored in Hstop. by rewrite Hnil in Hstop.
    + intros m Hm Hlt. specialize (Hearly m Hm ltac:(lia)).
      rewrite Z.add_0_l, keep_dispatching_dispatched, Hthrow in Hearly.
      apply andb_true_iff in Hearly as [Hb He].
      apply bool_decide_eq_true in Hb. split; [done|].
      unfold dispatched.
      change (error_messages_ (set_emd_counter ?x _)) with (error_messages_ x).
      unfold errored in He.
      by destruct (error_messages_ (foldl _ _ _)).
    + intros kf Hkf. by apply Hfirst.
Qed.

(** The batch always returns or raises: the fuel never runs out. *)
Lemma PairwiseEMD_compute_runs s :
  request_mode_ s = false → print_every_ s ≠ 0 → 0 <= num_emds_ s →
  emd_counter_ s = 0 →
  ∃ c, 0 <= c <= num_emds_ s
    ∧ PairwiseEMD_compute s
      = Some (dispatched s c,
              if throw_on_error_ s then
                match error_messages_ (dispatched s c) with
                | m :: _ => Some (RuntimeError m)
                | [] => None
                end
              else None).
Proof.
  intros Hreq Hpe Hnum Hcnt.
  unfold PairwiseEMD_compute, PairwiseEMD_compute_fuel.
  rewrite Hreq, Hcnt, Z.sub_0_r.
  pose proof (chunk_size_pos s Hpe Hnum) as Hcs.
  destruct (compute_loop_chunks s (chunk_size s)
              (Z.to_nat (num_emds_ s)) 0 Hcs ltac:(lia) ltac:(lia))
    as (c & Hc & Hrun & _).
  rewrite dispatched_zero in Hrun by done.
  exists c. split; [lia|]. rewrite Hrun. do 2 f_equal.
  unfold dispatched.
  destruct (foldl_dispatch_frame s (seqZ 0 c)) as (_&_&_&_&_&_&_&Ht&_).
  change (throw_on_error_ (set_emd_counter ?x _)) with (throw_on_error_ x).
  by rewrite Ht.
Qed.

(** *** Request mode *)

(** C8 (amended). In request mode [compute()] throws before it touches
    anything, and so does [compute(events)], after [init] has run; [init]
    itself does not throw: it skips [clear] and the choice of a storage
    mode, and still records the sizes. *)
Theorem request_mode_compute_raises_init_records_sizes s :
  request_mode_ s = true →
  PairwiseEMD_compute s
  = Some (s, Some (RuntimeError "cannot compute pairwise EMDs in request mode"))
  ∧ (∀ evs : list (@Event V Particle),
       compute_self s evs
       = Some (set_events (init s (Z.of_nat (length evs))) evs,
               Some (RuntimeError
                       "cannot compute pairwise EMDs in request mode")))
  ∧ (∀ nev : Z,
       let s' := init s nev in
       (nevA_ s' = nev ∧ nevB_ s' = nev ∧ num_emds_ s' = (nev * (nev - 1)) ÷ 2
        ∧ two_event_sets_ s' = false)
       ∧ events_ s' = events_ s ∧ emds_ s' = emds_ s
       ∧ full_emds_ s' = full_emds_ s
       ∧ error_messages_ s' = error_messages_ s
       ∧ emd_storage_ s' = emd_storage_ s
       ∧ emd_counter_ s' = emd_counter_ s ∧ handler_ s' = handler_ s
       ∧ request_mode_ s' = true)
  ∧ (∀ nevA nevB : Z,
       let s' := init_two s nevA nevB in
       (nevA_ s' = nevA ∧ nevB_ s' = nevB ∧ num_emds_ s' = nevA * nevB
        ∧ two_event_sets_ s' = true)
       ∧ events_ s' = events_ s ∧ emds_ s' = emds_ s
       ∧ full_emds_ s' = full_emds_ s
       ∧ error_messages_ s' = error_messages_ s
       ∧ emd_storage_ s' = emd_storage_ s
       ∧ emd_counter_ s' = emd_counter_ s ∧ handler_ s' = handler_ s
       ∧ request_mode_ s' = true).
Proof.
  intros Hreq. split; [|split; [|split]].
  - unfold PairwiseEMD_compute, PairwiseEMD_compute_fuel.
    by rewrite Hreq.
  - intros evs.
    unfold compute_self, PairwiseEMD_compute,
      PairwiseEMD_compute_fuel.
    assert (Hr : request_mode_ (set_events (init s (Z.of_nat (length evs))) evs)
                 = true).
    { unfold init. rewrite Hreq. cbn. done. }
    by rewrite Hr.
  - intros nev. unfold init. rewrite Hreq. cbn. rewrite Hreq.
    by rewrite andb_false_r.
  - intros nevA nevB. unfold init_two. rewrite Hreq. cbn. rewrite Hreq.
    by rewrite andb_false_r.
Qed.

(** *** The dense view of flattened storage *)

Lemma index_symmetric_sym s (i j : Z) :
  index_symmetric s i j = index_symmetric s j i.
Proof. unfold index_symmetric. repeat case_decide; lia. Qed.

Lemma index_symmetric_range s (N i j : Z) :
  nevA_ s = N → num_emds_ s = (N * (N - 1)) ÷ 2 →
  0 <= i < N → 0 <= j < N → i ≠ j →
  0 <= index_symmetric s i j < num_emds_ s.
Proof.
  intros HA Hnum Hi Hj Hne. unfold index_symmetric. rewrite HA, Hnum.
  pose proof (twice_num_pairs N ltac:(lia)).
  pose proof (twice_num_pairs (N - i) ltac:(lia)).
  pose proof (twice_num_pairs (N - j) ltac:(lia)).
  repeat case_decide; try lia; nia.
Qed.

Section Dense.

Variables (s : @PairwiseEMD V Particle) (N : Z).
Hypothesis HA : nevA_ s = N.
Hypothesis HB : nevB_ s = N.
Hypothesis HN : 0 <= N.

Abbreviation sized f := (length f = Z.to_nat (N * N)).
Abbreviation write := (fill_entry s).

Lemma write_keeps_diagonal (f : list V) (i j d : Z) :
  0 <= i < j → j < N → 0 <= d < N →
  vec_get (write f i j) (d * N + d) = vec_get f (d * N + d).
Proof.
  intros Hi Hj Hd. unfold fill_entry. rewrite HB. cbv zeta.
  rewrite !vec_get_set_ne; [done| |nia| |nia].
  - intros Heq. apply row_major_inj in Heq; lia.
  - intros Heq. apply row_major_inj in Heq; lia.
Qed.

Lemma write_keeps_pair (f : list V) (i j a b : Z) :
  0 <= i < j → j < N → 0 <= a < b → b < N → sized f →
  let x := vec_get (emds_ s) (index_symmetric s a b) in
  vec_get f (a * N + b) = x ∧ vec_get f (b * N + a) = x →
  vec_get (write f i j) (a * N + b) = x
  ∧ vec_get (write f i j) (b * N + a) = x.
Proof.
  intros Hi Hj Ha Hb Hf x [H1 H2]. unfold fill_entry. rewrite HB. cbv zeta.
  destruct (decide (i = a ∧ j = b)) as [[-> ->]|Hne].
  - split.
    + apply vec_get_set_eq. rewrite vec_set_length, Hf. nia.
    + rewrite vec_get_set_ne; [| |nia].
      * apply vec_get_set_eq. rewrite Hf. nia.
      * intros Heq. apply row_major_inj in Heq; lia.
  - split.
    + rewrite !vec_get_set_ne; [done| |nia| |nia].
      * intros Heq. apply row_major_inj in Heq; lia.
      * intros Heq. apply row_major_inj in Heq; lia.
    + rewrite !vec_get_set_ne; [done| |nia| |nia].
      * intros Heq. apply row_major_inj in Heq; lia.
      * intros Heq. apply row_major_inj in Heq; lia.
Qed.

Lemma write_sets_pair (f : list V) (a b : Z) :
  0 <= a < b → b < N → sized f →
  let x := vec_get (emds_ s) (index_symmetric s a b) in
  vec_get (write f a b) (a * N + b) = x
  ∧ vec_get (write f a b) (b * N + a) = x.
Proof.
  intros Ha Hb Hf x. unfold fill_entry. rewrite HB. cbv zeta. split.
  - apply vec_get_set_eq. rewrite vec_set_length, Hf. nia.
  - rewrite vec_get_set_ne; [| |nia].
    + apply vec_get_set_eq. rewrite Hf. nia.
    + intros Heq. apply row_major_inj in Heq; lia.
Qed.

Lemma write_sized (f : list V) (i j : Z) : sized f → sized (write f i j).
Proof. unfold fill_entry. cbv zeta. by rewrite !vec_set_length. Qed.

Lemma fill_matrix_writes (f : list V) :
  fill_matrix s f
  = foldl (λ f i, foldl (λ f j, write f i j) f (seqZ (i + 1) (N - (i + 1))))
      f (seqZ 0 N).
Proof. unfold fill_matrix. by rewrite HA, HB. Qed.

Lemma fill_matrix_sized (f : list V) : sized f → sized (fill_matrix s f).
Proof.
  rewrite fill_matrix_writes. apply (foldl_keeps _ (λ g, sized g)).
  apply Forall_forall. intros i _ g. apply (foldl_keeps _ (λ g, sized g)).
  apply Forall_forall. intros j _ h. apply write_sized.
Qed.

Lemma fill_matrix_diagonal (f : list V) (d : Z) :
  0 <= d < N →
  vec_get (fill_matrix s f) (d * N + d) = vec_get f (d * N + d).
Proof.
  intros Hd. rewrite fill_matrix_writes.
  apply (foldl_keeps _ (λ g, vec_get g (d * N + d) = vec_get f (d * N + d)));
    [|done].
  apply Forall_forall. intros i Hi%elem_of_seqZ g.
  apply (foldl_keeps _ (λ g, vec_get g (d * N + d) = vec_get f (d * N + d))).
  apply Forall_forall. intros j Hj%elem_of_seqZ h Hh.
  rewrite write_keeps_diagonal; [done|lia..].
Qed.

Lemma fill_matrix_pair (f : list V) (a b : Z) :
  0 <= a < b → b < N → sized f →
  let x := vec_get (emds_ s) (index_symmetric s a b) in
  vec_get (fill_matrix s f) (a * N + b) = x
  ∧ vec_get (fill_matrix s f) (b * N + a) = x.
Proof.
  intros Ha Hb Hf x. rewrite fill_matrix_writes.
  apply (foldl_establishes _ (λ g, sized g)
           (λ g, vec_get g (a * N + b) = x ∧ vec_get g (b * N + a) = x)
           _ a); [| |apply elem_of_seqZ; lia|done].
  - apply Forall_forall. intros i Hi%elem_of_seqZ g Hg. split.
    + revert g Hg. apply (foldl_keeps _ (λ g, sized g)).
      apply Forall_forall. intros j _ h. apply write_sized.
    + intros Hgood.
      apply (foldl_keeps _ (λ g, sized g ∧ vec_get g (a * N + b) = x
                                 ∧ vec_get g (b * N + a) = x)); [|done].
      apply Forall_forall. intros j Hj%elem_of_seqZ h [Hh1 Hh2].
      split; [by apply write_sized|].
      by apply write_keeps_pair; [lia..|done|].
  - intros g Hg.
    apply (foldl_establishes _ (λ g, sized g)
             (λ g, vec_get g (a * N + b) = x ∧ vec_get g (b * N + a) = x)
             _ b); [| |apply elem_of_seqZ; lia|done].
    + apply Forall_forall. intros j Hj%elem_of_seqZ h Hh.
      split; [by apply write_sized|].
      intros Hgood. by apply write_keeps_pair; [lia..|done|].
    + intros h Hh. by apply write_sets_pair.
Qed.

Lemma zero_diagonal_sized (f : list V) : sized f → sized (zero_diagonal s f).
Proof.
  unfold zero_diagonal. apply (foldl_keeps _ (λ g, sized g)).
  apply Forall_forall. intros i _ g. by rewrite vec_set_length.
Qed.

Lemma zero_diagonal_zeros (f : list V) (p : Z) :
  vec_get f p = vzero → vec_get (zero_diagonal s f) p = vzero.
Proof.
  unfold zero_diagonal. apply (foldl_keeps _ (λ g, vec_get g p = vzero)).
  apply Forall_forall. intros i _ g. apply vec_get_set_same_value.
Qed.

(** [emds()] builds the symmetric matrix of the flattened distances; its
    diagonal is zero when the dense buffer starts empty, as [clear] leaves
    it. *)
Lemma emds_dense_view :
  emd_storage_ s = FlattenedSymmetric →
  ∃ full,
    emds s false = (set_full_emds s full, inr full)
    ∧ length full = Z.to_nat (N * N)
    ∧ (∀ a b, 0 <= a < N → 0 <= b < N → a ≠ b →
         vec_get full (a * N + b) = vec_get (emds_ s) (index_symmetric s a b))
    ∧ (full_emds_ s = [] →
       ∀ d, 0 <= d < N → vec_get full (d * N + d) = vzero).
Proof.
  intros Hst. unfold emds. rewrite Hst, HA, HB. simpl.
  eexists. split; [done|].
  set (f0 := resize (Z.to_nat (N * N)) vzero (full_emds_ s)).
  assert (Hf0 : sized f0) by apply length_resize.
  assert (Hz : sized (zero_diagonal s f0)) by by apply zero_diagonal_sized.
  split; [by apply fill_matrix_sized|]. split.
  - intros a b Ha Hb Hne.
    destruct (decide (a < b)).
    + by destruct (fill_matrix_pair (zero_diagonal s f0) a b) as [H1 _];
        [lia..|done|].
    + rewrite index_symmetric_sym.
      by destruct (fill_matrix_pair (zero_diagonal s f0) b a) as [_ H2];
        [lia..|done|].
  - intros Hfull d Hd. rewrite fill_matrix_diagonal by done.
    apply zero_diagonal_zeros. unfold f0.
    rewrite Hfull, resize_nil. apply vec_get_replicate.
Qed.

End Dense.

(** Flattened addressing round-trips through the dense view: a value
    stored at [index_symmetric(i, j)] is read back at [(i, j)] and
    [(j, i)]; the diagonal is zero when the dense buffer starts empty. *)
Lemma flattened_store_then_dense_view s (N i j : Z) (v : V) :
  emd_storage_ s = FlattenedSymmetric → nevA_ s = N → nevB_ s = N →
  num_emds_ s = (N * (N - 1)) ÷ 2 →
  Z.of_nat (length (emds_ s)) = num_emds_ s →
  0 <= i < N → 0 <= j < N → i ≠ j →
  let s' := set_emds s (vec_set (emds_ s) (index_symmetric s i j) v) in
  ∃ full,
    emds s' false = (set_full_emds s' full, inr full)
    ∧ vec_get full (i * N + j) = v ∧ vec_get full (j * N + i) = v
    ∧ (full_emds_ s = [] →
       ∀ d, 0 <= d < N → vec_get full (d * N + d) = vzero).
Proof.
  intros Hst HA HB Hnum Hlen Hi Hj Hne s'.
  destruct (emds_dense_view s' N HA HB ltac:(lia) Hst)
    as (full & Hrun & _ & Hoff & Hdiag).
  pose proof (index_symmetric_range s N i j HA Hnum Hi Hj Hne) as Hr.
  exists full. split; [done|].
  assert (Hv : vec_get (emds_ s') (index_symmetric s' i j) = v).
  { change (index_symmetric s' i j) with (index_symmetric s i j).
    unfold s'. cbn [emds_ set_emds]. apply vec_get_set_eq. lia. }
  split; [|split; [|exact Hdiag]].
  - by rewrite Hoff.
  - rewrite Hoff by done. by rewrite index_symmetric_sym.
Qed.

(** *** Self-distances *)

(** In dense symmetric storage the batch never writes the diagonal. *)
Lemma foldl_dispatch_keeps_diagonal s (N d : Z) (ks : list Z) :
  two_event_sets_ s = false → nevA_ s = N → nevB_ s = N → 0 <= N →
  emd_storage_ s = FullSymmetric → 0 <= d < N →
  Forall (λ k, 0 <= k < (N * (N - 1)) ÷ 2) ks →
  vec_get (emds_ (foldl dispatch s ks)) (d * N + d)
  = vec_get (emds_ s) (d * N + d).
Proof.
  intros Htwo HA HB HN Hst Hd Hks.
  apply (foldl_keeps dispatch
    (λ g, (two_event_sets_ g = false ∧ nevA_ g = N ∧ nevB_ g = N
           ∧ emd_storage_ g = FullSymmetric)
          ∧ vec_get (emds_ g) (d * N + d) = vec_get (emds_ s) (d * N + d)));
    [|done].
  eapply Forall_impl; [exact Hks|]. intros k Hk g [(Gt & GA & GB & Gs) Hg].
  destruct (dispatch_frame g k) as (FA & FB & _ & _ & Fs & Ft & _).
  split; [by rewrite FA, FB, Fs, Ft|].
  destruct (dispatch_effect g k) as (_ & _ & He).
  rewrite Gt, Gs in He. destruct He as [_ ->].
  destruct (pair_indices_lower g k N) as (i & j & Hij & Hj & Hi); [done..|].
  rewrite Hij, GB. cbn [fst snd].
  rewrite !vec_get_set_ne; [done| |nia| |nia].
  - intros Heq. apply row_major_inj in Heq; lia.
  - intros Heq. apply row_major_inj in Heq; lia.
Qed.

(** C5 (amended). A self-pairs batch never dispatches a pair [(i, i)]:
    every flat index gives two distinct events.  Afterwards, when the
    distances are stored (no external handler), [emd(i, i)] is exactly zero
    for every event index [i]; with an external handler nothing is stored
    and [emd(i, i)] throws. *)
Theorem self_distance_zero_when_stored s0 (evs : list (@Event V Particle)) :
  request_mode_ s0 = false → print_every_ s0 ≠ 0 →
  let N := Z.of_nat (length evs) in
  let s1 := set_events (init s0 N) evs in
  ∃ s' exn c,
    compute_self s0 evs = Some (s', exn)
    ∧ (0 <= c <= (N * (N - 1)) ÷ 2 ∧ s' = dispatched s1 c)
    ∧ (∀ k (ks : list Z), 0 <= k < (N * (N - 1)) ÷ 2 →
         ∃ i j, pair_indices (foldl dispatch s1 ks) k = (i, j)
                ∧ 0 <= j < i ∧ i < N)
    ∧ ∀ i thread, 0 <= i < N →
        emd ns_compute fill_distances s' i i thread
        = (s', if have_external_emd_handler s0
               then inl (LogicError
                 "EMD requested but external handler provided, so no EMDs stored")
               else inr vzero).
Proof.
  intros Hreq Hpe N s1.
  destruct (init_self_ready s0 N evs Hreq)
    as (HA & HB & Hnum & Htwo & Hcnt & Hmsg & Hr1 & Hpe1 & Hh & _ & _ & Hemds).
  fold s1 in HA, HB, Hnum, Htwo, Hcnt, Hmsg, Hr1, Hpe1, Hh, Hemds.
  pose proof (num_pairs_nonneg N) as HT.
  destruct (PairwiseEMD_compute_runs s1) as (c & Hc & Hrun);
    [done|by rewrite Hpe1|by rewrite Hnum|done|].
  rewrite Hnum in Hc.
  eexists _, _, c. split; [exact Hrun|]. split; [done|]. split.
  - intros k ks Hk.
    destruct (foldl_dispatch_frame s1 ks) as (FA & FB & _ & _ & _ & Ft & _).
    apply (pair_indices_lower _ k N); [by rewrite Ft|by rewrite FA|
      by rewrite FB|lia|done].
  - intros i thread Hi.
    assert (Hsel : storage_selected s1) by by apply init_storage_selected.
    destruct (foldl_dispatch_frame s1 (seqZ 0 c))
      as (FA & FB & _ & _ & Fs & Ft & _ & _ & Fr & _).
    unfold emd.
    change (nevA_ (dispatched s1 c)) with (nevA_ (foldl dispatch s1 (seqZ 0 c))).
    change (nevB_ (dispatched s1 c)) with (nevB_ (foldl dispatch s1 (seqZ 0 c))).
    change (request_mode_ (dispatched s1 c))
      with (request_mode_ (foldl dispatch s1 (seqZ 0 c))).
    change (emd_storage_ (dispatched s1 c))
      with (emd_storage_ (foldl dispatch s1 (seqZ 0 c))).
    change (emds_ (dispatched s1 c))
      with (emds_ (foldl dispatch s1 (seqZ 0 c))).
    rewrite FA, FB, Fr, Fs, HA, HB, Hr1.
    rewrite (decide_False (P := i < 0)) by lia.
    rewrite (decide_False (P := _ ∨ _)) by lia.
    unfold storage_selected in Hsel. rewrite Htwo in Hsel.
    unfold have_external_emd_handler in *. rewrite Hh in Hsel.
    destruct (handler_ s0) as [h|].
    + rewrite Hsel. by rewrite decide_True.
    + destruct (store_sym_emds_flattened_ s1) eqn:Hflat; rewrite Hsel.
      * rewrite decide_False by done.
        rewrite (decide_True (P := FlattenedSymmetric = _)) by done.
        by rewrite decide_True.
      * rewrite !decide_False by done. do 2 f_equal.
        rewrite (foldl_dispatch_keeps_diagonal s1 N i);
          [|done|done|done|lia|done|lia|].
        -- rewrite Hemds.
           assert (Hf : store_sym_emds_flattened_ s1
                        = store_sym_emds_flattened_ s0).
           { unfold s1, init. rewrite Hreq. done. }
           rewrite <- Hf, Hflat. apply vec_get_replicate.
        -- apply Forall_forall. intros k Hk%elem_of_seqZ. lia.
Qed.

End Pairwise_facts.

(** ** Concrete runs *)

Abbreviation line_compute := (compute line_ns_compute line_fill_distances).
Abbreviation line_compute_self :=
  (compute_self line_ns_compute line_fill_distances).
Abbreviation line_dispatch := (dispatch line_ns_compute line_fill_distances).
Abbreviation line_pair_result :=
  (pair_result line_ns_compute line_fill_distances).

(** C1 as stated fails for [double]: for [A = [0.2]] and [B = [0.9]]
    (unequal totals, [norm] false, computed distances) the particle goes to
    A with weight [0.9 - 0.2], and the padded supplies sum to
    0.8999999999999999 against 0.9; after scaling, to 0.9999999999999999
    against 1. *)
Lemma padded_totals_differ_in_binary64 :
  let p := add_fictitious binary64_emd event_02 event_09 in
  let w := ns_weights (network_simplex_ p) in
  let w' := ns_weights (network_simplex_ (scale_weights p event_02 event_09)) in
  let supply (buf : list float) :=
    foldl vadd vzero (take (Z.to_nat (n0_ p)) buf) in
  let demand (buf : list float) :=
    foldl vadd vzero (take (Z.to_nat (n1_ p)) (drop (Z.to_nat (n0_ p)) buf)) in
  (norm_ binary64_emd = false ∧ external_dists_ binary64_emd = false
   ∧ total_weight event_02 = weights_sum event_02
   ∧ total_weight event_09 = weights_sum event_09
   ∧ veqb (total_weight event_02) (total_weight event_09) = false)
  ∧ (extra_ p = Zero ∧ n0_ p = 2 ∧ n1_ p = 1)
  ∧ (supply w = 0x1.cccccccccccccp-1%float
     ∧ demand w = 0x1.ccccccccccccdp-1%float
     ∧ veqb (supply w) (demand w) = false)
  ∧ (supply w' = 0x1.fffffffffffffp-1%float ∧ demand w' = 1%float
     ∧ veqb (supply w') (demand w') = false).
Proof. vm_compute. repeat split; reflexivity. Qed.

(** C1 (amended), on the same two events; the solver and the ground
    distances, which come after the padding, are taken trivial. *)
Lemma compute_pads_lighter_side_witness :
  let Δ := vsub (total_weight event_09) (total_weight event_02) in
  let p := add_fictitious binary64_emd event_02 event_09 in
  let w := ns_weights (network_simplex_ p) in
  (extra_ p = Zero ∧ n0_ p = 2 ∧ n1_ p = 1)
  ∧ foldl vadd vzero (take (Z.to_nat (n0_ p)) w)
    = vadd (total_weight event_02) Δ.
Proof.
  intros Δ p w.
  assert (Hnorm : norm_ binary64_emd = false) by reflexivity.
  assert (Hext : external_dists_ binary64_emd = false) by reflexivity.
  assert (Hne : veqb Δ vzero = false) by (vm_compute; reflexivity).
  assert (Hpos : vltb vzero Δ = true) by (vm_compute; reflexivity).
  assert (Hs0 : total_weight event_02 = weights_sum event_02) by reflexivity.
  assert (Hs9 : total_weight event_09 = weights_sum event_09) by reflexivity.
  destruct (compute_pads_lighter_side (λ ns _ _, (ns, Success))
              (λ _ _ _ dists _, dists) binary64_emd event_02 event_09
              Hnorm Hext Hne) as (_ & _ & Hzero & _).
  destruct (Hzero Hpos) as (Hx & H0 & H1 & _ & Hsum).
  exact (conj (conj Hx (conj H0 H1)) (proj1 (Hsum Hs0 Hs9))).
Defined.

(** C9, on a solver with [n0 = 3] and [n1 = 4]. *)
Lemma flow_wraps_and_checks_witness :
  flow flow_example (-1) (-1) = flow flow_example 2 3
  ∧ flow flow_example 3 0 = inl (OutOfRange "EMD::flow - Indices out of range").
Proof.
  destruct (flow_wraps_and_checks flow_example (-1) (-1)) as (_ & _ & Hex).
  destruct (Hex eq_refl eq_refl) as (H1 & _ & H3).
  exact (conj H1 H3).
Defined.

(** C3, for five events. *)
Lemma triangular_enumeration_bijective_witness :
  let s := init (line_pairwise false (-10) true false) 5 in
  pair_indices s <$> seqZ 0 10
  = [(1, 0); (4, 3); (4, 2); (4, 1); (4, 0);
     (2, 0); (2, 1); (3, 2); (3, 1); (3, 0)].
Proof.
  intros s.
  destruct (triangular_enumeration_bijective s 5 eq_refl eq_refl eq_refl
              ltac:(lia)) as (_ & _ & H5).
  exact (proj2 (H5 eq_refl)).
Defined.

(** C5 as stated fails: after a self-pairs batch with an external handler,
    [emd(0, 0)] throws instead of returning zero. *)
Lemma self_distance_raises_with_handler :
  match line_compute_self
          (set_external_emd_handler (line_pairwise false (-10) true false) [])
          [point_event 1 0; point_event 1 5] with
  | Some (s', None) =>
      (emd line_ns_compute line_fill_distances s' 0 0 0).2
      = inl (LogicError
          "EMD requested but external handler provided, so no EMDs stored")
  | _ => False
  end.
Proof. vm_compute. reflexivity. Qed.

(** C5 (amended), on three events in dense symmetric storage. *)
Lemma self_distance_zero_when_stored_witness :
  ∃ s' exn,
    line_compute_self (line_pairwise false (-10) false false)
      [point_event 1 0; point_event 1 1; point_event 1 3]
    = Some (s', exn)
    ∧ emd line_ns_compute line_fill_distances s' 2 2 0 = (s', inr 0%Qc).
Proof.
  destruct (self_distance_zero_when_stored line_ns_compute line_fill_distances
              (line_pairwise false (-10) false false)
              [point_event 1 0; point_event 1 1; point_event 1 3]
              eq_refl ltac:(vm_compute; discriminate))
    as (s' & exn & c & Hrun & _ & _ & Hzero).
  exists s', exn. split; [exact Hrun|].
  exact (Hzero 2 0 ltac:(simpl; lia)).
Defined.

(** C6 as stated fails: the second pair of the batch has status
    [SupplyMismatch], and still the handler is called for it (first part)
    and, without a handler, the result store is written for it with the
    cost the solver had left from the pair before (second part). *)
Lemma failed_pair_is_handled_and_stored :
  (let s := line_dispatch (unnormalised_batch true) 0 in
   (line_pair_result s 1).2 = SupplyMismatch
   ∧ length <$> handler_ s = Some 1%nat
   ∧ length <$> handler_ (line_dispatch s 1) = Some 2%nat)
  ∧ (let s := line_dispatch (unnormalised_batch false) 0 in
     (line_pair_result s 1).2 = SupplyMismatch
     ∧ fractions (emds_ s) = [5%Q; 0%Q; 0%Q]
     ∧ fractions (emds_ (line_dispatch s 1)) = [5%Q; 0%Q; 5%Q]).
Proof. vm_compute. repeat split; reflexivity. Qed.

(** C6 (amended), at the second pair of that batch. *)
Lemma dispatch_handles_or_stores_every_pair_witness :
  let s := foldl line_dispatch (unnormalised_batch true) [0] in
  error_messages_ (line_dispatch s 1)
  = error_messages_ s
    ++ (if is_success (line_pair_result s 1).2 then []
        else [failure_message (line_pair_result s 1).2
                (pair_indices s 1).1 (pair_indices s 1).2]).
Proof.
  assert (Hreq : request_mode_ (set_external_emd_handler
                   (line_pairwise true (-10) true false) []) = false)
    by reflexivity.
  assert (Hinit :
    unnormalised_batch true
    = set_events (init (set_external_emd_handler
                          (line_pairwise true (-10) true false) []) 3)
        [point_event 1 0; point_event 1 5; point_event 2 7]
    ∨ unnormalised_batch true
      = set_events (init_two (set_external_emd_handler
                                (line_pairwise true (-10) true false) []) 3 0)
          [point_event 1 0; point_event 1 5; point_event 2 7])
    by (left; reflexivity).
  pose proof (dispatch_handles_or_stores_every_pair
                line_ns_compute line_fill_distances _ _ _ _ _ [0] 1
                Hreq Hinit) as H.
  cbv zeta in H. destruct H as [H _]. intros s. exact H.
Defined.

(** C7, on a batch of three pairs in chunks of two. *)
Lemma batch_raises_earliest_failure_between_chunks_witness :
  ∃ c, PairwiseEMD_compute line_ns_compute line_fill_distances raising_batch
       = Some (dispatched line_ns_compute line_fill_distances raising_batch c,
               match error_messages_
                       (dispatched line_ns_compute line_fill_distances
                          raising_batch c) with
               | m :: _ => Some (RuntimeError m)
               | [] => None
               end).
Proof.
  assert (Hpe : print_every_ (line_pairwise true 2 true true) ≠ 0)
    by (vm_compute; discriminate).
  assert (Hinit :
    raising_batch
    = set_events (init (line_pairwise true 2 true true) 3)
        [point_event 2 0; point_event 1 5; point_event 1 7]
    ∨ (0 <= 3 * 0
       ∧ raising_batch
         = set_events (init_two (line_pairwise true 2 true true) 3 0)
             [point_event 2 0; point_event 1 5; point_event 1 7]))
    by (left; reflexivity).
  destruct (batch_raises_earliest_failure_between_chunks
              line_ns_compute line_fill_distances
              (line_pairwise true 2 true true) raising_batch _ _ _
              eq_refl eq_refl Hpe Hinit)
    as (c & _ & Hrun & _).
  exists c. exact Hrun.
Defined.

(** That batch, run: the first pair fails, the second pair of the same
    chunk is still computed and stored, the third is never dispatched, and
    the first message is raised. *)
Example raising_batch_run :
  match PairwiseEMD_compute line_ns_compute line_fill_distances raising_batch
  with
  | Some (s', e) =>
      emd_counter_ s' = 2 ∧ fractions (emds_ s') = [0%Q; 0%Q; 2%Q]
      ∧ e = Some (RuntimeError
            "PairwiseEMD::compute - Issue with EMD between events (1, 0), error code 2")
  | None => False
  end.
Proof. vm_compute. repeat split; reflexivity. Qed.

(** C8 as stated fails: in request mode [init(3)] returns, with the sizes
    recorded. *)
Lemma init_returns_in_request_mode :
  let s := set_request_mode (line_pairwise false (-10) true false) true in
  request_mode_ s = true
  ∧ (nevA_ s, nevB_ s, num_emds_ s) = (0, 0, 0)
  ∧ (nevA_ (init s 3), nevB_ (init s 3), num_emds_ (init s 3)) = (3, 3, 3).
Proof. vm_compute. repeat split; reflexivity. Qed.

(** C8 (amended), on a freshly constructed object in request mode. *)
Lemma request_mode_compute_raises_init_records_sizes_witness :
  let s := set_request_mode (line_pairwise false (-10) true false) true in
  PairwiseEMD_compute line_ns_compute line_fill_distances s
  = Some (s, Some (RuntimeError "cannot compute pairwise EMDs in request mode")).
Proof.
  intros s.
  exact (proj1 (request_mode_compute_raises_init_records_sizes
                  line_ns_compute line_fill_distances s eq_refl)).
Defined.

(** C4. The loop of lines 649-650 zeroes [full_emds_[i*i]], not the
    diagonal entries [full_emds_[i*nevB + i]]: the diagonal is zero only
    where [resize] has just filled it.  On a dense buffer kept from a
    smaller view (request mode keeps [init] from clearing it), with
    flattened storage of four events and the six stored distances in
    place, the 4 x 4 view has the stale entry 7 at position [(1, 1)],
    while all its off-diagonal entries are the stored distances. *)
Theorem emds_leaves_stale_diagonal :
  match stale_view_trace with
  | Some (inr view3, s, inr view4) =>
      fractions view3 = [0; 1; 3; 1; 0; 7; 3; 7; 0]%Q
      ∧ (emd_storage_ s = FlattenedSymmetric
         ∧ (nevA_ s, nevB_ s, num_emds_ s) = (4, 4, 6)
         ∧ fractions (emds_ s) = [1; 3; 7; 2; 6; 4]%Q)
      ∧ fractions view4
        = [0; 1; 3; 7; 1; 7; 2; 6; 3; 2; 0; 4; 7; 6; 4; 0]%Q
      ∧ Qcanon.this (vec_get view4 (1 * 4 + 1)) = 7%Q
  | _ => False
  end.
Proof. vm_compute. repeat split; reflexivity. Qed.

(** * Further properties

    What the solver receives from [compute], the flow accessors, the batch
    loop and its failure log, the result store and its accessors, the
    constructors, and the entry points that take proto events. *)

(** ** The single-pair solver *)

Section EMD_more.

Context {V : Type} `{VO : ValueOps V} {Particle : Type}.
Variable ns_compute : @NetworkSimplex V → Z → Z → @NetworkSimplex V * EMDStatus.
Variable fill_distances :
  V * V → list Particle → list Particle → list V → ExtraParticle → list V.

Implicit Types (e : @EMD V) (ev : @Event V Particle).

(** The combined buffer, whichever way the fictitious particle goes: the
    two events' weights with the particle's weight after the lighter one,
    and one spare slot. *)
Lemma add_fictitious_buffer e ev0 ev1 :
  let p := add_fictitious e ev0 ev1 in
  let Δ := vsub (total_weight ev1) (total_weight ev0) in
  ∃ pad0 pad1 slot,
    ns_weights (network_simplex_ p)
    = (weights ev0 ++ pad0) ++ (weights ev1 ++ pad1) ++ [slot]
    ∧ n0_ p = Z.of_nat (length (weights ev0 ++ pad0))
    ∧ n1_ p = Z.of_nat (length (weights ev1 ++ pad1))
    ∧ (pad0, pad1)
      = if norm_ e || external_dists_ e || veqb Δ vzero then ([], [])
        else if vltb vzero Δ then ([Δ], []) else ([], [vopp Δ]).
Proof.
  intros p Δ. subst p.
  destruct (norm_ e || external_dists_ e || veqb Δ vzero) eqn:Hc.
  - destruct (add_fictitious_neither e ev0 ev1 Hc) as (_ & H0 & H1 & slot & Hw).
    exists [], [], slot. rewrite !app_nil_r. by rewrite Hw.
  - destruct (vltb vzero Δ) eqn:Hlt.
    + destruct (add_fictitious_zero e ev0 ev1 Hc Hlt) as (_ & H0 & H1 & slot & Hw).
      exists [Δ], [], slot. rewrite !app_nil_r, length_app. cbn [length].
      split; [by rewrite Hw, <- app_assoc|]. split; [lia|]. split; [lia|done].
    + destruct (add_fictitious_one e ev0 ev1 Hc Hlt) as (_ & H0 & H1 & slot & Hw).
      exists [], [vopp Δ], slot. rewrite !app_nil_r, length_app. cbn [length].
      split; [by rewrite Hw, <- !app_assoc|]. split; [lia|]. split; [lia|done].
Qed.

(** X1. With [norm] set, with external distances, or with equal total
    weights, [compute] adds no fictitious particle, also when the totals
    differ: the counts are the events' numbers of particles, and the solver
    receives the two events' weights one after the other, divided by
    [max(total(A), total(B))] unless [norm] is set, before one spare
    entry. *)
Theorem compute_without_padding e ev0 ev1 :
  norm_ e = true ∨ external_dists_ e = true
  ∨ veqb (vsub (total_weight ev1) (total_weight ev0)) vzero = true →
  let r := (compute ns_compute fill_distances e ev0 ev1).1 in
  let p := prepare fill_distances e ev0 ev1 in
  let scale := vmax (total_weight ev0) (total_weight ev1) in
  extra_ r = Neither
  ∧ n0_ r = Z.of_nat (length (weights ev0))
  ∧ n1_ r = Z.of_nat (length (weights ev1))
  ∧ (n0_ p = n0_ r ∧ n1_ p = n1_ r)
  ∧ ∃ slot,
      ns_weights (network_simplex_ p)
      = if norm_ e then weights ev0 ++ weights ev1 ++ [slot]
        else (λ w, vdiv w scale) <$> (weights ev0 ++ weights ev1 ++ [slot]).
Proof.
  intros Hc r p scale.
  assert (Hc' : norm_ e || external_dists_ e
                || veqb (vsub (total_weight ev1) (total_weight ev0)) vzero = true).
  { destruct Hc as [->|[->| ->]]; [done| |];
      by rewrite ?orb_true_r. }
  destruct (add_fictitious_neither e ev0 ev1 Hc') as (Hx & H0 & H1 & slot & Hw).
  destruct (compute_keeps_counts ns_compute fill_distances e ev0 ev1)
    as (Hr0 & Hr1 & Hrx & _ & _).
  destruct (prepare_counts fill_distances e ev0 ev1) as (Hp0 & Hp1 & _ & _).
  fold r in Hr0, Hr1, Hrx. fold p in Hp0, Hp1.
  split; [congruence|]. split; [congruence|]. split; [congruence|].
  split; [split; congruence|].
  exists slot. unfold p. rewrite prepare_weights. unfold scale_weights.
  assert (Hn : norm_ (add_fictitious e ev0 ev1) = norm_ e)
    by apply add_fictitious_keeps.
  rewrite Hn. destruct (norm_ e); [done|]. cbn. by rewrite Hw.
Qed.

(** X2. A solver object can be used for one pair after another: the
    counts and the [n0 + n1] weights [compute] hands to the solver are the
    same whatever the object computed before, given the same [norm] and
    [external_dists]; the buffer holds [n0 + n1 + 1] entries, and only the
    spare last one can carry an old value. *)
Theorem compute_weights_ignore_old_buffer e e' ev0 ev1 :
  norm_ e = norm_ e' → external_dists_ e = external_dists_ e' →
  let p := prepare fill_distances e ev0 ev1 in
  let p' := prepare fill_distances e' ev0 ev1 in
  n0_ p = n0_ p' ∧ n1_ p = n1_ p'
  ∧ length (ns_weights (network_simplex_ p)) = Z.to_nat (n0_ p + n1_ p + 1)
  ∧ take (Z.to_nat (n0_ p + n1_ p)) (ns_weights (network_simplex_ p))
    = take (Z.to_nat (n0_ p + n1_ p)) (ns_weights (network_simplex_ p')).
Proof.
  intros Hn Hx p p'.
  destruct (add_fictitious_buffer e ev0 ev1) as (a0 & a1 & slot & Hw & H0 & H1 & Hpad).
  destruct (add_fictitious_buffer e' ev0 ev1)
    as (b0 & b1 & slot' & Hw' & H0' & H1' & Hpad').
  rewrite <- Hn, <- Hx, <- Hpad in Hpad'. injection Hpad' as -> ->.
  destruct (prepare_counts fill_distances e ev0 ev1) as (Hp0 & Hp1 & _ & _).
  destruct (prepare_counts fill_distances e' ev0 ev1) as (Hp0' & Hp1' & _ & _).
  fold p in Hp0, Hp1. fold p' in Hp0', Hp1'.
  assert (Hna : norm_ (add_fictitious e ev0 ev1) = norm_ e)
    by apply add_fictitious_keeps.
  assert (Hna' : norm_ (add_fictitious e' ev0 ev1) = norm_ e')
    by apply add_fictitious_keeps.
  split; [congruence|]. split; [congruence|].
  unfold p, p'. rewrite !prepare_weights. fold p p'.
  rewrite Hp0, Hp1, H0, H1.
  set (A := (weights ev0 ++ a0) ++ (weights ev1 ++ a1)).
  assert (HA : Z.to_nat (Z.of_nat (length (weights ev0 ++ a0))
                         + Z.of_nat (length (weights ev1 ++ a1)))
               = length A) by (unfold A; rewrite (length_app (_ ++ _)); lia).
  assert (HA1 : Z.to_nat (Z.of_nat (length (weights ev0 ++ a0))
                          + Z.of_nat (length (weights ev1 ++ a1)) + 1)
                = S (length A)) by lia.
  rewrite HA, HA1.
  rewrite (app_assoc _ _ [slot]) in Hw. rewrite (app_assoc _ _ [slot']) in Hw'.
  fold A in Hw, Hw'.
  unfold scale_weights. rewrite Hna, Hna', <- Hn.
  destruct (norm_ e); cbn.
  - rewrite Hw, Hw', !take_app_length.
    split; [|done]. rewrite length_app. simpl. lia.
  - rewrite Hw, Hw', !fmap_app. split.
    + rewrite length_app, length_fmap. simpl. lia.
    + by rewrite !take_app_length' by (by rewrite length_fmap).
Qed.

(** X3. [flows()] and [flow(i, j)] agree: when the solver's flow buffer
    holds at least [n0*n1] entries, [flows()] has length [n0*n1], its entry
    [i*n1 + j] is what [flow(i, j)] returns for indices in range, and
    [flow(i - n0, j - n1)] returns the same. *)
Theorem flows_agree_with_flow e :
  0 <= n0_ e → 0 <= n1_ e →
  n0_ e * n1_ e <= Z.of_nat (length (ns_flows (network_simplex_ e))) →
  length (flows e) = Z.to_nat (n0_ e * n1_ e)
  ∧ ∀ i j, 0 <= i < n0_ e → 0 <= j < n1_ e →
      flow e i j = inr (vec_get (flows e) (i * n1_ e + j))
      ∧ flow e (i - n0_ e) (j - n1_ e) = flow e i j.
Proof.
  intros H0 H1 Hlen. split.
  - unfold flows. rewrite length_fmap, length_take. nia.
  - intros i j Hi Hj.
    assert (Hin : 0 <= i * n1_ e + j < n0_ e * n1_ e) by nia.
    split.
    + unfold flow.
      rewrite (decide_False (P := i < 0)), (decide_False (P := j < 0)) by lia.
      cbv zeta. rewrite decide_False by lia. f_equal.
      unfold flow_raw, flows, vec_get. rewrite !decide_True by lia.
      rewrite !list_lookup_total_alt, list_lookup_fmap.
      rewrite lookup_take_lt by lia.
      destruct (lookup_lt_is_Some_2 (ns_flows (network_simplex_ e))
                  (Z.to_nat (i * n1_ e + j)) ltac:(lia)) as [x ->].
      done.
    + unfold flow.
      rewrite (decide_True (P := i - n0_ e < 0)),
        (decide_True (P := j - n1_ e < 0)) by lia.
      rewrite (decide_False (P := i < 0)), (decide_False (P := j < 0)) by lia.
      replace (i - n0_ e + n0_ e) with i by lia.
      by replace (j - n1_ e + n1_ e) with j by lia.
Qed.

(** X4. The ground distances the solver receives.  With external
    distances [compute] leaves the buffer as the caller filled it, and adds
    no fictitious particle; otherwise the buffer is what [fill_distances]
    makes of it for the two events' particles, told where the fictitious
    particle is.  When the solver leaves the distances alone, [dists()]
    after [compute] is the first [n0*n1] of them; and [compute] changes
    neither [external_dists] nor [R] and [beta]. *)
Theorem compute_ground_distances e ev0 ev1 :
  let p := prepare fill_distances e ev0 ev1 in
  let r := (compute ns_compute fill_distances e ev0 ev1).1 in
  let old := ns_dists (network_simplex_ e) in
  (external_dists_ e = true →
     ns_dists (network_simplex_ p) = old ∧ extra_ r = Neither)
  ∧ (external_dists_ e = false →
     ns_dists (network_simplex_ p)
     = fill_distances (pairwise_distance_ e) (particles ev0) (particles ev1)
         old (extra_ r))
  ∧ (ns_dists (ns_compute (network_simplex_ p) (n0_ p) (n1_ p)).1
     = ns_dists (network_simplex_ p) →
     dists r
     = take (Z.to_nat (n0_ r * n1_ r)) (ns_dists (network_simplex_ p)))
  ∧ (external_dists_ r = external_dists_ e
     ∧ pairwise_distance_ r = pairwise_distance_ e).
Proof.
  intros p r old.
  destruct (add_fictitious_keeps e ev0 ev1) as (Hn & Hx & _ & Hpd & Hd).
  destruct (compute_keeps_counts ns_compute fill_distances e ev0 ev1)
    as (Hr0 & Hr1 & Hrx & _ & _).
  destruct (prepare_counts fill_distances e ev0 ev1) as (Hp0 & Hp1 & _ & _).
  fold r in Hr0, Hr1, Hrx. fold p in Hp0, Hp1.
  assert (Hsx : external_dists_ (scale_weights (add_fictitious e ev0 ev1) ev0 ev1)
                = external_dists_ e).
  { unfold scale_weights. by destruct (norm_ _). }
  assert (Hsd : ns_dists (network_simplex_
                  (scale_weights (add_fictitious e ev0 ev1) ev0 ev1)) = old).
  { unfold scale_weights. by destruct (norm_ _). }
  assert (Hsp : pairwise_distance_
                  (scale_weights (add_fictitious e ev0 ev1) ev0 ev1)
                = pairwise_distance_ e).
  { unfold scale_weights. by destruct (norm_ _). }
  assert (Hse : extra_ (scale_weights (add_fictitious e ev0 ev1) ev0 ev1)
                = extra_ r).
  { rewrite Hrx. unfold scale_weights. by destruct (norm_ _). }
  split; [|split; [|split]].
  - intros Hext. split.
    + unfold p, prepare, store_dists. by rewrite Hsx, Hext.
    + rewrite Hrx.
      apply (add_fictitious_neither e ev0 ev1).
      by rewrite Hext, orb_true_r.
  - intros Hext. unfold p, prepare, store_dists. rewrite Hsx, Hext. cbn.
    by rewrite Hsd, Hsp, Hse.
  - intros Hkeep. unfold dists. rewrite <- Hkeep. f_equal.
    unfold r, compute, run_solver. fold p.
    by destruct (ns_compute _ _ _).
  - unfold r, compute, run_solver. fold p.
    destruct (ns_compute _ _ _). cbn.
    unfold p, prepare, store_dists. rewrite Hsx.
    destruct (external_dists_ e); cbn; by rewrite ?Hsx, ?Hsp.
Qed.

End EMD_more.

(** ** The batch and its results *)

Section Batch_facts.

Context {V : Type} `{VO : ValueOps V} {Particle : Type}.
Variable ns_compute : @NetworkSimplex V → Z → Z → @NetworkSimplex V * EMDStatus.
Variable fill_distances :
  V * V → list Particle → list Particle → list V → ExtraParticle → list V.

Implicit Types (s : @PairwiseEMD V Particle) (k : Z).

Abbreviation dispatch := (dispatch ns_compute fill_distances).
Abbreviation pair_result := (pair_result ns_compute fill_distances).
Abbreviation compute_loop := (compute_loop ns_compute fill_distances).
Abbreviation PairwiseEMD_compute :=
  (PairwiseEMD_compute ns_compute fill_distances).
Abbreviation PairwiseEMD_compute_fuel :=
  (PairwiseEMD_compute_fuel ns_compute fill_distances).
Abbreviation compute_self := (compute_self ns_compute fill_distances).
Abbreviation compute_cross := (compute_cross ns_compute fill_distances).
Abbreviation dispatched := (dispatched ns_compute fill_distances).
Abbreviation pair_value := (pair_value ns_compute fill_distances).
Abbreviation pair_failure := (pair_failure ns_compute fill_distances).
Abbreviation emd := (emd ns_compute fill_distances).

(** *** The state after [n] pairs *)

Lemma dispatched_frame s (n : Z) :
  let s' := dispatched s n in
  nevA_ s' = nevA_ s ∧ nevB_ s' = nevB_ s ∧ num_emds_ s' = num_emds_ s
  ∧ emd_storage_ s' = emd_storage_ s
  ∧ two_event_sets_ s' = two_event_sets_ s ∧ events_ s' = events_ s
  ∧ request_mode_ s' = request_mode_ s ∧ full_emds_ s' = full_emds_ s
  ∧ throw_on_error_ s' = throw_on_error_ s
  ∧ have_external_emd_handler s' = have_external_emd_handler s.
Proof.
  destruct (foldl_dispatch_frame ns_compute fill_distances s (seqZ 0 n))
    as (?&?&?&?&?&?&?&?&?&?&?&?&?&?).
  unfold dispatched. cbn. done.
Qed.

Lemma pair_indices_dispatched s (n : Z) k :
  pair_indices (dispatched s n) k = pair_indices s k.
Proof.
  destruct (dispatched_frame s n) as (HA & HB & _ & _ & Ht & _).
  unfold pair_indices. by rewrite HA, HB, Ht.
Qed.

Lemma pair_events_dispatched s (n : Z) k :
  pair_events (dispatched s n) k = pair_events s k.
Proof.
  destruct (dispatched_frame s n) as (HA & HB & _ & _ & Ht & He & _).
  unfold pair_events. rewrite pair_indices_dispatched.
  by rewrite HA, Ht, He.
Qed.

Lemma index_symmetric_dispatched s (n i j : Z) :
  index_symmetric (dispatched s n) i j = index_symmetric s i j.
Proof.
  destruct (dispatched_frame s n) as (HA & _ & Hnum & _).
  unfold index_symmetric. by rewrite HA, Hnum.
Qed.

Lemma dispatched_succ s (n : Z) :
  0 <= n →
  dispatched s (n + 1) = set_emd_counter (dispatch (dispatched s n) n) (n + 1).
Proof.
  intros Hn. unfold dispatched.
  rewrite seqZ_app by lia. rewrite Z.add_0_l, foldl_app.
  change (seqZ n 1) with [n]. cbn [foldl].
  by rewrite dispatch_set_emd_counter.
Qed.

(** What the pair of flat index [n] adds, in the terms of the batch's
    starting state. *)
Lemma dispatched_succ_effect s (n : Z) :
  0 <= n →
  let s1 := dispatched s n in
  let s2 := dispatched s (n + 1) in
  let i := (pair_indices s n).1 in
  let j := (pair_indices s n).2 in
  error_messages_ s2 = error_messages_ s1 ++ pair_failure s n
  ∧ if two_event_sets_ s then
      match handler_ s1 with
      | Some h =>
          handler_ s2 = Some (h ++ [(pair_value s n, pair_weight s n)])
          ∧ emds_ s2 = emds_ s1
      | None =>
          handler_ s2 = None
          ∧ emds_ s2 = vec_set (emds_ s1) n (pair_value s n)
      end
    else
      match emd_storage_ s with
      | FlattenedSymmetric =>
          handler_ s2 = handler_ s1
          ∧ emds_ s2
            = vec_set (emds_ s1) (index_symmetric s i j) (pair_value s n)
      | External =>
          handler_ s2
          = (λ h, h ++ [(pair_value s n, pair_weight s n)]) <$> handler_ s1
          ∧ emds_ s2 = emds_ s1
      | FullSymmetric =>
          handler_ s2 = handler_ s1
          ∧ emds_ s2
            = vec_set (vec_set (emds_ s1) (j * nevB_ s + i) (pair_value s n))
                (i * nevB_ s + j) (pair_value s n)
      | Full => handler_ s2 = handler_ s1 ∧ emds_ s2 = emds_ s1
      end.
Proof.
  intros Hn s1 s2 i j.
  destruct (dispatched_frame s n) as (HA & HB & Hnum & Hst & Ht & _).
  fold s1 in HA, HB, Hnum, Hst, Ht.
  destruct (dispatch_effect ns_compute fill_distances s1 n) as (Hmsg & _ & He).
  unfold s2. rewrite dispatched_succ by done. fold s1.
  change (error_messages_ (set_emd_counter ?x _)) with (error_messages_ x).
  change (handler_ (set_emd_counter ?x _)) with (handler_ x).
  change (emds_ (set_emd_counter ?x _)) with (emds_ x).
  unfold s1 in Hmsg, He.
  rewrite pair_indices_dispatched in Hmsg.
  rewrite pair_indices_dispatched, !pair_events_dispatched,
    index_symmetric_dispatched in He.
  fold s1 i j in Hmsg, He. rewrite Ht, Hst, HB in He.
  split; [exact Hmsg|]. exact He.
Qed.

(** The failure log: one message for each pair whose status was not
    [Success], in dispatch order. *)
Lemma error_messages_dispatched s (n : Z) :
  0 <= n →
  error_messages_ (dispatched s n)
  = error_messages_ s ++ concat (pair_failure s <$> seqZ 0 n).
Proof.
  intros Hn. rewrite <- (Z2Nat.id n) by done.
  induction (Z.to_nat n) as [|m IH].
  - change (seqZ 0 (Z.of_nat 0)) with (@nil Z). cbn. by rewrite app_nil_r.
  - replace (Z.of_nat (S m)) with (Z.of_nat m + 1) by lia.
    destruct (dispatched_succ_effect s (Z.of_nat m) ltac:(lia)) as [-> _].
    rewrite IH, seqZ_app by lia. rewrite Z.add_0_l, fmap_app, concat_app.
    change (seqZ (Z.of_nat m) 1) with [Z.of_nat m]. cbn [fmap list_fmap concat].
    by rewrite app_nil_r, app_assoc.
Qed.

(** With an external handler: one call for each pair, in dispatch order,
    and nothing stored. *)
Lemma handler_dispatched s (h0 : Handler) (n : Z) :
  0 <= n → handler_ s = Some h0 →
  (two_event_sets_ s = false → emd_storage_ s = External) →
  handler_ (dispatched s n)
  = Some (h0 ++ ((λ k, (pair_value s k, pair_weight s k)) <$> seqZ 0 n))
  ∧ emds_ (dispatched s n) = emds_ s.
Proof.
  intros Hn Hh Hst. rewrite <- (Z2Nat.id n) by done.
  induction (Z.to_nat n) as [|m IH].
  - change (seqZ 0 (Z.of_nat 0)) with (@nil Z). cbn. by rewrite app_nil_r.
  - replace (Z.of_nat (S m)) with (Z.of_nat m + 1) by lia.
    destruct IH as [IHh IHe].
    destruct (dispatched_succ_effect s (Z.of_nat m) ltac:(lia)) as [_ He].
    rewrite IHh in He.
    rewrite seqZ_app by lia. rewrite Z.add_0_l, fmap_app.
    change (seqZ (Z.of_nat m) 1) with [Z.of_nat m]. cbn [fmap list_fmap].
    rewrite app_assoc.
    destruct (two_event_sets_ s).
    + destruct He as [-> ->]. done.
    + rewrite Hst in He by done. destruct He as [-> ->]. done.
Qed.

Lemma concat_fmap_nil {A B} (f : A → list B) (l : list A) :
  Forall (λ x, f x = []) l → concat (f <$> l) = [].
Proof. induction 1 as [|x l Hx _ IH]; [done|]. cbn. by rewrite Hx, IH. Qed.

(** The state [init] and the storing of the events leave, for one event
    set or for two. *)
Lemma batch_start_ready s0 s (evs : list (@Event V Particle)) (nevA nevB : Z) :
  request_mode_ s0 = false →
  s = set_events (init s0 nevA) evs
  ∨ (0 <= nevA * nevB ∧ s = set_events (init_two s0 nevA nevB) evs) →
  request_mode_ s = false ∧ print_every_ s = print_every_ s0
  ∧ throw_on_error_ s = throw_on_error_ s0 ∧ 0 <= num_emds_ s
  ∧ emd_counter_ s = 0 ∧ error_messages_ s = []
  ∧ handler_ s = handler_ s0 ∧ full_emds_ s = [] ∧ storage_selected s
  ∧ (have_external_emd_handler s0 = true → emds_ s = []).
Proof.
  intros Hreq [->|[Hnn ->]].
  - destruct (init_self_ready s0 nevA evs Hreq)
      as (_ & _ & Hn & _ & Hc & Hm & Hr & Hp & Hh & Hf & Ht & He).
    rewrite Hn. repeat split; try done.
    + apply num_pairs_nonneg.
    + by apply init_storage_selected.
    + intros Hh0. by rewrite He, Hh0.
  - destruct (init_two_ready s0 nevA nevB evs Hreq)
      as (_ & _ & Hn & _ & Hc & Hm & Hr & Hp & Hh & Hf & Ht).
    rewrite Hn. repeat split; try done.
    + by apply init_two_storage_selected.
    + unfold init_two, have_external_emd_handler. rewrite Hreq. cbn.
      by destruct (handler_ s0).
Qed.

(** X5. A batch that does not stop on a failure dispatches every pair.
    From the state [init] and the storing of the events leave, the failure
    log after [n] pairs holds one message for each pair whose status was
    not [Success], in dispatch order; and when raise-on-error is off, or no
    pair fails, [compute()] ends with all [num_emds] pairs dispatched and
    throws nothing. *)
Theorem batch_dispatches_all_pairs_and_logs_failures s0 s
    (evs : list (@Event V Particle)) (nevA nevB : Z) :
  request_mode_ s0 = false → print_every_ s0 ≠ 0 →
  s = set_events (init s0 nevA) evs
  ∨ (0 <= nevA * nevB ∧ s = set_events (init_two s0 nevA nevB) evs) →
  (∀ n, 0 <= n →
     error_messages_ (dispatched s n) = concat (pair_failure s <$> seqZ 0 n))
  ∧ (throw_on_error_ s0 = false
     ∨ (∀ k, 0 <= k < num_emds_ s → pair_failure s k = []) →
     PairwiseEMD_compute s = Some (dispatched s (num_emds_ s), None)).
Proof.
  intros Hreq0 Hpe0 Hs.
  destruct (batch_start_ready s0 s evs nevA nevB Hreq0 Hs)
    as (Hreq & Hpe & Hthrow & Hnum & Hcnt & Hmsg & _).
  assert (Hlog : ∀ n, 0 <= n →
    error_messages_ (dispatched s n) = concat (pair_failure s <$> seqZ 0 n)).
  { intros n Hn. by rewrite error_messages_dispatched, Hmsg. }
  split; [exact Hlog|]. intros Hcase.
  unfold PairwiseEMD_compute, PairwiseEMD_compute_fuel.
  rewrite Hreq, Hcnt, Z.sub_0_r.
  pose proof (chunk_size_pos s ltac:(by rewrite Hpe) Hnum) as Hcs.
  destruct (compute_loop_chunks ns_compute fill_distances s (chunk_size s)
              (Z.to_nat (num_emds_ s)) 0 Hcs ltac:(lia) ltac:(lia))
    as (c & Hc & Hrun & Hstop & _).
  rewrite dispatched_zero in Hrun by done. rewrite Hrun.
  rewrite keep_dispatching_dispatched in Hstop.
  destruct (dispatched_frame s c) as (_ & _ & _ & _ & _ & _ & _ & _ & Ht & _).
  assert (Hquiet : throw_on_error_ s = true → c <= num_emds_ s →
            (∀ k, 0 <= k < num_emds_ s → pair_failure s k = []) →
            error_messages_ (dispatched s c) = []).
  { intros _ Hle Hall. rewrite Hlog by lia. apply concat_fmap_nil.
    apply Forall_forall. intros k Hk%elem_of_seqZ. apply Hall. lia. }
  assert (Hend : c = num_emds_ s).
  { destruct (decide (c < num_emds_ s)) as [Hlt|]; [|lia].
    rewrite bool_decide_eq_true_2 in Hstop by done.
    destruct Hcase as [Hno|Hall].
    - by rewrite Hthrow, Hno in Hstop.
    - destruct (throw_on_error_ s) eqn:Et; [|done].
      specialize (Hquiet eq_refl ltac:(lia) Hall).
      unfold dispatched in Hquiet.
      change (error_messages_ (set_emd_counter ?x _))
        with (error_messages_ x) in Hquiet.
      unfold errored in Hstop. by rewrite Hquiet in Hstop. }
  subst c. do 2 f_equal. rewrite Ht.
  destruct (throw_on_error_ s) eqn:Et; [|done].
  destruct Hcase as [Hno|Hall]; [congruence|].
  by rewrite Hquiet by (done || lia).
Qed.

(** X6. With an external handler nothing is stored.  After [n] pairs of
    a batch the handler, as [external_emd_handler()] returns it, has
    received, after the calls it had before, one call for each pair in
    dispatch order, with the pair's distance and the product of the two
    event weights; the result vector is empty, and [emds()] and
    [emd(i, j)] throw [logic_error]. *)
Theorem handler_receives_every_dispatched_pair s0 s
    (evs : list (@Event V Particle)) (nevA nevB : Z) (h0 : Handler) (n : Z) :
  request_mode_ s0 = false → handler_ s0 = Some h0 →
  s = set_events (init s0 nevA) evs
  ∨ (0 <= nevA * nevB ∧ s = set_events (init_two s0 nevA nevB) evs) →
  0 <= n →
  let s' := dispatched s n in
  external_emd_handler s'
  = inr (h0 ++ ((λ k, (pair_value s k, pair_weight s k)) <$> seqZ 0 n))
  ∧ emds_ s' = []
  ∧ (∀ flattened, emds s' flattened = (s', inl (LogicError "No EMDs stored")))
  ∧ (∀ i j thread, 0 <= i < nevA_ s → 0 <= j < nevB_ s →
       emd s' i j thread
       = (s', inl (LogicError
            "EMD requested but external handler provided, so no EMDs stored"))).
Proof.
  intros Hreq0 Hh0 Hs Hn s'.
  destruct (batch_start_ready s0 s evs nevA nevB Hreq0 Hs)
    as (Hreq & _ & _ & _ & _ & _ & Hh & _ & Hsel & Hemds).
  rewrite Hh0 in Hh.
  unfold storage_selected, have_external_emd_handler in Hsel, Hemds.
  rewrite Hh in Hsel. rewrite Hh0 in Hemds.
  destruct (handler_dispatched s h0 n Hn Hh (λ _, Hsel)) as [Hlog Hkeep].
  destruct (dispatched_frame s n) as (HA & HB & _ & Hst & _ & _ & Hr & _).
  fold s' in Hlog, Hkeep, HA, HB, Hst, Hr.
  split; [unfold external_emd_handler; by rewrite Hlog|].
  split; [by rewrite Hkeep, Hemds|]. split.
  - intros flattened. unfold emds. rewrite Hst, Hsel. by rewrite decide_True.
  - intros i j thread Hi Hj. unfold emd.
    rewrite HA, HB, Hr, Hreq, Hst, Hsel.
    rewrite (decide_False (P := i < 0)), (decide_False (P := j < 0)) by lia.
    cbv zeta. rewrite decide_False by lia. by rewrite decide_True.
Qed.

(** *** The condensed offsets *)

(** Twice the offset of the pair [(i, j)], [i < j], without the halving. *)
Lemma index_symmetric_twice s (N i j : Z) :
  nevA_ s = N → num_emds_ s = (N * (N - 1)) ÷ 2 →
  0 <= i < j → j < N →
  2 * index_symmetric s i j = i * (2 * N - i - 1) + 2 * (j - i - 1).
Proof.
  intros HA Hnum Hi Hj. unfold index_symmetric. rewrite HA, Hnum.
  pose proof (twice_num_pairs N ltac:(lia)).
  pose proof (twice_num_pairs (N - i) ltac:(lia)).
  rewrite decide_True by lia.
  replace (N - i - 1) with (N - i - 1) in * by lia. nia.
Qed.

Lemma index_symmetric_inj s (N i j a b : Z) :
  nevA_ s = N → num_emds_ s = (N * (N - 1)) ÷ 2 →
  0 <= i < j → j < N → 0 <= a < b → b < N →
  index_symmetric s i j = index_symmetric s a b → i = a ∧ j = b.
Proof.
  intros HA Hnum Hi Hj Ha Hb Heq.
  pose proof (index_symmetric_twice s N i j HA Hnum Hi Hj) as H1.
  pose proof (index_symmetric_twice s N a b HA Hnum Ha Hb) as H2.
  rewrite Heq in H1.
  assert (i = a); [|subst; lia].
  destruct (Z.lt_trichotomy i a) as [Hlt|[->|Hlt]]; [|done|].
  - exfalso.
    assert (0 < (a - i) * (2 * (N - i) - (a - i) - 1) - 2 * (N - i - 2) ) by nia.
    nia.
  - exfalso.
    assert (0 < (i - a) * (2 * (N - a) - (i - a) - 1) - 2 * (N - a - 2)) by nia.
    nia.
Qed.

Lemma index_symmetric_next s (N i j : Z) :
  nevA_ s = N → num_emds_ s = (N * (N - 1)) ÷ 2 →
  0 <= i < j → j < N →
  (j + 1 < N → index_symmetric s i (j + 1) = index_symmetric s i j + 1)
  ∧ (j + 1 = N → i + 2 < N →
     index_symmetric s (i + 1) (i + 2) = index_symmetric s i j + 1)
  ∧ (j + 1 = N → i + 2 = N → index_symmetric s i j + 1 = num_emds_ s).
Proof.
  intros HA Hnum Hi Hj.
  pose proof (twice_num_pairs N ltac:(lia)) as HT.
  pose proof (index_symmetric_twice s N i j HA Hnum Hi Hj) as H1.
  split; [|split].
  - intros Hn.
    pose proof (index_symmetric_twice s N i (j + 1) HA Hnum ltac:(lia) Hn). lia.
  - intros Hn Hi2.
    pose proof (index_symmetric_twice s N (i + 1) (i + 2) HA Hnum
                  ltac:(lia) ltac:(lia)). nia.
  - intros Hn Hi2. rewrite Hnum. nia.
Qed.

(** X7. [index_symmetric] numbers the upper triangle row by row.  For
    [N] events and [i < j < N] the offset is in [[0, N(N-1)/2)], it is the
    same for [(j, i)], and twice it is [i(2N - i - 1) + 2(j - i - 1)];
    distinct pairs have distinct offsets, every offset below [N(N-1)/2]
    belongs to a pair, and [index_symmetric(i, i)] is [-1]. *)
Theorem index_symmetric_enumerates_upper_triangle s (N : Z) :
  nevA_ s = N → num_emds_ s = (N * (N - 1)) ÷ 2 → 0 <= N →
  let T := (N * (N - 1)) ÷ 2 in
  (∀ i j, 0 <= i < j → j < N →
     0 <= index_symmetric s i j < T
     ∧ index_symmetric s j i = index_symmetric s i j
     ∧ 2 * index_symmetric s i j = i * (2 * N - i - 1) + 2 * (j - i - 1))
  ∧ (∀ i j a b, 0 <= i < j → j < N → 0 <= a < b → b < N →
       index_symmetric s i j = index_symmetric s a b → i = a ∧ j = b)
  ∧ (∀ p, 0 <= p < T →
       ∃ i j, (0 <= i < j ∧ j < N) ∧ index_symmetric s i j = p)
  ∧ (∀ i, index_symmetric s i i = -1).
Proof.
  intros HA Hnum HN T. split; [|split; [|split]].
  - intros i j Hi Hj. split; [|split].
    + unfold T. rewrite <- Hnum.
      apply (index_symmetric_range s N); [done|done|lia..].
    + apply index_symmetric_sym.
    + by apply index_symmetric_twice.
  - intros i j a b. by apply index_symmetric_inj.
  - intros p Hp. destruct Hp as [Hp0 HpT].
    revert HpT. pattern p. apply natlike_ind; [| |exact Hp0].
    + intros HT. exists 0, 1.
      pose proof (twice_num_pairs N HN) as H2.
      assert (2 <= N) by (unfold T in HT; nia).
      split; [lia|].
      pose proof (index_symmetric_twice s N 0 1 HA Hnum ltac:(lia) ltac:(lia)).
      lia.
    + intros p' Hp' IH HT.
      destruct IH as (i & j & Hij & Hidx); [lia|].
      destruct (index_symmetric_next s N i j HA Hnum ltac:(lia) ltac:(lia))
        as (Hn1 & Hn2 & Hn3).
      destruct (decide (j + 1 < N)) as [Hj|Hj].
      * exists i, (j + 1). split; [lia|]. rewrite Hn1 by done. lia.
      * destruct (decide (i + 2 < N)) as [Hi|Hi].
        -- exists (i + 1), (i + 2). split; [lia|].
           rewrite Hn2 by lia. lia.
        -- exfalso. specialize (Hn3 ltac:(lia) ltac:(lia)).
           unfold T in HT. lia.
  - intros i. unfold index_symmetric. by rewrite !decide_False by lia.
Qed.

(** *** Two sets of events *)

Lemma pair_indices_cross s (NB i j : Z) :
  two_event_sets_ s = true → nevB_ s = NB → 0 <= i → 0 <= j < NB →
  pair_indices s (i * NB + j) = (i, j).
Proof.
  intros Ht HB Hi Hj. unfold pair_indices. rewrite Ht, HB.
  by destruct (quot_rem_of_row NB i j Hi Hj) as [-> ->].
Qed.

(** X8. [compute(eventsA, eventsB)] goes through the pairs row by row:
    it runs the batch on the two sets stored one after the other, with
    [nevA * nevB] pairs; the flat index [i*nevB + j] is the pair [(i, j)],
    whose events are [eventsA[i]] and [eventsB[j]], and every flat index
    below [nevA * nevB] is of that form. *)
Theorem cross_batch_enumerates_row_major s0
    (evsA evsB : list (@Event V Particle)) :
  request_mode_ s0 = false →
  let NA := Z.of_nat (length evsA) in
  let NB := Z.of_nat (length evsB) in
  let s := set_events (init_two s0 NA NB) (evsA ++ evsB) in
  compute_cross s0 evsA evsB = PairwiseEMD_compute s
  ∧ num_emds_ s = NA * NB
  ∧ (∀ i j, 0 <= i < NA → 0 <= j < NB →
       0 <= i * NB + j < NA * NB
       ∧ pair_indices s (i * NB + j) = (i, j)
       ∧ pair_events s (i * NB + j)
         = (vec_get evsA i, vec_get evsB j))
  ∧ (∀ k, 0 <= k < NA * NB →
       ∃ i j, (0 <= i < NA ∧ 0 <= j < NB) ∧ k = i * NB + j).
Proof.
  intros Hreq NA NB s.
  destruct (init_two_ready s0 NA NB (evsA ++ evsB) Hreq)
    as (HA & HB & Hnum & Htwo & _).
  fold s in HA, HB, Hnum, Htwo.
  split; [|split; [done|split]].
  - unfold compute_cross. fold NA NB.
    replace (events_ (init_two s0 NA NB)) with (@nil (@Event V Particle));
      [done|].
    unfold init_two. by rewrite Hreq.
  - intros i j Hi Hj. split; [nia|].
    pose proof (pair_indices_cross s NB i j Htwo HB ltac:(lia) Hj) as Hp.
    split; [done|].
    unfold pair_events. rewrite Hp, Htwo, HA.
    change (events_ s) with (evsA ++ evsB).
    unfold vec_get. rewrite !decide_True by lia. f_equal.
    + apply lookup_total_app_l. lia.
    + rewrite lookup_total_app_r by lia. f_equal. lia.
  - intros k Hk.
    assert (0 < NB) by nia.
    destruct (row_of_quot_rem NB k) as (Hrow & Hq & Hr); [lia..|].
    exists (k ÷ NB), (Z.rem k NB). split; [|done]. split; [|done].
    split; [done|]. nia.
Qed.

(** *** Reading the results back *)

Lemma emds_length_dispatched s (n : Z) :
  0 <= n → length (emds_ (dispatched s n)) = length (emds_ s).
Proof.
  intros Hn. rewrite <- (Z2Nat.id n) by done.
  induction (Z.to_nat n) as [|m IH]; [done|].
  replace (Z.of_nat (S m)) with (Z.of_nat m + 1) by lia.
  destruct (dispatched_succ_effect s (Z.of_nat m) ltac:(lia)) as [_ He].
  rewrite <- IH.
  destruct (two_event_sets_ s).
  - destruct (handler_ _); destruct He as [_ ->]; by rewrite ?vec_set_length.
  - destruct (emd_storage_ s); destruct He as [_ ->];
      by rewrite ?vec_set_length.
Qed.

(** [emd(i, j)] on stored results, for indices in range. *)
Lemma emd_stored s (i j thread : Z) :
  request_mode_ s = false → emd_storage_ s ≠ External →
  0 <= i < nevA_ s → 0 <= j < nevB_ s →
  emd s i j thread
  = (s, inr (if decide (emd_storage_ s = FlattenedSymmetric)
             then (if decide (i = j) then vzero
                   else vec_get (emds_ s) (index_symmetric s i j))
             else vec_get (emds_ s) (i * nevB_ s + j))).
Proof.
  intros Hreq Hst Hi Hj. unfold emd.
  rewrite (decide_False (P := i < 0)), (decide_False (P := j < 0)) by lia.
  cbv zeta. rewrite decide_False by lia. rewrite Hreq.
  rewrite (decide_False (P := _ = External)) by done.
  by destruct (decide (emd_storage_ s = FlattenedSymmetric)).
Qed.

(** Flattened storage: after [c] pairs, the value of every earlier pair is
    at its condensed offset. *)
Lemma flattened_batch_store s (N c : Z) :
  two_event_sets_ s = false → nevA_ s = N → nevB_ s = N → 0 <= N →
  num_emds_ s = (N * (N - 1)) ÷ 2 →
  emd_storage_ s = FlattenedSymmetric →
  Z.of_nat (length (emds_ s)) = (N * (N - 1)) ÷ 2 →
  0 <= c <= (N * (N - 1)) ÷ 2 →
  ∀ k i j, 0 <= k < c → pair_indices s k = (i, j) →
    vec_get (emds_ (dispatched s c)) (index_symmetric s i j) = pair_value s k.
Proof.
  intros Htwo HA HB HN Hnum Hst Hlen [Hc0 HcT].
  rewrite <- (Z2Nat.id c) in * by done.
  induction (Z.to_nat c) as [|m IH]; [intros; lia|].
  intros k i j Hk Hp.
  replace (Z.of_nat (S m)) with (Z.of_nat m + 1) in * by lia.
  destruct (dispatched_succ_effect s (Z.of_nat m) ltac:(lia)) as [_ He].
  rewrite Htwo, Hst in He. destruct He as [_ ->].
  destruct (pair_indices_lower s k N) as (i1 & j1 & Hp1 & Hj1 & Hi1);
    [done..|lia|].
  destruct (pair_indices_lower s (Z.of_nat m) N) as (i2 & j2 & Hp2 & Hj2 & Hi2);
    [done..|lia|].
  rewrite Hp in Hp1. injection Hp1 as <- <-. rewrite Hp2. cbn [fst snd].
  pose proof (index_symmetric_range s N i j HA Hnum ltac:(lia) ltac:(lia)
                ltac:(lia)) as Hr.
  pose proof (index_symmetric_range s N i2 j2 HA Hnum ltac:(lia) ltac:(lia)
                ltac:(lia)) as Hr2.
  destruct (decide (k = Z.of_nat m)) as [->|Hne].
  - rewrite Hp in Hp2. injection Hp2 as <- <-.
    apply vec_get_set_eq. rewrite emds_length_dispatched by lia. lia.
  - rewrite vec_get_set_ne; [apply IH; [lia|lia|lia|done]| |lia].
    intros Heq. apply Hne.
    apply (pair_indices_inj s k (Z.of_nat m) N); [done..|lia|lia|].
    rewrite Hp, Hp2.
    rewrite (index_symmetric_sym s i2 j2), (index_symmetric_sym s i j) in Heq.
    apply (index_symmetric_inj s N) in Heq as [-> ->]; [done|done..|lia|lia|lia|lia].
Qed.

(** Dense symmetric storage: after [c] pairs, the value of every earlier
    pair is at both of its positions. *)
Lemma symmetric_batch_store s (N c : Z) :
  two_event_sets_ s = false → nevA_ s = N → nevB_ s = N → 0 <= N →
  num_emds_ s = (N * (N - 1)) ÷ 2 →
  emd_storage_ s = FullSymmetric →
  Z.of_nat (length (emds_ s)) = N * N →
  0 <= c <= (N * (N - 1)) ÷ 2 →
  ∀ k i j, 0 <= k < c → pair_indices s k = (i, j) →
    vec_get (emds_ (dispatched s c)) (i * N + j) = pair_value s k
    ∧ vec_get (emds_ (dispatched s c)) (j * N + i) = pair_value s k.
Proof.
  intros Htwo HA HB HN Hnum Hst Hlen [Hc0 HcT].
  rewrite <- (Z2Nat.id c) in * by done.
  induction (Z.to_nat c) as [|m IH]; [intros; lia|].
  intros k i j Hk Hp.
  replace (Z.of_nat (S m)) with (Z.of_nat m + 1) in * by lia.
  destruct (dispatched_succ_effect s (Z.of_nat m) ltac:(lia)) as [_ He].
  rewrite Htwo, Hst in He. destruct He as [_ ->].
  destruct (pair_indices_lower s k N) as (i1 & j1 & Hp1 & Hj1 & Hi1);
    [done..|lia|].
  destruct (pair_indices_lower s (Z.of_nat m) N) as (i2 & j2 & Hp2 & Hj2 & Hi2);
    [done..|lia|].
  rewrite Hp in Hp1. injection Hp1 as <- <-. rewrite Hp2, HB. cbn [fst snd].
  pose proof (emds_length_dispatched s (Z.of_nat m) ltac:(lia)) as Hl.
  destruct (decide (k = Z.of_nat m)) as [->|Hne].
  - rewrite Hp in Hp2. injection Hp2 as <- <-. split.
    + apply vec_get_set_eq. rewrite vec_set_length, Hl. nia.
    + rewrite vec_get_set_ne; [| |nia].
      * apply vec_get_set_eq. rewrite Hl. nia.
      * intros Heq. apply row_major_inj in Heq; lia.
  - assert (Hd : ¬ (i = i2 ∧ j = j2)).
    { intros [-> ->]. apply Hne.
      apply (pair_indices_inj s k (Z.of_nat m) N); [done..|lia|lia|].
      by rewrite Hp, Hp2. }
    destruct (IH ltac:(lia) ltac:(lia) k i j ltac:(lia) Hp) as [IH1 IH2].
    split.
    + rewrite !vec_get_set_ne; [done| |nia| |nia].
      * intros Heq. apply row_major_inj in Heq; lia.
      * intros Heq. apply row_major_inj in Heq; lia.
    + rewrite !vec_get_set_ne; [done| |nia| |nia].
      * intros Heq. apply row_major_inj in Heq; lia.
      * intros Heq. apply row_major_inj in Heq; lia.
Qed.

(** Two event sets: after [c] pairs, the value of every earlier pair is at
    its flat index. *)
Lemma full_batch_store s (c : Z) :
  two_event_sets_ s = true → handler_ s = None →
  0 <= c <= Z.of_nat (length (emds_ s)) →
  ∀ k, 0 <= k < c → vec_get (emds_ (dispatched s c)) k = pair_value s k.
Proof.
  intros Htwo Hh [Hc0 HcT].
  rewrite <- (Z2Nat.id c) in * by done.
  induction (Z.to_nat c) as [|m IH]; [intros; lia|].
  intros k Hk.
  replace (Z.of_nat (S m)) with (Z.of_nat m + 1) in * by lia.
  destruct (dispatched_succ_effect s (Z.of_nat m) ltac:(lia)) as [_ He].
  rewrite Htwo in He.
  destruct (dispatched_frame s (Z.of_nat m))
    as (_ & _ & _ & _ & _ & _ & _ & _ & _ & Hhave).
  unfold have_external_emd_handler in Hhave. rewrite Hh in Hhave.
  destruct (handler_ (dispatched s (Z.of_nat m))); [done|].
  destruct He as [_ ->].
  destruct (decide (k = Z.of_nat m)) as [->|Hne].
  - apply vec_get_set_eq. rewrite emds_length_dispatched by lia. lia.
  - rewrite vec_get_set_ne by lia. apply IH; lia.
Qed.

(** X9. The results of a self-pairs batch can be read back.  Without an
    external handler, in flattened and in dense symmetric storage alike,
    once the pair of flat index [k] has been dispatched, and however many
    pairs after it, [emd(i, j)] and [emd(j, i)] both return the distance
    the solver object held after that pair, where [(i, j)] are the pair's
    two distinct event indices. *)
Theorem self_batch_results_read_back s0 (evs : list (@Event V Particle))
    (N c k i j : Z) :
  request_mode_ s0 = false → handler_ s0 = None → 0 <= N →
  let s := set_events (init s0 N) evs in
  0 <= k < c → c <= num_emds_ s → pair_indices s k = (i, j) →
  let s' := dispatched s c in
  (0 <= j < i ∧ i < N)
  ∧ ∀ thread,
      emd s' i j thread = (s', inr (pair_value s k))
      ∧ emd s' j i thread = (s', inr (pair_value s k)).
Proof.
  intros Hreq Hh HN s Hk Hc Hp s'.
  destruct (init_self_ready s0 N evs Hreq)
    as (HA & HB & Hnum & Htwo & _ & _ & Hr & _ & Hh1 & _ & _ & Hemds).
  fold s in HA, HB, Hnum, Htwo, Hr, Hh1, Hemds.
  pose proof (init_storage_selected s0 N evs Hreq) as Hsel. fold s in Hsel.
  unfold storage_selected, have_external_emd_handler in Hsel, Hemds.
  rewrite Hh1, Hh, Htwo in Hsel. rewrite Hh in Hemds.
  assert (Hflat : store_sym_emds_flattened_ s = store_sym_emds_flattened_ s0).
  { unfold s, init. by rewrite Hreq. }
  rewrite Hnum in Hc.
  destruct (pair_indices_lower s k N) as (i1 & j1 & Hp1 & Hj1 & Hi1);
    [done..|lia|].
  rewrite Hp in Hp1. injection Hp1 as <- <-.
  split; [lia|]. intros thread.
  destruct (dispatched_frame s c) as (FA & FB & _ & Fst & _ & _ & Fr & _).
  fold s' in FA, FB, Fst, Fr.
  rewrite !emd_stored
    by first [by rewrite Fr
             |rewrite Fst, Hsel; by destruct (store_sym_emds_flattened_ s)
             |rewrite ?FA, ?FB, ?HA, ?HB; lia].
  rewrite Fst, Hsel, FB, HB. unfold s'.
  rewrite !index_symmetric_dispatched.
  destruct (store_sym_emds_flattened_ s) eqn:Ef.
  - rewrite !(decide_True (P := FlattenedSymmetric = _)) by done.
    rewrite !decide_False by lia.
    rewrite (index_symmetric_sym s j i).
    rewrite (flattened_batch_store s N c Htwo HA HB HN Hnum Hsel) with (k := k);
      [done| |lia|lia|done].
    rewrite Hemds, <- Hflat, length_replicate.
    pose proof (num_pairs_nonneg N). lia.
  - rewrite !(decide_False (P := FullSymmetric = _)) by done.
    destruct (symmetric_batch_store s N c Htwo HA HB HN Hnum Hsel) with (k := k)
      (i := i) (j := j) as [-> ->]; [|lia|lia|done|done].
    rewrite Hemds, <- Hflat, length_replicate. nia.
Qed.

(** X10. The results of a batch between two sets can be read back:
    without an external handler, once the pair [(i, j)], of flat index
    [i*nevB + j], has been dispatched, [emd(i, j)] returns the distance the
    solver object held after that pair. *)
Theorem cross_batch_results_read_back s0 (evs : list (@Event V Particle))
    (NA NB c i j : Z) :
  request_mode_ s0 = false → handler_ s0 = None →
  let s := set_events (init_two s0 NA NB) evs in
  0 <= i < NA → 0 <= j < NB → i * NB + j < c → c <= num_emds_ s →
  let s' := dispatched s c in
  pair_indices s (i * NB + j) = (i, j)
  ∧ ∀ thread, emd s' i j thread = (s', inr (pair_value s (i * NB + j))).
Proof.
  intros Hreq Hh s Hi Hj Hk Hc s'.
  destruct (init_two_ready s0 NA NB evs Hreq)
    as (HA & HB & Hnum & Htwo & _ & _ & Hr & _ & Hh1 & _).
  fold s in HA, HB, Hnum, Htwo, Hr, Hh1.
  pose proof (init_two_storage_selected s0 NA NB evs Hreq) as Hsel.
  fold s in Hsel.
  unfold storage_selected, have_external_emd_handler in Hsel.
  rewrite Hh1, Hh, Htwo in Hsel.
  assert (Hlen : length (emds_ s) = Z.to_nat (NA * NB)).
  { unfold s, init_two, have_external_emd_handler. rewrite Hreq. cbn.
    rewrite Hh, Hreq. cbn. apply length_resize. }
  split; [apply pair_indices_cross; [done|done|lia|done]|].
  intros thread.
  destruct (dispatched_frame s c) as (FA & FB & _ & Fst & _ & _ & Fr & _).
  fold s' in FA, FB, Fst, Fr.
  rewrite emd_stored;
    [|by rewrite Fr|by rewrite Fst, Hsel|rewrite ?FA, ?FB, ?HA, ?HB; lia..].
  rewrite Fst, Hsel, FB, HB. rewrite decide_False by done.
  rewrite (full_batch_store s c Htwo); [done|by rewrite Hh1|rewrite Hlen; nia|nia].
Qed.

(** X11. [emds()] and [emd(i, j)] agree.  At any point of a batch that
    stores its results (no request mode, no external handler), in each of
    the three storage modes, [emds()] returns a vector of [nevA * nevB]
    entries whose entry [i*nevB + j] is what [emd(i, j)] returns, the
    diagonal of a self-pairs batch included. *)
Theorem emds_agrees_with_emd s0 s (evs : list (@Event V Particle))
    (nevA nevB c : Z) :
  request_mode_ s0 = false → handler_ s0 = None → 0 <= c →
  (0 <= nevA ∧ s = set_events (init s0 nevA) evs)
  ∨ (0 <= nevA * nevB ∧ s = set_events (init_two s0 nevA nevB) evs) →
  let s' := dispatched s c in
  ∃ view,
    (emds s' false).2 = inr view
    ∧ length view = Z.to_nat (nevA_ s * nevB_ s)
    ∧ ∀ i j thread, 0 <= i < nevA_ s → 0 <= j < nevB_ s →
        emd s' i j thread = (s', inr (vec_get view (i * nevB_ s + j))).
Proof.
  intros Hreq Hh Hc Hs s'.
  destruct (dispatched_frame s c) as (FA & FB & _ & Fst & _ & _ & Fr & Ff & _).
  fold s' in FA, FB, Fst, Fr, Ff.
  pose proof (emds_length_dispatched s c Hc) as Fl. fold s' in Fl.
  destruct Hs as [[HN ->]|[HN ->]].
  - set (s := set_events (init s0 nevA) evs) in *.
    destruct (init_self_ready s0 nevA evs Hreq)
      as (HA & HB & Hnum & Htwo & _ & _ & Hr & _ & Hh1 & Hfull & _ & Hemds).
    fold s in HA, HB, Hnum, Htwo, Hr, Hh1, Hfull, Hemds.
    pose proof (init_storage_selected s0 nevA evs Hreq) as Hsel. fold s in Hsel.
    unfold storage_selected, have_external_emd_handler in Hsel, Hemds.
    rewrite Hh1, Hh, Htwo in Hsel. rewrite Hh in Hemds.
    assert (Hflat : store_sym_emds_flattened_ s = store_sym_emds_flattened_ s0).
    { unfold s, init. by rewrite Hreq. }
    rewrite HA, HB.
    destruct (store_sym_emds_flattened_ s) eqn:Ef.
    + destruct (emds_dense_view s' nevA ltac:(congruence) ltac:(congruence) HN
                  ltac:(congruence))
        as (full & Hrun & Hlen & Hoff & Hdiag).
      exists full. rewrite Hrun. split; [done|]. split; [done|].
      intros i j thread Hi Hj.
      rewrite emd_stored;
        [|by rewrite Fr|by rewrite Fst, Hsel|rewrite ?FA, ?FB, ?HA, ?HB; lia..].
      rewrite Fst, Hsel. rewrite decide_True by done. do 2 f_equal.
      case_decide as Hij.
      * subst j. symmetry. apply Hdiag; [by rewrite Ff|done].
      * symmetry. by apply Hoff.
    + exists (emds_ s'). split; [|split].
      * unfold emds. rewrite Fst, Hsel. by rewrite decide_False.
      * rewrite Fl, Hemds, <- Hflat. apply length_replicate.
      * intros i j thread Hi Hj.
        rewrite emd_stored;
          [|by rewrite Fr|by rewrite Fst, Hsel
           |rewrite ?FA, ?FB, ?HA, ?HB; lia..].
        rewrite Fst, Hsel, FB, HB. by rewrite decide_False.
  - set (s := set_events (init_two s0 nevA nevB) evs) in *.
    destruct (init_two_ready s0 nevA nevB evs Hreq)
      as (HA & HB & Hnum & Htwo & _ & _ & Hr & _ & Hh1 & _).
    fold s in HA, HB, Hnum, Htwo, Hr, Hh1.
    pose proof (init_two_storage_selected s0 nevA nevB evs Hreq) as Hsel.
    fold s in Hsel.
    unfold storage_selected, have_external_emd_handler in Hsel.
    rewrite Hh1, Hh, Htwo in Hsel.
    assert (Hlen : length (emds_ s) = Z.to_nat (nevA * nevB)).
    { unfold s, init_two, have_external_emd_handler. rewrite Hreq. cbn.
      rewrite Hh, Hreq. cbn. apply length_resize. }
    rewrite HA, HB.
    exists (emds_ s'). split; [|split].
    + unfold emds. rewrite Fst, Hsel. by rewrite decide_False.
    + by rewrite Fl.
    + intros i j thread Hi Hj.
      rewrite emd_stored;
        [|by rewrite Fr|by rewrite Fst, Hsel
         |rewrite ?FA, ?FB, ?HA, ?HB; lia..].
      rewrite Fst, Hsel, FB, HB. by rewrite decide_False.
Qed.

(** *** The number of chunks *)

Lemma compute_loop_more_fuel (fuel fuel' : nat) (pe b : Z) s r :
  compute_loop fuel pe b s = Some r → (fuel <= fuel')%nat →
  compute_loop fuel' pe b s = Some r.
Proof.
  revert fuel' b s. induction fuel as [|fuel IH]; intros fuel' b s Hrun Hle.
  - simpl in Hrun. destruct (keep_dispatching s) eqn:Hk; [done|].
    by rewrite compute_loop_done.
  - destruct fuel' as [|fuel']; [lia|]. simpl in *.
    destruct (keep_dispatching s); [|done]. apply IH; [done|lia].
Qed.

(** One unit of fuel for each chunk is enough. *)
Lemma compute_loop_enough_chunks s (pe : Z) (fuel : nat) (b : Z) :
  0 < pe → 0 <= b → num_emds_ s - b <= Z.of_nat fuel * pe →
  ∃ c, compute_loop fuel pe b (dispatched s b) = Some (dispatched s c).
Proof.
  intros Hpe. revert b. induction fuel as [|fuel IH]; intros b Hb Hfuel.
  - exists b. apply compute_loop_done. rewrite keep_dispatching_dispatched.
    by rewrite bool_decide_eq_false_2 by lia.
  - simpl. destruct (keep_dispatching (dispatched s b)) eqn:Hk;
      [|by exists b].
    assert (Hlt : b < num_emds_ s).
    { rewrite keep_dispatching_dispatched in Hk.
      apply andb_true_iff in Hk as [Hk _].
      by apply bool_decide_eq_true in Hk. }
    rewrite run_chunk_dispatched by lia.
    set (c1 := if decide (b + pe > num_emds_ s) then _ else _).
    assert (Hc1 : b < c1 ∧ num_emds_ s - c1 <= Z.of_nat fuel * pe)
      by (unfold c1; case_decide; nia).
    change (emd_counter_ (dispatched s c1)) with c1.
    apply IH; lia.
Qed.

(** X12. The number of chunks.  A negative [print_every] asks for
    [|print_every|] chunks: the chunk size is then the least positive size
    with which that many chunks cover all pairs.  A positive [print_every]
    is the chunk size.  The loop of [compute()] ends within any number of
    rounds whose chunks cover all pairs, so within [|print_every|] rounds
    in the first case. *)
Theorem batch_runs_in_print_every_chunks s :
  request_mode_ s = false → emd_counter_ s = 0 → 0 <= num_emds_ s →
  print_every_ s ≠ 0 →
  let n := Z.abs (print_every_ s) in
  (print_every_ s < 0 →
     0 < chunk_size s ∧ num_emds_ s <= n * chunk_size s
     ∧ (chunk_size s = 1 ∨ n * (chunk_size s - 1) < num_emds_ s))
  ∧ (0 < print_every_ s → chunk_size s = print_every_ s)
  ∧ ∀ chunks : nat, num_emds_ s <= Z.of_nat chunks * chunk_size s →
      ∃ r, PairwiseEMD_compute_fuel chunks s = Some r
           ∧ PairwiseEMD_compute s = Some r.
Proof.
  intros Hreq Hcnt Hnum Hpe n.
  pose proof (chunk_size_pos s Hpe Hnum) as Hcs.
  split; [|split].
  - intros Hneg. split; [done|]. unfold chunk_size in *.
    rewrite decide_True in * by done. fold n in Hcs |- *.
    assert (Hn : 0 < n) by lia.
    rewrite Z.quot_div_nonneg, Z.rem_mod_nonneg in * by lia.
    pose proof (Z.div_mod (num_emds_ s) n ltac:(lia)) as Hdm.
    pose proof (Z.mod_pos_bound (num_emds_ s) n Hn) as Hmod.
    pose proof (Z.div_pos (num_emds_ s) n Hnum Hn) as Hdiv.
    case_decide as Hcase; [|nia].
    split; [nia|]. destruct Hcase as [Hz|Hr]; [left; lia|right; nia].
  - intros Hpos. unfold chunk_size. by rewrite decide_False by lia.
  - intros chunks Hchunks.
    destruct (compute_loop_enough_chunks s (chunk_size s) chunks 0 Hcs
                ltac:(lia) ltac:(lia)) as [c Hrun].
    rewrite dispatched_zero in Hrun by done.
    set (e := if throw_on_error_ (dispatched s c)
              then match error_messages_ (dispatched s c) with
                   | m :: _ => Some (RuntimeError m)
                   | [] => None
                   end
              else None).
    exists (dispatched s c, e). split.
    + unfold PairwiseEMD_compute_fuel. by rewrite Hreq, Hrun.
    + unfold PairwiseEMD_compute, PairwiseEMD_compute_fuel.
      rewrite Hreq, Hcnt, Z.sub_0_r.
      destruct (compute_loop_chunks ns_compute fill_distances s (chunk_size s)
                  (Z.to_nat (num_emds_ s)) 0 Hcs ltac:(lia) ltac:(lia))
        as (c' & _ & Hrun' & _).
      rewrite dispatched_zero in Hrun' by done.
      pose proof (compute_loop_more_fuel _ (chunks `max` Z.to_nat (num_emds_ s))
                    _ _ _ _ Hrun ltac:(lia)) as H1.
      pose proof (compute_loop_more_fuel _ (chunks `max` Z.to_nat (num_emds_ s))
                    _ _ _ _ Hrun' ltac:(lia)) as H2.
      assert (Heq : dispatched s c' = dispatched s c).
      { apply (inj Some). by rewrite <- H2, <- H1. }
      by rewrite Hrun', Heq.
Qed.

(** X13. A constructed object is ready for any batch.  Whatever the
    arguments, [print_every] is not zero afterwards (zero becomes [-1]),
    request mode is off, no handler is set ([external_emd_handler()]
    throws), and there is one solver object for each thread; [emds()]
    throws until a batch has run; and [compute(events)] ends for every
    list of events, with the pairs [0 .. c-1] dispatched and the first
    failure raised if raise-on-error is set. *)
Theorem constructed_object_runs_every_batch
    (is_default_distance two_event_sets0 : bool)
    (R beta : V) (norm : bool) (num_threads print_every : Z)
    (store_sym_emds_flattened throw_on_error : bool)
    (n_iter_max : Z) (epsilon_large_factor epsilon_small_factor : V)
    (evs : list (@Event V Particle)) :
  let s0 := PairwiseEMD_ctor is_default_distance two_event_sets0 R beta norm
              num_threads print_every store_sym_emds_flattened throw_on_error
              n_iter_max epsilon_large_factor epsilon_small_factor in
  let s := set_events (init s0 (Z.of_nat (length evs))) evs in
  (print_every_ s0 = (if decide (print_every = 0) then -1 else print_every)
   ∧ request_mode_ s0 = false
   ∧ external_emd_handler s0 = inl (LogicError "no external emd handler set")
   ∧ Z.of_nat (length (emd_objs_ s0)) = num_threads_ s0
   ∧ 0 < num_threads_ s0)
  ∧ (∀ flattened, (emds s0 flattened).2 = inl (LogicError "No EMDs stored"))
  ∧ ∃ c, 0 <= c <= num_emds_ s
      ∧ compute_self s0 evs
        = Some (dispatched s c,
                if throw_on_error then
                  match error_messages_ (dispatched s c) with
                  | m :: _ => Some (RuntimeError m)
                  | [] => None
                  end
                else None).
Proof.
  intros s0 s. split; [by repeat split|]. split; [done|].
  assert (Hpe : print_every_ s0 ≠ 0).
  { change (print_every_ s0)
      with (if decide (print_every = 0) then -1 else print_every).
    case_decide; lia. }
  destruct (init_self_ready s0 (Z.of_nat (length evs)) evs eq_refl)
    as (_ & _ & Hnum & _ & Hcnt & _ & Hr & Hp & _ & _ & Ht & _).
  fold s in Hnum, Hcnt, Hr, Hp, Ht.
  destruct (PairwiseEMD_compute_runs ns_compute fill_distances s) as (c & Hc & Hrun);
    [done|by rewrite Hp|rewrite Hnum; apply num_pairs_nonneg|done|].
  exists c. split; [done|].
  unfold compute_self. fold s0 s. by rewrite Hrun, Ht.
Qed.

(** *** The dense view, called again *)

Lemma vec_ext (l1 l2 : list V) (n : Z) :
  Z.of_nat (length l1) = n → Z.of_nat (length l2) = n →
  (∀ p, 0 <= p < n → vec_get l1 p = vec_get l2 p) → l1 = l2.
Proof.
  intros H1 H2 Hp. apply (list_eq_same_length _ _ (length l1)); [lia|done|].
  intros i x y Hi Hx Hy. specialize (Hp (Z.of_nat i) ltac:(lia)).
  unfold vec_get in Hp. rewrite !decide_True in Hp by lia.
  rewrite Nat2Z.id in Hp.
  by rewrite (list_lookup_total_correct _ _ _ Hx),
    (list_lookup_total_correct _ _ _ Hy) in Hp.
Qed.

(** The loop of lines 649-650 changes the entries [i*i] only. *)
Lemma zero_diagonal_miss s (f : list V) (p : Z) :
  0 <= p → (∀ i, 0 <= i < nevA_ s → i * i ≠ p) →
  vec_get (zero_diagonal s f) p = vec_get f p.
Proof.
  intros Hp Hmiss. unfold zero_diagonal.
  apply (foldl_keeps _ (λ g, vec_get g p = vec_get f p)); [|done].
  apply Forall_forall. intros i Hi%elem_of_seqZ g Hg.
  rewrite vec_get_set_ne; [done|apply Hmiss; lia|done].
Qed.

Lemma zero_diagonal_hit s (f : list V) (p i0 : Z) :
  0 <= i0 < nevA_ s → i0 * i0 = p → p < Z.of_nat (length f) →
  vec_get (zero_diagonal s f) p = vzero.
Proof.
  intros Hi0 Hsq Hp. unfold zero_diagonal.
  apply (foldl_establishes _ (λ g, length g = length f)
           (λ g, vec_get g p = vzero) _ i0); [| |apply elem_of_seqZ; lia|done].
  - apply Forall_forall. intros i _ g Hg. split.
    + by rewrite vec_set_length.
    + apply vec_get_set_same_value.
  - intros g Hg. rewrite Hsq. apply vec_get_set_eq. nia.
Qed.

(** X14. The dense view of flattened storage is symmetric, and calling
    [emds()] again returns the same matrix: the expansion is redone from
    the buffer the last call left and comes out equal, whatever that
    buffer held on its diagonal. *)
Theorem dense_view_is_symmetric_and_stable s (N : Z) :
  nevA_ s = N → nevB_ s = N → 0 <= N →
  emd_storage_ s = FlattenedSymmetric →
  ∃ view,
    emds s false = (set_full_emds s view, inr view)
    ∧ emds (set_full_emds s view) false = (set_full_emds s view, inr view)
    ∧ ∀ a b, 0 <= a < N → 0 <= b < N →
        vec_get view (a * N + b) = vec_get view (b * N + a).
Proof.
  intros HA HB HN Hst.
  set (f0 := resize (Z.to_nat (N * N)) vzero (full_emds_ s)).
  set (view := fill_matrix s (zero_diagonal s f0)).
  assert (Hf0 : length f0 = Z.to_nat (N * N)) by apply length_resize.
  assert (Hz : length (zero_diagonal s f0) = Z.to_nat (N * N))
    by by apply zero_diagonal_sized.
  assert (Hview : length view = Z.to_nat (N * N))
    by by apply (fill_matrix_sized s N).
  assert (Hoff : ∀ (f : list V) a b, length f = Z.to_nat (N * N) →
            0 <= a < N → 0 <= b < N → a ≠ b →
            vec_get (fill_matrix s (zero_diagonal s f)) (a * N + b)
            = vec_get (emds_ s) (index_symmetric s a b)).
  { intros f a b Hf Ha Hb Hne.
    assert (Hzf : length (zero_diagonal s f) = Z.to_nat (N * N))
      by by apply zero_diagonal_sized.
    destruct (decide (a < b)).
    - by destruct (fill_matrix_pair s N HA HB HN (zero_diagonal s f) a b)
        as [H1 _]; [lia..|done|].
    - rewrite index_symmetric_sym.
      by destruct (fill_matrix_pair s N HA HB HN (zero_diagonal s f) b a)
        as [_ H2]; [lia..|done|]. }
  exists view. split; [|split].
  - unfold emds. rewrite Hst, HA, HB. done.
  - unfold emds. cbn [emd_storage_ set_full_emds nevA_ nevB_ full_emds_].
    rewrite Hst, HA, HB. rewrite decide_False by done. cbn [andb negb bool_decide].
    simpl bool_decide. cbn [andb negb].
    rewrite <- Hview, resize_all.
    change (zero_diagonal (set_full_emds s view)) with (zero_diagonal s).
    change (fill_matrix (set_full_emds s view)) with (fill_matrix s).
    assert (Hsame : fill_matrix s (zero_diagonal s view) = view).
    { apply (vec_ext _ _ (N * N)).
      - rewrite (fill_matrix_sized s N); [lia|done|done|].
        by apply zero_diagonal_sized.
      - lia.
      - intros p Hp. assert (0 < N) by nia.
        destruct (row_of_quot_rem N p) as (Hrow & Hq & Hr); [lia..|].
        set (a := p ÷ N) in *. set (b := Z.rem p N) in *.
        assert (Ha : 0 <= a < N) by nia.
        rewrite Hrow.
        destruct (decide (a = b)) as [Hab|Hab].
        + rewrite <- Hab. unfold view at 2.
          rewrite !(fill_matrix_diagonal s N) by done.
          destruct (decide (Exists (λ i, i * i = a * N + a) (seqZ 0 N)))
            as [Hex|Hno].
          * apply Exists_exists in Hex as (i0 & Hi0%elem_of_seqZ & Hsq).
            rewrite !(zero_diagonal_hit s _ (a * N + a) i0);
              [done|lia|done|nia|lia|done|nia].
          * assert (Hmiss : ∀ i, 0 <= i < nevA_ s → i * i ≠ a * N + a).
            { intros i Hi Hsq. apply Hno, Exists_exists. exists i.
              split; [apply elem_of_seqZ; lia|done]. }
            rewrite !zero_diagonal_miss by (done || nia).
            unfold view. rewrite (fill_matrix_diagonal s N) by done.
            by rewrite zero_diagonal_miss by (done || nia).
        + unfold view at 2. by rewrite !Hoff by (done || lia). }
    by rewrite Hsame.
  - intros a b Ha Hb. destruct (decide (a = b)) as [->|Hne]; [done|].
    unfold view. rewrite !Hoff by (done || lia).
    by rewrite index_symmetric_sym.
Qed.

(** *** Queries *)

(** X15. In request mode [emd(i, j, thread)] computes the pair on demand
    with the solver object of [thread], on the events [i] and [j] (the
    second taken from the second set when there are two).  It returns the
    distance when the status is [Success] and throws the status otherwise;
    the handler, if there is one, is called on [Success] only; nothing is
    stored or recorded.  A thread index from [num_threads] on is refused
    before anything is computed. *)
Theorem request_mode_query_computes_on_demand s (i j thread : Z) :
  request_mode_ s = true →
  0 <= i < nevA_ s → 0 <= j < nevB_ s →
  let eventA := vec_get (events_ s) i in
  let eventB :=
    vec_get (events_ s) (if two_event_sets_ s then nevA_ s + j else j) in
  let r := compute ns_compute fill_distances
             (vec_get (emd_objs_ s) thread) eventA eventB in
  let weight := vmul (event_weight eventA) (event_weight eventB) in
  let q := emd s i j thread in
  (num_threads_ s <= thread →
     q = (s, inl (OutOfRange "invalid thread index")))
  ∧ (0 <= thread < num_threads_ s →
     q.2 = (if is_success r.2 then inr (emd_ r.1) else inl (StatusError r.2))
     ∧ emd_objs_ q.1 = vec_set (emd_objs_ s) thread r.1
     ∧ handler_ q.1
       = (if is_success r.2
          then (λ h, h ++ [(emd_ r.1, weight)]) <$> handler_ s
          else handler_ s)
     ∧ (emds_ q.1 = emds_ s ∧ full_emds_ q.1 = full_emds_ s
        ∧ error_messages_ q.1 = error_messages_ s
        ∧ events_ q.1 = events_ s ∧ emd_storage_ q.1 = emd_storage_ s
        ∧ emd_counter_ q.1 = emd_counter_ s)).
Proof.
  intros Hreq Hi Hj eventA eventB r weight q. unfold q, emd.
  rewrite (decide_False (P := i < 0)), (decide_False (P := j < 0)) by lia.
  cbv zeta. rewrite decide_False by lia. rewrite Hreq.
  fold eventA eventB. split.
  - intros Ht. by rewrite decide_True by lia.
  - intros Ht. rewrite decide_False by lia.
    fold r. destruct r as [obj st]. cbn [fst snd].
    unfold check_emd_status, have_external_emd_handler, call_handler.
    destruct (is_success st); cbn; [|done].
    destruct (handler_ s) eqn:Eh; cbn; by rewrite ?Eh.
Qed.

(** X16. [emd(i, j)] takes negative indices as [flow(i, j)] does:
    [emd(i - nevA, j - nevB)] and [emd(i - nevA, j)] are [emd(i, j)] for
    indices in range.  An index outside [[-nev, nev)] makes it throw
    [out_of_range] before anything else, with the resolved indices in the
    message, and leaves the object as it is. *)
Theorem emd_wraps_negative_indices s (i j thread : Z) :
  0 <= i < nevA_ s → 0 <= j < nevB_ s →
  emd s (i - nevA_ s) (j - nevB_ s) thread = emd s i j thread
  ∧ emd s (i - nevA_ s) j thread = emd s i j thread
  ∧ (∀ i', i' < - nevA_ s ∨ nevA_ s <= i' →
       emd s i' j thread
       = (s, inl (OutOfRange
            ("PairwiseEMD::emd - Accessing emd value at ("
             +:+ pretty (if decide (i' < 0) then i' + nevA_ s else i')
             +:+ ", " +:+ pretty j +:+ ") exceeds allowed range"))))
  ∧ (∀ j', j' < - nevB_ s ∨ nevB_ s <= j' →
       emd s i j' thread
       = (s, inl (OutOfRange
            ("PairwiseEMD::emd - Accessing emd value at ("
             +:+ pretty i +:+ ", "
             +:+ pretty (if decide (j' < 0) then j' + nevB_ s else j')
             +:+ ") exceeds allowed range")))).
Proof.
  intros Hi Hj. split; [|split; [|split]].
  - unfold emd.
    rewrite (decide_True (P := i - nevA_ s < 0)),
      (decide_True (P := j - nevB_ s < 0)) by lia.
    rewrite (decide_False (P := i < 0)), (decide_False (P := j < 0)) by lia.
    replace (i - nevA_ s + nevA_ s) with i by lia.
    by replace (j - nevB_ s + nevB_ s) with j by lia.
  - unfold emd.
    rewrite (decide_True (P := i - nevA_ s < 0)) by lia.
    rewrite (decide_False (P := i < 0)), (decide_False (P := j < 0)) by lia.
    by replace (i - nevA_ s + nevA_ s) with i by lia.
  - intros i' Hi'. unfold emd.
    rewrite (decide_False (P := j < 0)) by lia. cbv zeta.
    rewrite (decide_True (P := _ ∨ _)); [done|]. case_decide; lia.
  - intros j' Hj'. unfold emd.
    rewrite (decide_False (P := i < 0)) by lia. cbv zeta.
    rewrite (decide_True (P := _ ∨ _)); [done|]. case_decide; lia.
Qed.

End Batch_facts.

(** ** Proto events *)

Section Proto_events.

Context {V : Type} `{VO : ValueOps V} {Particle ProtoEvent : Type}.
Variable ns_compute : @NetworkSimplex V → Z → Z → @NetworkSimplex V * EMDStatus.
Variable fill_distances :
  V * V → list Particle → list Particle → list V → ExtraParticle → list V.
Variable make_event : ProtoEvent → option V → @Event V Particle.
Variable ensure_weights : @Event V Particle → @Event V Particle.
Variable normalize_weights : @Event V Particle → @Event V Particle.
Variable preprocessors : list (@Event V Particle → @Event V Particle).

Implicit Types (s : @PairwiseEMD V Particle).

Abbreviation EMD_preprocess :=
  (EMD_preprocess ensure_weights normalize_weights preprocessors).
Abbreviation store_event :=
  (store_event make_event ensure_weights normalize_weights preprocessors).
Abbreviation store_proto_events :=
  (store_proto_events make_event ensure_weights normalize_weights
     preprocessors).
Abbreviation preprocessed_events :=
  (preprocessed_events make_event ensure_weights normalize_weights
     preprocessors).
Abbreviation call_self :=
  (call_self ns_compute fill_distances make_event ensure_weights
     normalize_weights preprocessors).
Abbreviation call_cross :=
  (call_cross ns_compute fill_distances make_event ensure_weights
     normalize_weights preprocessors).

Lemma store_event_appends s (pev : ProtoEvent) (w : option V) :
  store_event s pev w
  = set_events s
      (events_ s ++ [EMD_preprocess (vec_get (emd_objs_ s) 0) (make_event pev w)]).
Proof.
  unfold store_event, preprocess_back_event.
  cbn [events_ set_events]. rewrite reverse_snoc, reverse_involutive.
  done.
Qed.

Lemma foldl_store_event_appends {A} (f : A → ProtoEvent * option V)
    (l : list A) s :
  foldl (λ s x, store_event s (f x).1 (f x).2) s l
  = set_events s
      (events_ s
       ++ ((λ x, EMD_preprocess (vec_get (emd_objs_ s) 0)
                   (make_event (f x).1 (f x).2)) <$> l)).
Proof.
  revert s. induction l as [|x l IH]; intros s.
  - cbn. rewrite app_nil_r. by destruct s.
  - cbn [foldl]. rewrite IH, store_event_appends.
    cbn [events_ emd_objs_ set_events fmap list_fmap].
    by rewrite <- app_assoc.
Qed.

(** [store_proto_events] appends the preprocessed events, or throws before
    it stores anything. *)
Lemma store_proto_events_appends s (pevs : list ProtoEvent) (ws : list V) :
  store_proto_events s pevs ws
  = if decide (ws = [] ∨ length ws = length pevs) then
      inr (set_events s
             (events_ s
              ++ preprocessed_events (vec_get (emd_objs_ s) 0) pevs ws))
    else
      inl (InvalidArgument
             "length of event_weights does not match proto_events").
Proof.
  unfold store_proto_events, preprocessed_events.
  destruct (decide (length pevs ≠ length ws)) as [Hne|Heq].
  - destruct ws as [|w ws].
    + rewrite !decide_True by (by left || done). f_equal.
      apply (foldl_store_event_appends (λ pev, (pev, None))).
    + rewrite !decide_False; [done| |done].
      intros [?|?]; [done|]. by apply Hne.
  - rewrite decide_True by (right; lia).
    destruct ws as [|w ws].
    + destruct pevs; [|simpl in Heq; lia]. cbn. rewrite app_nil_r.
      by destruct s.
    + f_equal.
      apply (foldl_store_event_appends (λ pw, (pw.1, Some pw.2))).
Qed.

Lemma preprocessed_events_length (e : @EMD V) (pevs : list ProtoEvent)
    (ws : list V) :
  ws = [] ∨ length ws = length pevs →
  length (preprocessed_events e pevs ws) = length pevs.
Proof.
  unfold preprocessed_events. intros [->|Hlen].
  - by rewrite length_fmap.
  - destruct ws as [|w ws]; rewrite length_fmap; [done|].
    rewrite length_zip. lia.
Qed.

(** X17. [operator()] on proto events is [compute] on the events built
    from them.  Outside request mode, with no event weights or one for
    each proto event, it runs the batch that [compute(events)] runs on the
    events that the first solver object's [preprocess] makes of them.  With
    another number of weights it throws [invalid_argument] after [init] has
    run: the earlier events and failures are gone, and the result vector
    holds zeros. *)
Theorem call_operator_is_batch_on_preprocessed_events s
    (pevs : list ProtoEvent) (ws : list V) :
  request_mode_ s = false →
  (ws = [] ∨ length ws = length pevs →
     call_self s pevs ws
     = compute_self ns_compute fill_distances s
         (preprocessed_events (vec_get (emd_objs_ s) 0) pevs ws))
  ∧ (ws ≠ [] → length ws ≠ length pevs →
     ∃ s', call_self s pevs ws
           = Some (s', Some (InvalidArgument
                "length of event_weights does not match proto_events"))
           ∧ events_ s' = [] ∧ error_messages_ s' = []
           ∧ nevA_ s' = Z.of_nat (length pevs)
           ∧ Forall (λ x, x = vzero) (emds_ s')).
Proof.
  intros Hreq.
  set (s1 := init s (Z.of_nat (length pevs))).
  assert (Hev : events_ s1 = []) by (unfold s1, init; by rewrite Hreq).
  assert (Hobj : emd_objs_ s1 = emd_objs_ s)
    by (unfold s1, init; by rewrite Hreq).
  pose proof (store_proto_events_appends s1 pevs ws) as Hstore.
  rewrite Hev, Hobj in Hstore. cbn [app] in Hstore.
  split.
  - intros Hws. unfold call_self, compute_self. fold s1.
    rewrite Hstore, decide_True by done.
    by rewrite preprocessed_events_length.
  - intros Hne Hlen. exists s1. unfold call_self. fold s1.
    rewrite Hstore, decide_False by (intros [?|?]; done).
    split; [done|]. split; [done|].
    unfold s1, init, have_external_emd_handler. rewrite Hreq. cbn.
    repeat split. rewrite Hreq.
    destruct (handler_ s); cbn; [done|].
    rewrite resize_nil. apply Forall_replicate. done.
Qed.

(** X18. [operator()] on two sets of proto events runs the batch that
    [compute(eventsA, eventsB)] runs on the preprocessed events of the two
    sets.  When the weights of the second set do not match, it throws
    [invalid_argument] with the events of the first set already stored. *)
Theorem call_operator_two_sets_is_batch_on_preprocessed_events s
    (pevsA pevsB : list ProtoEvent) (wsA wsB : list V) :
  request_mode_ s = false →
  wsA = [] ∨ length wsA = length pevsA →
  let evsA := preprocessed_events (vec_get (emd_objs_ s) 0) pevsA wsA in
  let evsB := preprocessed_events (vec_get (emd_objs_ s) 0) pevsB wsB in
  (wsB = [] ∨ length wsB = length pevsB →
     call_cross s pevsA pevsB wsA wsB
     = compute_cross ns_compute fill_distances s evsA evsB)
  ∧ (wsB ≠ [] → length wsB ≠ length pevsB →
     ∃ s', call_cross s pevsA pevsB wsA wsB
           = Some (s', Some (InvalidArgument
                "length of event_weights does not match proto_events"))
           ∧ events_ s' = evsA
           ∧ (nevA_ s', nevB_ s')
             = (Z.of_nat (length pevsA), Z.of_nat (length pevsB))).
Proof.
  intros Hreq HwsA evsA evsB.
  set (s1 := init_two s (Z.of_nat (length pevsA)) (Z.of_nat (length pevsB))).
  assert (Hev : events_ s1 = []) by (unfold s1, init_two; by rewrite Hreq).
  assert (Hobj : emd_objs_ s1 = emd_objs_ s)
    by (unfold s1, init_two; by rewrite Hreq).
  pose proof (store_proto_events_appends s1 pevsA wsA) as HstoreA.
  rewrite Hev, Hobj, decide_True in HstoreA by done.
  cbn [app] in HstoreA. fold evsA in HstoreA.
  pose proof (store_proto_events_appends (set_events s1 evsA) pevsB wsB)
    as HstoreB.
  cbn [events_ emd_objs_ set_events] in HstoreB.
  rewrite Hobj in HstoreB. fold evsB in HstoreB.
  split.
  - intros HwsB. unfold call_cross, compute_cross. fold s1.
    rewrite HstoreA, HstoreB, decide_True by done.
    unfold evsA, evsB. rewrite !preprocessed_events_length by done.
    fold s1 evsA evsB. by rewrite Hev.
  - intros Hne Hlen. exists (set_events s1 evsA).
    unfold call_cross. fold s1.
    rewrite HstoreA, HstoreB, decide_False by (intros [?|?]; done).
    split; [done|]. split; [done|].
    unfold s1, init_two. by rewrite Hreq.
Qed.

End Proto_events.

(** ** Concrete runs *)

Abbreviation line_dispatched :=
  (dispatched line_ns_compute line_fill_distances).
Abbreviation line_emd_query := (emd line_ns_compute line_fill_distances).
Abbreviation line_batch :=
  (PairwiseEMD_compute line_ns_compute line_fill_distances).
Abbreviation line_pair_value :=
  (pair_value line_ns_compute line_fill_distances).

(** X1, with [norm] set, on two events of total weights 1 and 2. *)
Lemma compute_without_padding_witness :
  let r := (line_compute (line_emd true) (point_event 1 0) (point_event 2 5)).1 in
  extra_ r = Neither ∧ n0_ r = 1 ∧ n1_ r = 1.
Proof.
  assert (Hnorm : norm_ (line_emd true) = true) by reflexivity.
  destruct (compute_without_padding line_ns_compute line_fill_distances
              (line_emd true) (point_event 1 0) (point_event 2 5)
              (or_introl Hnorm)) as (Hx & H0 & H1 & _).
  exact (conj Hx (conj H0 H1)).
Defined.

(** X2, on a fresh solver object and on one that has computed a pair. *)
Lemma compute_weights_ignore_old_buffer_witness :
  let e := line_emd false in
  let e' := (line_compute e (point_event 1 0) (point_event 2 5)).1 in
  let p := prepare line_fill_distances e (point_event 3 1) (point_event 1 4) in
  let p' := prepare line_fill_distances e' (point_event 3 1) (point_event 1 4) in
  take (Z.to_nat (n0_ p + n1_ p)) (ns_weights (network_simplex_ p))
  = take (Z.to_nat (n0_ p + n1_ p)) (ns_weights (network_simplex_ p')).
Proof.
  intros e e' p p'.
  assert (Hn : norm_ e = norm_ e') by (vm_compute; reflexivity).
  assert (Hx : external_dists_ e = external_dists_ e')
    by (vm_compute; reflexivity).
  exact (proj2 (proj2 (proj2
           (compute_weights_ignore_old_buffer line_fill_distances e e'
              (point_event 3 1) (point_event 1 4) Hn Hx)))).
Defined.

(** X3, on a solver with [n0 = 3] and [n1 = 4]. *)
Lemma flows_agree_with_flow_witness :
  length (flows flow_example) = 12%nat
  ∧ flow flow_example 2 3 = inr (vec_get (flows flow_example) 11).
Proof.
  assert (H0 : 0 <= n0_ flow_example) by (simpl; lia).
  assert (H1 : 0 <= n1_ flow_example) by (simpl; lia).
  assert (Hl : n0_ flow_example * n1_ flow_example
               <= Z.of_nat (length (ns_flows (network_simplex_ flow_example))))
    by (vm_compute; discriminate).
  destruct (flows_agree_with_flow flow_example H0 H1 Hl) as [Hlen Hij].
  split; [exact Hlen|].
  exact (proj1 (Hij 2 3 ltac:(simpl; lia) ltac:(simpl; lia))).
Defined.

(** X4, with computed distances. *)
Lemma compute_ground_distances_witness :
  let e := line_emd false in
  let p := prepare line_fill_distances e (point_event 1 0) (point_event 2 5) in
  let r := (line_compute e (point_event 1 0) (point_event 2 5)).1 in
  ns_dists (network_simplex_ p)
  = line_fill_distances (pairwise_distance_ e)
      (particles (point_event 1 0)) (particles (point_event 2 5))
      (ns_dists (network_simplex_ e)) (extra_ r).
Proof.
  intros e p r.
  assert (Hext : external_dists_ e = false) by reflexivity.
  destruct (compute_ground_distances line_ns_compute line_fill_distances e
              (point_event 1 0) (point_event 2 5)) as (_ & Hfill & _).
  exact (Hfill Hext).
Defined.

(** X7, for five events. *)
Lemma index_symmetric_enumerates_upper_triangle_witness :
  let s := init (line_pairwise false (-10) true false) 5 in
  index_symmetric s 3 1 = index_symmetric s 1 3
  ∧ 2 * index_symmetric s 1 3 = 10.
Proof.
  intros s.
  assert (HA : nevA_ s = 5) by reflexivity.
  assert (Hnum : num_emds_ s = (5 * (5 - 1)) ÷ 2) by reflexivity.
  destruct (index_symmetric_enumerates_upper_triangle s 5 HA Hnum ltac:(lia))
    as (Hidx & _).
  destruct (Hidx 1 3 ltac:(lia) ltac:(lia)) as (_ & Hs & H2).
  exact (conj Hs H2).
Defined.

(** X8, for two sets of two events. *)
Lemma cross_batch_enumerates_row_major_witness :
  pair_indices cross_batch (1 * 2 + 1) = (1, 1).
Proof.
  assert (Hreq : request_mode_ (line_pairwise false (-10) true false) = false)
    by reflexivity.
  destruct (cross_batch_enumerates_row_major line_ns_compute
              line_fill_distances (line_pairwise false (-10) true false)
              [point_event 1 0; point_event 1 1]
              [point_event 1 3; point_event 1 7] Hreq) as (_ & _ & Hij & _).
  destruct (Hij 1 1 ltac:(simpl; lia) ltac:(simpl; lia)) as (_ & Hp & _).
  exact Hp.
Defined.

(** X5, on the batch of three events whose unbalanced pairs fail. *)
Lemma batch_dispatches_all_pairs_and_logs_failures_witness :
  line_batch (unnormalised_batch false)
  = Some (line_dispatched (unnormalised_batch false)
            (num_emds_ (unnormalised_batch false)), None).
Proof.
  assert (Hreq : request_mode_ (line_pairwise true (-10) true false) = false)
    by reflexivity.
  assert (Hpe : print_every_ (line_pairwise true (-10) true false) ≠ 0)
    by (vm_compute; discriminate).
  assert (Hthrow : throw_on_error_ (line_pairwise true (-10) true false) = false)
    by reflexivity.
  assert (Hinit :
    unnormalised_batch false
    = set_events (init (line_pairwise true (-10) true false) 3)
        [point_event 1 0; point_event 1 5; point_event 2 7]
    ∨ (0 <= 3 * 0
       ∧ unnormalised_batch false
         = set_events (init_two (line_pairwise true (-10) true false) 3 0)
             [point_event 1 0; point_event 1 5; point_event 2 7]))
    by (left; reflexivity).
  destruct (batch_dispatches_all_pairs_and_logs_failures line_ns_compute
              line_fill_distances _ _ _ _ _ Hreq Hpe Hinit) as [_ Hrun].
  exact (Hrun (or_introl Hthrow)).
Defined.

(** X6, on the same batch with an external handler. *)
Lemma handler_receives_every_dispatched_pair_witness :
  let s := unnormalised_batch true in
  external_emd_handler (line_dispatched s 3)
  = inr ([] ++ ((λ k, (line_pair_value s k, pair_weight s k)) <$> seqZ 0 3)).
Proof.
  intros s.
  assert (Hreq : request_mode_ (set_external_emd_handler
                   (line_pairwise true (-10) true false) []) = false)
    by reflexivity.
  assert (Hh : handler_ (set_external_emd_handler
                 (line_pairwise true (-10) true false) []) = Some [])
    by reflexivity.
  assert (Hinit :
    s = set_events (init (set_external_emd_handler
                            (line_pairwise true (-10) true false) []) 3)
          [point_event 1 0; point_event 1 5; point_event 2 7]
    ∨ (0 <= 3 * 0
       ∧ s = set_events (init_two (set_external_emd_handler
                                     (line_pairwise true (-10) true false) [])
                           3 0)
               [point_event 1 0; point_event 1 5; point_event 2 7]))
    by (left; reflexivity).
  pose proof (handler_receives_every_dispatched_pair line_ns_compute
                line_fill_distances _ s _ _ _ [] 3 Hreq Hh Hinit ltac:(lia))
    as H.
  cbv zeta in H. exact (proj1 H).
Defined.

(** X9, on three events in flattened storage: the pair of flat index 1 is
    the pair of events 2 and 1. *)
Lemma self_batch_results_read_back_witness :
  let s := stored_batch true in
  line_emd_query (line_dispatched s 3) 2 1 0
  = (line_dispatched s 3, inr (line_pair_value s 1)).
Proof.
  intros s.
  assert (Hreq : request_mode_ (line_pairwise false (-10) true false) = false)
    by reflexivity.
  assert (Hh : handler_ (line_pairwise false (-10) true false) = None)
    by reflexivity.
  assert (Hc : 3 <= num_emds_ s) by (vm_compute; discriminate).
  assert (Hp : pair_indices s 1 = (2, 1)) by reflexivity.
  pose proof (self_batch_results_read_back line_ns_compute line_fill_distances
                (line_pairwise false (-10) true false) three_points
                3 3 1 2 1 Hreq Hh ltac:(lia) ltac:(lia) Hc Hp) as H.
  cbv zeta in H. destruct H as [_ H]. exact (proj1 (H 0)).
Defined.

(** X10, on two sets of two events. *)
Lemma cross_batch_results_read_back_witness :
  line_emd_query (line_dispatched cross_batch 4) 1 0 0
  = (line_dispatched cross_batch 4, inr (line_pair_value cross_batch (1 * 2 + 0))).
Proof.
  assert (Hreq : request_mode_ (line_pairwise false (-10) true false) = false)
    by reflexivity.
  assert (Hh : handler_ (line_pairwise false (-10) true false) = None)
    by reflexivity.
  assert (Hc : 4 <= num_emds_ cross_batch) by (vm_compute; discriminate).
  pose proof (cross_batch_results_read_back line_ns_compute line_fill_distances
                (line_pairwise false (-10) true false)
                ([point_event 1 0; point_event 1 1]
                 ++ [point_event 1 3; point_event 1 7])
                2 2 4 1 0 Hreq Hh ltac:(lia) ltac:(lia) ltac:(lia) Hc) as H.
  cbv zeta in H. destruct H as [_ H]. exact (H 0).
Defined.

(** X11, on three events in flattened storage. *)
Lemma emds_agrees_with_emd_witness :
  let s' := line_dispatched (stored_batch true) 3 in
  ∃ view,
    (emds s' false).2 = inr view
    ∧ line_emd_query s' 2 1 0 = (s', inr (vec_get view (2 * 3 + 1))).
Proof.
  intros s'.
  assert (Hreq : request_mode_ (line_pairwise false (-10) true false) = false)
    by reflexivity.
  assert (Hh : handler_ (line_pairwise false (-10) true false) = None)
    by reflexivity.
  assert (Hinit :
    (0 <= 3
     ∧ stored_batch true
       = set_events (init (line_pairwise false (-10) true false) 3)
           three_points)
    ∨ (0 <= 3 * 0
       ∧ stored_batch true
         = set_events (init_two (line_pairwise false (-10) true false) 3 0)
             three_points))
    by (left; split; [lia|reflexivity]).
  destruct (emds_agrees_with_emd line_ns_compute line_fill_distances
              _ (stored_batch true) _ _ _ 3 Hreq Hh ltac:(lia) Hinit)
    as (view & Hview & _ & Hq).
  exists view. split; [exact Hview|].
  exact (Hq 2 1 0 ltac:(simpl; lia) ltac:(simpl; lia)).
Defined.

(** X12, on a batch of three pairs in chunks of two. *)
Lemma batch_runs_in_print_every_chunks_witness :
  ∃ r, PairwiseEMD_compute_fuel line_ns_compute line_fill_distances 2
         raising_batch = Some r
       ∧ line_batch raising_batch = Some r.
Proof.
  assert (Hreq : request_mode_ raising_batch = false) by reflexivity.
  assert (Hcnt : emd_counter_ raising_batch = 0) by reflexivity.
  assert (Hnum : 0 <= num_emds_ raising_batch) by (vm_compute; discriminate).
  assert (Hpe : print_every_ raising_batch ≠ 0) by (vm_compute; discriminate).
  assert (Hch : num_emds_ raising_batch
                <= Z.of_nat 2 * chunk_size raising_batch)
    by (vm_compute; discriminate).
  destruct (batch_runs_in_print_every_chunks line_ns_compute
              line_fill_distances raising_batch Hreq Hcnt Hnum Hpe)
    as (_ & _ & Hrun).
  exact (Hrun 2%nat Hch).
Defined.

(** X14, on three events in flattened storage. *)
Lemma dense_view_is_symmetric_and_stable_witness :
  let s := stored_batch true in
  ∃ view,
    emds s false = (set_full_emds s view, inr view)
    ∧ emds (set_full_emds s view) false = (set_full_emds s view, inr view).
Proof.
  intros s.
  assert (HA : nevA_ s = 3) by reflexivity.
  assert (HB : nevB_ s = 3) by reflexivity.
  assert (Hst : emd_storage_ s = FlattenedSymmetric) by reflexivity.
  destruct (dense_view_is_symmetric_and_stable s 3 HA HB ltac:(lia) Hst)
    as (view & H1 & H2 & _).
  exists view. exact (conj H1 H2).
Defined.

(** X15, on three events in request mode. *)
Lemma request_mode_query_computes_on_demand_witness :
  let s := set_request_mode (stored_batch true) true in
  let r := line_compute (vec_get (emd_objs_ s) 0)
             (vec_get (events_ s) 0) (vec_get (events_ s) 1) in
  (line_emd_query s 0 1 0).2
  = (if is_success r.2 then inr (emd_ r.1) else inl (StatusError r.2))
  ∧ line_emd_query s 0 1 1 = (s, inl (OutOfRange "invalid thread index")).
Proof.
  intros s r.
  assert (Hreq : request_mode_ s = true) by reflexivity.
  assert (Hi : 0 <= 0 < nevA_ s) by (simpl; lia).
  assert (Hj : 0 <= 1 < nevB_ s) by (simpl; lia).
  assert (Ht : 0 <= 0 < num_threads_ s)
    by (vm_compute; split; [discriminate|reflexivity]).
  assert (Ht1 : num_threads_ s <= 1) by (vm_compute; discriminate).
  pose proof (request_mode_query_computes_on_demand line_ns_compute
                line_fill_distances s 0 1 0 Hreq Hi Hj) as H.
  pose proof (request_mode_query_computes_on_demand line_ns_compute
                line_fill_distances s 0 1 1 Hreq Hi Hj) as H1.
  cbv zeta in H, H1. destruct H as [_ H]. destruct H1 as [H1 _].
  exact (conj (proj1 (H Ht)) (H1 Ht1)).
Defined.

(** X16, on three events. *)
Lemma emd_wraps_negative_indices_witness :
  let s := stored_batch true in
  line_emd_query s (2 - 3) (1 - 3) 0 = line_emd_query s 2 1 0.
Proof.
  intros s.
  assert (Hi : 0 <= 2 < nevA_ s) by (simpl; lia).
  assert (Hj : 0 <= 1 < nevB_ s) by (simpl; lia).
  exact (proj1 (emd_wraps_negative_indices line_ns_compute line_fill_distances
                  s 2 1 0 Hi Hj)).
Defined.

(** X17, on two proto events without event weights. *)
Lemma call_operator_is_batch_on_preprocessed_events_witness :
  let s := line_pairwise false (-10) true false in
  let pevs := [[(q 1, q 0)]; [(q 1, q 4)]] in
  call_self line_ns_compute line_fill_distances line_make_event (λ ev, ev)
    line_normalize_weights [] s pevs []
  = compute_self line_ns_compute line_fill_distances s
      (preprocessed_events line_make_event (λ ev, ev) line_normalize_weights
         [] (vec_get (emd_objs_ s) 0) pevs []).
Proof.
  intros s pevs.
  assert (Hreq : request_mode_ s = false) by reflexivity.
  destruct (call_operator_is_batch_on_preprocessed_events line_ns_compute
              line_fill_distances line_make_event (λ ev, ev)
              line_normalize_weights [] s pevs [] Hreq) as [Hrun _].
  exact (Hrun (or_introl eq_refl)).
Defined.

(** X18, on one proto event against two, with event weights for the
    second set. *)
Lemma call_operator_two_sets_is_batch_on_preprocessed_events_witness :
  let s := line_pairwise false (-10) true false in
  let pevsA := [[(q 1, q 0)]] in
  let pevsB := [[(q 1, q 4)]; [(q 2, q 7)]] in
  let pre := preprocessed_events line_make_event (λ ev, ev)
               line_normalize_weights [] (vec_get (emd_objs_ s) 0) in
  call_cross line_ns_compute line_fill_distances line_make_event (λ ev, ev)
    line_normalize_weights [] s pevsA pevsB [] [q 3; q 5]
  = compute_cross line_ns_compute line_fill_distances s
      (pre pevsA []) (pre pevsB [q 3; q 5]).
Proof.
  intros s pevsA pevsB pre.
  assert (Hreq : request_mode_ s = false) by reflexivity.
  pose proof (call_operator_two_sets_is_batch_on_preprocessed_events
                line_ns_compute line_fill_distances line_make_event (λ ev, ev)
                line_normalize_weights [] s pevsA pevsB [] [q 3; q 5] Hreq
                (or_introl eq_refl)) as H.
  cbv zeta in H. exact (proj1 H (or_intror eq_refl)).
Defined.

(** [operator()] run on three proto events with event weights and [norm]
    set: the events are normalised, the three distances are stored; with
    one weight missing it throws and the store holds zeros. *)
Example call_operator_run :
  let run := call_self line_ns_compute line_fill_distances line_make_event
               (λ ev, ev) line_normalize_weights []
               (line_pairwise true (-10) true false)
               [[(q 1, q 0); (q 1, q 2)]; [(q 4, q 4)]; [(q 3, q 6)]] in
  match run [q 2; q 3; q 5], run [q 2; q 3] with
  | Some (s, None), Some (s', Some e) =>
      (λ ev, fractions (weights ev)) <$> events_ s
      = [[1 # 2; 1 # 2]; [1]; [1]]%Q
      ∧ fractions (emds_ s) = [3; 5; 2]%Q
      ∧ e = InvalidArgument
              "length of event_weights does not match proto_events"
      ∧ events_ s' = [] ∧ fractions (emds_ s') = [0; 0; 0]%Q
  | _, _ => False
  end.
Proof. vm_compute. repeat split; reflexivity. Qed.
